(** * OpenCalc: the hierarchical cost model

    A shallow embedding of [src/models/cost_value.py],
    [src/models/cost_item.py], [src/models/cost_schedule.py] and of
    [CostAPI.add_cost_item] from [src/ifc/cost_api.py].

    Python objects live in a store and are named by their address, so that
    the back references [parent] and [schedule], object identity ([is]) and
    in-place updates are modelled as the code has them.  Recursive methods
    and [while] loops carry a fuel argument; the outcome [NoFuel] stands for
    a computation that does not finish, which CPython reports as
    [RecursionError] for recursion and as a hang for a loop.

    The structural part of the development keeps the amounts as exact
    rationals [Q] and uses no law of arithmetic on them beyond what it says
    at the place.  The part [Binary64] has the amounts as the IEEE 754
    binary64 numbers of a Python [float], with the rounding of every
    operation; the totals of a schedule are stated there. *)

From Stdlib Require Import PrimFloat.
From Stdlib Require Import QArith Ascii DecimalString.
From stdpp Require Import gmap strings list fin_maps.

Open Scope nat_scope.

Set Warnings "-register-all".
Set Warnings "-inexact-float".

(** ** Outcomes of a Python call *)

Inductive exn : Type :=
| ValueError   (* Python's ValueError *)
| OverflowError (* Python's OverflowError *)
| NoObject.    (* an address that holds no object: no Python state has one *)

Inductive outcome (A : Type) : Type :=
| Ok (a : A)
| Raise (e : exn)
| NoFuel.

Arguments Ok {A} a.
Arguments Raise {A} e.
Arguments NoFuel {A}.

#[global] Instance outcome_ret : MRet outcome := fun A a => Ok a.
#[global] Instance outcome_bind : MBind outcome := fun A B f m =>
  match m with
  | Ok a => f a
  | Raise e => Raise e
  | NoFuel => NoFuel
  end.
#[global] Instance outcome_fmap : FMap outcome := fun A B f m =>
  match m with
  | Ok a => Ok (f a)
  | Raise e => Raise e
  | NoFuel => NoFuel
  end.

(** A Python [for] loop over a list of objects, threading the loop state. *)
Fixpoint for_each {S A : Type} (body : S -> A -> outcome S) (l : list A) (s : S)
  : outcome S :=
  match l with
  | [] => Ok s
  | c :: l' => s' ← body s c; for_each body l' s'
  end.

(** A Python [for] loop that returns from the method at the first object for
    which the call gives an object: [found = f(c); if found: return found],
    and [None] after the loop. *)
Fixpoint first_found {A B : Type} (f : A -> outcome (option B)) (l : list A)
  : outcome (option B) :=
  match l with
  | [] => Ok None
  | c :: l' =>
      r ← f c;
      match r with
      | Some y => Ok (Some y)
      | None => first_found f l'
      end
  end.

(** ** Python builtins used by the model *)

(** [f"{n:02d}"] for a natural number: decimal digits, padded with a zero
    on the left to at least two characters. *)
Definition format_02d (n : nat) : string :=
  let s := NilEmpty.string_of_uint (Nat.to_uint n) in
  if String.length s <? 2 then "0" +:+ s else s.

(** [s.replace(old, new)] where [old] is a single character. *)
Fixpoint replace_char (old : Ascii.ascii) (new : string) (s : string) : string :=
  match s with
  | EmptyString => EmptyString
  | String c rest =>
      if Ascii.eqb c old then new +:+ replace_char old new rest
      else String c (replace_char old new rest)
  end.

(** [sum(xs)]: starts from 0 and adds from the left.  The statements about
    it keep the order of the terms; on floats, where the order matters to
    the last digits, it is [Binary64.py_sum]. *)
Definition py_sum (l : list Q) : Q := fold_left Qplus l 0%Q.

(** [sep.join(parts)]. *)
Fixpoint join (sep : string) (parts : list string) : string :=
  match parts with
  | [] => ""
  | s :: rest =>
      match rest with
      | [] => s
      | _ :: _ => s +:+ sep +:+ join sep rest
      end
  end.

(** Truth value of a [str]: the empty string is false. *)
Definition str_truthy (s : string) : bool := negb (String.eqb s "").

(** [list.insert(i, x)] for an index that is a C integer already (CPython's
    [ins1]; the index that [move_up] and [move_down] compute from
    [list.index] is one): a negative index counts from the end, and the
    index is clamped to the range of the list. *)
Definition py_insert {A : Type} (i : Z) (x : A) (l : list A) : list A :=
  let n := Z.of_nat (length l) in
  let i1 := if (i <? 0)%Z then (i + n)%Z else i in
  let i2 := if (i1 <? 0)%Z then 0%Z else i1 in
  let i3 := if (n <? i2)%Z then n else i2 in
  take (Z.to_nat i3) l ++ x :: drop (Z.to_nat i3) l.

(** [sys.maxsize] on a 64-bit build of CPython, the largest [Py_ssize_t]. *)
Definition maxsize : Z := (2 ^ 63 - 1)%Z.

(** An [int] passed as an index is converted to a [Py_ssize_t]; one that
    does not fit raises [OverflowError]. *)
Definition as_ssize_t (i : Z) : outcome Z :=
  if ((- maxsize - 1 <=? i) && (i <=? maxsize))%Z then Ok i
  else Raise OverflowError.

(** [l.insert(i, x)] for a Python [int] [i]. *)
Definition list_insert {A : Type} (i : Z) (x : A) (l : list A)
  : outcome (list A) :=
  i' ← as_ssize_t i; Ok (py_insert i' x l).

(** ** Data model *)

Abbreviation addr := nat (only parsing).

(** [cost_value.py], class [QuantityType]. *)
Inductive QuantityType : Type :=
| COUNT | LENGTH | AREA | VOLUME | WEIGHT | TIME | NUMBER.

#[global] Instance QuantityType_eq_dec : EqDecision QuantityType.
Proof. solve_decision. Defined.

(** [cost_schedule.py], classes [ScheduleType] and [ScheduleStatus]. *)
Inductive ScheduleType : Type :=
| BUDGET | COSTPLAN | ESTIMATE | TENDER
| PRICEDBILLOFQUANTITIES | UNPRICEDBILLOFQUANTITIES | SCHEDULEOFRATES.

Inductive ScheduleStatus : Type :=
| DRAFT | APPROVED | SUBMITTED | REJECTED.

#[global] Instance ScheduleType_eq_dec : EqDecision ScheduleType.
Proof. solve_decision. Defined.
#[global] Instance ScheduleStatus_eq_dec : EqDecision ScheduleStatus.
Proof. solve_decision. Defined.

(** The dataclass [CostValue].  The two IFC references are opaque handles. *)
Record CostValue : Type := mkCostValue {
  unit_price : Q;
  quantity : Q;
  quantity_type : QuantityType;
  category : string;
  value_description : string;
  ifc_cost_value : option nat;
  ifc_quantity : option nat
}.

(** The dataclass [CostItem].  [cost_value], [children], [parent] and
    [schedule] hold addresses: the objects themselves are in the store.
    The list [children] is kept inside its item, since no method hands the
    list object of one item to another. *)
Record CostItem : Type := mkCostItem {
  name : string;
  html_name : string;
  identification : string;
  sfb_code : string;
  description : string;
  is_text_only : bool;
  cost_value : addr;
  children : list addr;
  parent : option addr;
  schedule : option addr;
  ifc_cost_item : option nat
}.

(** The dataclass [CostSchedule].  Dates are day numbers. *)
Record CostSchedule : Type := mkCostSchedule {
  schedule_name : string;
  schedule_description : string;
  schedule_type : ScheduleType;
  status : ScheduleStatus;
  created_date : option nat;
  update_date : option nat;
  submitted_on : option nat;
  items : list addr;
  vat_rate : Q;
  ifc_cost_schedule : option nat
}.

(** The store: one finite map per class. *)
Record Heap : Type := mkHeap {
  cost_items : gmap addr CostItem;
  cost_values : gmap addr CostValue;
  schedules : gmap addr CostSchedule
}.

Definition empty_heap : Heap := mkHeap ∅ ∅ ∅.

Definition get_item (h : Heap) (a : addr) : outcome CostItem :=
  match cost_items h !! a with Some it => Ok it | None => Raise NoObject end.

Definition get_value (h : Heap) (a : addr) : outcome CostValue :=
  match cost_values h !! a with Some cv => Ok cv | None => Raise NoObject end.

Definition get_schedule (h : Heap) (a : addr) : outcome CostSchedule :=
  match schedules h !! a with Some sc => Ok sc | None => Raise NoObject end.

Definition put_item (h : Heap) (a : addr) (it : CostItem) : Heap :=
  mkHeap (<[a := it]> (cost_items h)) (cost_values h) (schedules h).

Definition put_value (h : Heap) (a : addr) (cv : CostValue) : Heap :=
  mkHeap (cost_items h) (<[a := cv]> (cost_values h)) (schedules h).

Definition put_schedule (h : Heap) (a : addr) (sc : CostSchedule) : Heap :=
  mkHeap (cost_items h) (cost_values h) (<[a := sc]> (schedules h)).

(** Object creation picks an address that is not in use. *)
Definition alloc_item (h : Heap) (it : CostItem) : addr * Heap :=
  let a := fresh (dom (cost_items h)) in (a, put_item h a it).

Definition alloc_value (h : Heap) (cv : CostValue) : addr * Heap :=
  let a := fresh (dom (cost_values h)) in (a, put_value h a cv).

Definition alloc_schedule (h : Heap) (sc : CostSchedule) : addr * Heap :=
  let a := fresh (dom (schedules h)) in (a, put_schedule h a sc).

(** Attribute assignments on an item. *)
Definition with_children (it : CostItem) (l : list addr) : CostItem :=
  mkCostItem (name it) (html_name it) (identification it) (sfb_code it)
    (description it) (is_text_only it) (cost_value it) l (parent it)
    (schedule it) (ifc_cost_item it).

Definition with_parent (it : CostItem) (p : option addr) : CostItem :=
  mkCostItem (name it) (html_name it) (identification it) (sfb_code it)
    (description it) (is_text_only it) (cost_value it) (children it) p
    (schedule it) (ifc_cost_item it).

Definition with_schedule (it : CostItem) (s : option addr) : CostItem :=
  mkCostItem (name it) (html_name it) (identification it) (sfb_code it)
    (description it) (is_text_only it) (cost_value it) (children it)
    (parent it) s (ifc_cost_item it).

Definition with_is_text_only (it : CostItem) (b : bool) : CostItem :=
  mkCostItem (name it) (html_name it) (identification it) (sfb_code it)
    (description it) b (cost_value it) (children it)
    (parent it) (schedule it) (ifc_cost_item it).

Definition with_items (sc : CostSchedule) (l : list addr) : CostSchedule :=
  mkCostSchedule (schedule_name sc) (schedule_description sc)
    (schedule_type sc) (status sc) (created_date sc) (update_date sc)
    (submitted_on sc) l (vat_rate sc) (ifc_cost_schedule sc).

Definition set_children (h : Heap) (a : addr) (l : list addr) : outcome Heap :=
  it ← get_item h a; Ok (put_item h a (with_children it l)).

Definition set_parent (h : Heap) (a : addr) (p : option addr) : outcome Heap :=
  it ← get_item h a; Ok (put_item h a (with_parent it p)).

Definition set_schedule (h : Heap) (a : addr) (s : option addr) : outcome Heap :=
  it ← get_item h a; Ok (put_item h a (with_schedule it s)).

Definition set_is_text_only (h : Heap) (a : addr) (b : bool) : outcome Heap :=
  it ← get_item h a; Ok (put_item h a (with_is_text_only it b)).

Definition set_items (h : Heap) (s : addr) (l : list addr) : outcome Heap :=
  sc ← get_schedule h s; Ok (put_schedule h s (with_items sc l)).

(** ** [==] on dataclass instances

    All three classes are declared with [@dataclass] and no [eq=False], so
    each has a generated [__eq__] that compares the fields in declaration
    order and stops at the first difference.  [x in l], [l.index(x)] and
    [l.remove(x)] compare with [e is x or e == x], as do the elements of the
    lists and the object-valued fields compared on the way.  (From Python
    3.13 on the generated [__eq__] compares the fields with [==] one by one,
    without the identity test on a field; on the stores used below both
    give the same answers.) *)

(** Sequencing of the field comparisons: the rest is looked at only after a
    field compared equal, and a comparison that fails to finish stops all. *)
Definition and_then (b k : outcome bool) : outcome bool :=
  match b with
  | Ok true => k
  | other => other
  end.

(** Identity first, then [==]. *)
Definition rich (eq : addr -> addr -> outcome bool) (a b : addr) : outcome bool :=
  if decide (a = b) then Ok true else eq a b.

(** An optional reference: [None] equals only [None]. *)
Definition opt_rich (eq : addr -> addr -> outcome bool) (a b : option addr)
  : outcome bool :=
  match a, b with
  | None, None => Ok true
  | Some a', Some b' => rich eq a' b'
  | _, _ => Ok false
  end.

Fixpoint list_rich (eq : addr -> addr -> outcome bool) (l1 l2 : list addr)
  : outcome bool :=
  match l1, l2 with
  | [], [] => Ok true
  | a :: l1', b :: l2' => and_then (rich eq a b) (list_rich eq l1' l2')
  | _, _ => Ok false
  end.

(** [l1 == l2] on lists: the lengths are compared before any element. *)
Definition list_eq (eq : addr -> addr -> outcome bool) (l1 l2 : list addr)
  : outcome bool :=
  if length l1 =? length l2 then list_rich eq l1 l2 else Ok false.

Definition handle_eqb (a b : option nat) : bool := bool_decide (a = b).

(** [CostValue.__eq__]. *)
Definition value_fields_eq (x y : CostValue) : bool :=
  Qeq_bool (unit_price x) (unit_price y)
  && Qeq_bool (quantity x) (quantity y)
  && bool_decide (quantity_type x = quantity_type y)
  && String.eqb (category x) (category y)
  && String.eqb (value_description x) (value_description y)
  && handle_eqb (ifc_cost_value x) (ifc_cost_value y)
  && handle_eqb (ifc_quantity x) (ifc_quantity y).

Definition value_eq (h : Heap) (a b : addr) : outcome bool :=
  x ← get_value h a; y ← get_value h b; Ok (value_fields_eq x y).

(** [CostItem.__eq__], the fields from [name] to [cost_value]: none of them
    leads back to an item. *)
Definition item_scalars_eq (h : Heap) (x y : CostItem) : outcome bool :=
  and_then (Ok (String.eqb (name x) (name y)))
  (and_then (Ok (String.eqb (html_name x) (html_name y)))
  (and_then (Ok (String.eqb (identification x) (identification y)))
  (and_then (Ok (String.eqb (sfb_code x) (sfb_code y)))
  (and_then (Ok (String.eqb (description x) (description y)))
  (and_then (Ok (eqb (is_text_only x) (is_text_only y)))
            (rich (value_eq h) (cost_value x) (cost_value y))))))).

(** [CostItem.__eq__] on the fields of two items, given [==] on items and on
    schedules for the fields that hold them: after the fields above come
    [children], [parent], [schedule] and [ifc_cost_item], in that order. *)
Definition item_fields_eq (ieq seq : addr -> addr -> outcome bool) (h : Heap)
    (x y : CostItem) : outcome bool :=
  and_then (item_scalars_eq h x y)
  (and_then (list_eq ieq (children x) (children y))
  (and_then (opt_rich ieq (parent x) (parent y))
  (and_then (opt_rich seq (schedule x) (schedule y))
            (Ok (handle_eqb (ifc_cost_item x) (ifc_cost_item y)))))).

(** [CostSchedule.__eq__] on the fields of two schedules. *)
Definition schedule_fields_eq (ieq : addr -> addr -> outcome bool)
    (x y : CostSchedule) : outcome bool :=
  and_then (Ok (String.eqb (schedule_name x) (schedule_name y)))
  (and_then (Ok (String.eqb (schedule_description x) (schedule_description y)))
  (and_then (Ok (bool_decide (schedule_type x = schedule_type y)))
  (and_then (Ok (bool_decide (status x = status y)))
  (and_then (Ok (handle_eqb (created_date x) (created_date y)))
  (and_then (Ok (handle_eqb (update_date x) (update_date y)))
  (and_then (Ok (handle_eqb (submitted_on x) (submitted_on y)))
  (and_then (list_eq ieq (items x) (items y))
  (and_then (Ok (Qeq_bool (vat_rate x) (vat_rate y)))
            (Ok (handle_eqb (ifc_cost_schedule x) (ifc_cost_schedule y))))))))))).

Fixpoint item_eq (fuel : nat) (h : Heap) (a b : addr) : outcome bool :=
  match fuel with
  | 0 => NoFuel
  | S f =>
      x ← get_item h a; y ← get_item h b;
      item_fields_eq (item_eq f h) (schedule_eq f h) h x y
  end
with schedule_eq (fuel : nat) (h : Heap) (a b : addr) : outcome bool :=
  match fuel with
  | 0 => NoFuel
  | S f =>
      x ← get_schedule h a; y ← get_schedule h b;
      schedule_fields_eq (item_eq f h) x y
  end.

(** [x in l]. *)
Fixpoint contains (eq : addr -> addr -> outcome bool) (l : list addr) (x : addr)
  : outcome bool :=
  match l with
  | [] => Ok false
  | e :: l' => b ← rich eq e x; if b : bool then Ok true else contains eq l' x
  end.

(** [l.index(x)]: the position of the first element that is or equals [x]. *)
Fixpoint index (eq : addr -> addr -> outcome bool) (l : list addr) (x : addr)
  : outcome nat :=
  match l with
  | [] => Raise ValueError
  | e :: l' =>
      b ← rich eq e x;
      if b : bool then Ok 0 else i ← index eq l' x; Ok (S i)
  end.

(** [l.remove(x)]: drops the first element that is or equals [x]. *)
Fixpoint remove (eq : addr -> addr -> outcome bool) (l : list addr) (x : addr)
  : outcome (list addr) :=
  match l with
  | [] => Raise ValueError
  | e :: l' =>
      b ← rich eq e x;
      if b : bool then Ok l' else r ← remove eq l' x; Ok (e :: r)
  end.

(** ** [cost_value.py] *)

Module CostValue.

(** [CostValue()] with the dataclass defaults. *)
Definition default : CostValue :=
  mkCostValue 0%Q 0%Q COUNT "" "" None None.

(** Property [total]. *)
Definition total (cv : CostValue) : Q := (quantity cv * unit_price cv)%Q.

End CostValue.

(** ** [cost_item.py] *)

Module CostItem.

(** [CostItem(...)] for an item built without children, parent or
    schedule; [__post_init__] has no child to visit. *)
Definition make (nm html ident sfb descr : string) (text_only : bool)
    (cv : addr) : CostItem :=
  mkCostItem nm html ident sfb descr text_only cv [] None None None.

(** [CostItem(name=.., identification=.., is_text_only=..,
    cost_value=CostValue(..))]: both objects are created. *)
Definition new (h : Heap) (nm ident : string) (text_only : bool)
    (cv : CostValue) : addr * Heap :=
  let '(v, h1) := alloc_value h cv in
  alloc_item h1 (make nm "" ident "" "" text_only v).

(** Properties [is_chapter] and [is_leaf]. *)
Definition is_chapter (it : CostItem) : bool := 0 <? length (children it).
Definition is_leaf (it : CostItem) : bool := length (children it) =? 0.

(** The setters [unit_price] and [quantity] write through to the item's
    [CostValue] object. *)
Definition set_unit_price (h : Heap) (x : addr) (v : Q) : outcome Heap :=
  it ← get_item h x; cv ← get_value h (cost_value it);
  Ok (put_value h (cost_value it)
        (mkCostValue v (quantity cv) (quantity_type cv) (category cv)
           (value_description cv) (ifc_cost_value cv) (ifc_quantity cv))).

Definition set_quantity (h : Heap) (x : addr) (v : Q) : outcome Heap :=
  it ← get_item h x; cv ← get_value h (cost_value it);
  Ok (put_value h (cost_value it)
        (mkCostValue (unit_price cv) v (quantity_type cv) (category cv)
           (value_description cv) (ifc_cost_value cv) (ifc_quantity cv))).

(** Property [subtotal]. *)
Fixpoint subtotal (fuel : nat) (h : Heap) (x : addr) : outcome Q :=
  match fuel with
  | 0 => NoFuel
  | S f =>
      it ← get_item h x;
      if is_text_only it then Ok 0%Q
      else if is_leaf it then
        cv ← get_value h (cost_value it); Ok (CostValue.total cv)
      else
        vs ← mapM (subtotal f h) (children it); Ok (py_sum vs)
  end.

(** Property [total]: "Alias voor subtotal". *)
Definition total (fuel : nat) (h : Heap) (x : addr) : outcome Q :=
  subtotal fuel h x.

(** [add_child]. *)
Definition add_child (h : Heap) (self child : addr) : outcome (addr * Heap) :=
  h1 ← set_parent h child (Some self);
  s ← get_item h1 self;
  h2 ← set_schedule h1 child (schedule s);
  s' ← get_item h2 self;
  h3 ← set_children h2 self (children s' ++ [child]);
  Ok (child, h3).

(** [remove_child]. *)
Definition remove_child (fuel : nat) (h : Heap) (self child : addr)
  : outcome (bool * Heap) :=
  s ← get_item h self;
  found ← contains (item_eq fuel h) (children s) child;
  if found : bool then
    h1 ← set_parent h child None;
    h2 ← set_schedule h1 child None;
    s' ← get_item h2 self;
    l ← remove (item_eq fuel h2) (children s') child;
    h3 ← set_children h2 self l;
    Ok (true, h3)
  else Ok (false, h).

(** [insert_child].  The two assignments come before [insert], so an index
    that does not fit a [Py_ssize_t] raises after they were made; the
    outcome [Raise] does not keep the store. *)
Definition insert_child (h : Heap) (self : addr) (i : Z) (child : addr)
  : outcome (addr * Heap) :=
  h1 ← set_parent h child (Some self);
  s ← get_item h1 self;
  h2 ← set_schedule h1 child (schedule s);
  s' ← get_item h2 self;
  l ← list_insert i child (children s');
  h3 ← set_children h2 self l;
  Ok (child, h3).

(** [get_child_index]: [-1] when [index] raises [ValueError]. *)
Definition get_child_index (fuel : nat) (h : Heap) (self child : addr)
  : outcome Z :=
  s ← get_item h self;
  match index (item_eq fuel h) (children s) child with
  | Ok i => Ok (Z.of_nat i)
  | Raise ValueError => Ok (-1)%Z
  | Raise e => Raise e
  | NoFuel => NoFuel
  end.

(** [move_up]. *)
Definition move_up (fuel : nat) (h : Heap) (self : addr)
  : outcome (bool * Heap) :=
  it ← get_item h self;
  match parent it with
  | None => Ok (false, h)
  | Some p =>
      i ← get_child_index fuel h p self;
      if (i <=? 0)%Z then Ok (false, h)
      else
        pit ← get_item h p;
        l ← remove (item_eq fuel h) (children pit) self;
        h1 ← set_children h p l;
        pit' ← get_item h1 p;
        h2 ← set_children h1 p (py_insert (i - 1) self (children pit'));
        Ok (true, h2)
  end.

(** [move_down]. *)
Definition move_down (fuel : nat) (h : Heap) (self : addr)
  : outcome (bool * Heap) :=
  it ← get_item h self;
  match parent it with
  | None => Ok (false, h)
  | Some p =>
      i ← get_child_index fuel h p self;
      pit0 ← get_item h p;
      if ((i <? 0) || (Z.of_nat (length (children pit0)) - 1 <=? i))%Z
      then Ok (false, h)
      else
        pit ← get_item h p;
        l ← remove (item_eq fuel h) (children pit) self;
        h1 ← set_children h p l;
        pit' ← get_item h1 p;
        h2 ← set_children h1 p (py_insert (i + 1) self (children pit'));
        Ok (true, h2)
  end.

(** The [while item:] loop of [get_path]; an item object is always true. *)
Fixpoint get_path_loop (fuel : nat) (h : Heap) (item : option addr)
    (path : list addr) : outcome (list addr) :=
  match item with
  | None => Ok path
  | Some a =>
      match fuel with
      | 0 => NoFuel
      | S f => it ← get_item h a; get_path_loop f h (parent it) (a :: path)
      end
  end.

(** [get_path]. *)
Definition get_path (fuel : nat) (h : Heap) (self : addr)
  : outcome (list addr) :=
  it ← get_item h self; get_path_loop fuel h (parent it) [self].

(** [get_full_identification]. *)
Definition get_full_identification (fuel : nat) (h : Heap) (self : addr)
    (separator : string) : outcome string :=
  path ← get_path fuel h self;
  parts ← for_each (fun parts item =>
                      it ← get_item h item;
                      if str_truthy (identification it)
                      then Ok (parts ++ [identification it])
                      else Ok parts) path [];
  Ok (join separator parts).

(** The default value of [separator]. *)
Definition default_separator : string := ".".

(** [get_all_descendants]. *)
Fixpoint get_all_descendants (fuel : nat) (h : Heap) (self : addr)
  : outcome (list addr) :=
  match fuel with
  | 0 => NoFuel
  | S f =>
      it ← get_item h self;
      for_each (fun descendants child =>
                  ds ← get_all_descendants f h child;
                  Ok ((descendants ++ [child]) ++ ds))
               (children it) []
  end.

(** [copy]. *)
Fixpoint copy (fuel : nat) (h : Heap) (self : addr) : outcome (addr * Heap) :=
  match fuel with
  | 0 => NoFuel
  | S f =>
      it ← get_item h self;
      cv ← get_value h (cost_value it);
      let '(new_cost_value, h1) :=
        alloc_value h (mkCostValue (unit_price cv) (quantity cv)
                         (quantity_type cv) "" "" None None) in
      let '(new_item, h2) :=
        alloc_item h1 (make (name it) (html_name it) (identification it)
                         (sfb_code it) (description it) (is_text_only it)
                         new_cost_value) in
      hn ← for_each (fun hc child =>
                       '(child_copy, hc1) ← copy f hc child;
                       '(_, hc2) ← add_child hc1 new_item child_copy;
                       Ok hc2)
                    (children it) h2;
      Ok (new_item, hn)
  end.

(** The [while item:] loop of property [level]. *)
Fixpoint level_loop (fuel : nat) (h : Heap) (item : option addr) (level : nat)
  : outcome nat :=
  match item with
  | None => Ok level
  | Some a =>
      match fuel with
      | 0 => NoFuel
      | S f => it ← get_item h a; level_loop f h (parent it) (level + 1)
      end
  end.

(** Property [level]. *)
Definition level (fuel : nat) (h : Heap) (self : addr) : outcome nat :=
  it ← get_item h self; level_loop fuel h (parent it) 0.

(** [find_by_identification]: [None] is [Ok None]. *)
Fixpoint find_by_identification (fuel : nat) (h : Heap) (self : addr)
    (ident : string) : outcome (option addr) :=
  match fuel with
  | 0 => NoFuel
  | S f =>
      it ← get_item h self;
      if String.eqb (identification it) ident then Ok (Some self)
      else first_found (fun child => find_by_identification f h child ident)
             (children it)
  end.

End CostItem.

(** ** [cost_schedule.py] *)

Module CostSchedule.

(** [_set_schedule_recursive]. *)
Fixpoint _set_schedule_recursive (fuel : nat) (h : Heap) (self item : addr)
  : outcome Heap :=
  match fuel with
  | 0 => NoFuel
  | S f =>
      h1 ← set_schedule h item (Some self);
      it ← get_item h1 item;
      for_each (fun hc child => _set_schedule_recursive f hc self child)
               (children it) h1
  end.

(** [__post_init__], run by the constructor on the items passed to it. *)
Definition __post_init__ (fuel : nat) (h : Heap) (self : addr) : outcome Heap :=
  sc ← get_schedule h self;
  for_each (fun hc item =>
              h1 ← set_schedule hc item (Some self);
              _set_schedule_recursive fuel h1 self item)
           (items sc) h.

(** [CostSchedule()] with the dataclass defaults, created on day [today]. *)
Definition default (today : nat) : CostSchedule :=
  mkCostSchedule "Nieuwe Begroting" "" BUDGET DRAFT (Some today) None None
    [] (21 # 1)%Q None.

(** Property [subtotal]. *)
Definition subtotal (fuel : nat) (h : Heap) (self : addr) : outcome Q :=
  sc ← get_schedule h self;
  vs ← mapM (CostItem.subtotal fuel h) (items sc);
  Ok (py_sum vs).

(** Property [vat_amount], in exact arithmetic; with the rounding of floats
    it is [Binary64.CostSchedule.vat_amount]. *)
Definition vat_amount (fuel : nat) (h : Heap) (self : addr) : outcome Q :=
  st ← subtotal fuel h self;
  sc ← get_schedule h self;
  Ok (st * (vat_rate sc / (100 # 1)))%Q.

(** Property [total]. *)
Definition total (fuel : nat) (h : Heap) (self : addr) : outcome Q :=
  st ← subtotal fuel h self;
  va ← vat_amount fuel h self;
  Ok (st + va)%Q.

(** Property [item_count]. *)
Definition item_count (fuel : nat) (h : Heap) (self : addr) : outcome nat :=
  sc ← get_schedule h self;
  for_each (fun count item =>
              ds ← CostItem.get_all_descendants fuel h item;
              Ok (count + (1 + length ds)))
           (items sc) 0.

(** [add_item]. *)
Definition add_item (h : Heap) (self item : addr) : outcome (addr * Heap) :=
  h1 ← set_schedule h item (Some self);
  h2 ← set_parent h1 item None;
  sc ← get_schedule h2 self;
  h3 ← set_items h2 self (items sc ++ [item]);
  Ok (item, h3).

(** [remove_item]. *)
Definition remove_item (fuel : nat) (h : Heap) (self item : addr)
  : outcome (bool * Heap) :=
  sc ← get_schedule h self;
  found ← contains (item_eq fuel h) (items sc) item;
  if found : bool then
    h1 ← set_schedule h item None;
    sc' ← get_schedule h1 self;
    l ← remove (item_eq fuel h1) (items sc') item;
    h2 ← set_items h1 self l;
    Ok (true, h2)
  else Ok (false, h).

(** [insert_item]. *)
Definition insert_item (h : Heap) (self : addr) (i : Z) (item : addr)
  : outcome (addr * Heap) :=
  h1 ← set_schedule h item (Some self);
  h2 ← set_parent h1 item None;
  sc ← get_schedule h2 self;
  l ← list_insert i item (items sc);
  h3 ← set_items h2 self l;
  Ok (item, h3).

(** [get_all_items]. *)
Definition get_all_items (fuel : nat) (h : Heap) (self : addr)
  : outcome (list addr) :=
  sc ← get_schedule h self;
  for_each (fun all_items item =>
              ds ← CostItem.get_all_descendants fuel h item;
              Ok ((all_items ++ [item]) ++ ds))
           (items sc) [].

(** Property [chapter_count]. *)
Definition chapter_count (h : Heap) (self : addr) : outcome nat :=
  sc ← get_schedule h self; Ok (length (items sc)).

(** [get_item_index]: [-1] when [index] raises [ValueError]. *)
Definition get_item_index (fuel : nat) (h : Heap) (self item : addr)
  : outcome Z :=
  sc ← get_schedule h self;
  match index (item_eq fuel h) (items sc) item with
  | Ok i => Ok (Z.of_nat i)
  | Raise ValueError => Ok (-1)%Z
  | Raise e => Raise e
  | NoFuel => NoFuel
  end.

(** [find_by_identification]. *)
Definition find_by_identification (fuel : nat) (h : Heap) (self : addr)
    (ident : string) : outcome (option addr) :=
  sc ← get_schedule h self;
  first_found (fun item => CostItem.find_by_identification fuel h item ident)
    (items sc).

(** [get_items_at_level]. *)
Definition get_items_at_level (fuel : nat) (h : Heap) (self : addr) (level : Z)
  : outcome (list addr) :=
  all_items ← get_all_items fuel h self;
  for_each (fun acc item =>
              lv ← CostItem.level fuel h item;
              Ok (if (Z.of_nat lv =? level)%Z then acc ++ [item] else acc))
           all_items [].

(** [create_chapter]. *)
Definition create_chapter (h : Heap) (self : addr) (nm ident descr : string)
  : outcome (addr * Heap) :=
  sc ← get_schedule h self;
  let ident' := if str_truthy ident then ident
                else format_02d (length (items sc) + 1) in
  let '(v, h1) := alloc_value h CostValue.default in
  let '(chapter, h2) := alloc_item h1 (CostItem.make nm "" ident' "" descr false v) in
  add_item h2 self chapter.

(** [mark_modified], on day [today]. *)
Definition mark_modified (h : Heap) (self : addr) (today : nat) : outcome Heap :=
  sc ← get_schedule h self;
  Ok (put_schedule h self
        (mkCostSchedule (schedule_name sc) (schedule_description sc)
           (schedule_type sc) (status sc) (created_date sc) (Some today)
           (submitted_on sc) (items sc) (vat_rate sc) (ifc_cost_schedule sc))).

End CostSchedule.

(** ** The amounts in binary floating point

    A Python [float] is an IEEE 754 binary64 number, and [*], [/] and [+]
    round their result to the nearest one.  In this part the amounts held by
    a [CostValue] and the VAT rate of a schedule are such numbers ([float],
    with the operations of the machine), and the properties that compute
    with them are embedded once more.  The items are the ones of the store
    above: they hold no amount themselves. *)

Module Binary64.

(** The dataclass [CostValue]. *)
Record CostValue : Type := mkCostValue {
  unit_price : float;
  quantity : float;
  quantity_type : QuantityType;
  category : string;
  value_description : string;
  ifc_cost_value : option nat;
  ifc_quantity : option nat
}.

(** The dataclass [CostSchedule]. *)
Record CostSchedule : Type := mkCostSchedule {
  schedule_name : string;
  schedule_description : string;
  schedule_type : ScheduleType;
  status : ScheduleStatus;
  created_date : option nat;
  update_date : option nat;
  submitted_on : option nat;
  items : list addr;
  vat_rate : float;
  ifc_cost_schedule : option nat
}.

Record Heap : Type := mkHeap {
  cost_items : gmap addr CostItem;
  cost_values : gmap addr CostValue;
  schedules : gmap addr CostSchedule
}.

Definition get_item (h : Heap) (a : addr) : outcome CostItem :=
  match cost_items h !! a with Some it => Ok it | None => Raise NoObject end.

Definition get_value (h : Heap) (a : addr) : outcome CostValue :=
  match cost_values h !! a with Some cv => Ok cv | None => Raise NoObject end.

Definition get_schedule (h : Heap) (a : addr) : outcome CostSchedule :=
  match schedules h !! a with Some sc => Ok sc | None => Raise NoObject end.

(** [sum(xs)] on floats: starts from 0 and adds from the left, rounding
    after each addition.  (This is [sum] up to CPython 3.11; from 3.12 on it
    carries a correction term along.  On a list of one number both give
    that number.) *)
Definition py_sum (l : list float) : float := fold_left PrimFloat.add l 0%float.

Module CostValue.

(** Property [total]. *)
Definition total (cv : CostValue) : float := (quantity cv * unit_price cv)%float.

End CostValue.

Module CostItem.

(** Property [subtotal]. *)
Fixpoint subtotal (fuel : nat) (h : Heap) (x : addr) : outcome float :=
  match fuel with
  | 0 => NoFuel
  | S f =>
      it ← get_item h x;
      if is_text_only it then Ok 0%float
      else if CostItem.is_leaf it then
        cv ← get_value h (cost_value it); Ok (CostValue.total cv)
      else
        vs ← mapM (subtotal f h) (children it); Ok (py_sum vs)
  end.

End CostItem.

Module CostSchedule.

(** Property [subtotal]. *)
Definition subtotal (fuel : nat) (h : Heap) (self : addr) : outcome float :=
  sc ← get_schedule h self;
  vs ← mapM (CostItem.subtotal fuel h) (items sc);
  Ok (py_sum vs).

(** Property [vat_amount]: [self.subtotal * (self.vat_rate / 100)]. *)
Definition vat_amount (fuel : nat) (h : Heap) (self : addr) : outcome float :=
  st ← subtotal fuel h self;
  sc ← get_schedule h self;
  Ok (st * (vat_rate sc / 100))%float.

(** Property [total]: [self.subtotal + self.vat_amount]. *)
Definition total (fuel : nat) (h : Heap) (self : addr) : outcome float :=
  st ← subtotal fuel h self;
  va ← vat_amount fuel h self;
  Ok (st + va)%float.

End CostSchedule.

End Binary64.

(** ** [services/print_service.py] *)

Module PrintService.

(** The double quote character. *)
Definition dquote : Ascii.ascii := Ascii.ascii_of_nat 34.

(** [_escape_html]. *)
Definition _escape_html (text : string) : string :=
  if negb (str_truthy text) then ""
  else replace_char dquote "&quot;"
         (replace_char ">"%char "&gt;"
            (replace_char "<"%char "&lt;"
               (replace_char "&"%char "&amp;" text))).

End PrintService.

(** ** [cost_api.py]: [CostAPI.add_cost_item]

    [ifcopenshell] is an external library.  Its file object, its entity
    instances and the two operations the method uses are parameters of the
    model.  The arguments [cost_schedule] and [cost_item] are an entity or
    [None]; an entity instance is true. *)

Section CostAPI.

Variable ifc_file : Type.
Variable entity : Type.

(** [ifcopenshell.api.run("cost.add_cost_item", file, cost_schedule=..,
    cost_item=..)]: the new entity and the file that holds it. *)
Variable api_add_cost_item :
  ifc_file -> option entity -> option entity -> entity * ifc_file.

(** [item.Name = ..] and [item.Identification = ..]. *)
Variable set_Name : ifc_file -> entity -> string -> ifc_file.
Variable set_Identification : ifc_file -> entity -> string -> ifc_file.

(** Truth value of an argument that is an entity or [None]. *)
Definition arg_truthy (a : option entity) : bool :=
  match a with Some _ => true | None => false end.

Definition add_cost_item (file : ifc_file)
    (cost_schedule cost_item : option entity) (nm ident : string)
  : outcome (entity * ifc_file) :=
  if negb (arg_truthy cost_schedule) && negb (arg_truthy cost_item)
  then Raise ValueError
  else
    let '(item, f1) := api_add_cost_item file cost_schedule cost_item in
    let f2 := if str_truthy nm then set_Name f1 item nm else f1 in
    let f3 := if str_truthy ident then set_Identification f2 item ident
              else f2 in
    Ok (item, f3).

End CostAPI.

(** ** The cost tree an item stands for

    The specification speaks of a tree of budget lines.  [CostTree] is that
    tree as a value; [repr h x t] says that the objects reachable from the
    item at [x] through [children] form the tree [t] in the store [h].  An
    item whose children lead back to itself stands for no tree. *)

Record ItemData : Type := mkItemData {
  d_name : string;
  d_html_name : string;
  d_identification : string;
  d_sfb_code : string;
  d_description : string;
  d_is_text_only : bool;
  d_unit_price : Q;
  d_quantity : Q;
  d_quantity_type : QuantityType
}.

Inductive CostTree : Type :=
| Node (d : ItemData) (kids : list CostTree).

Definition data_of (it : CostItem) (cv : CostValue) : ItemData :=
  mkItemData (name it) (html_name it) (identification it) (sfb_code it)
    (description it) (is_text_only it)
    (unit_price cv) (quantity cv) (quantity_type cv).

Definition node_data (t : CostTree) : ItemData :=
  match t with Node d _ => d end.

Definition node_kids (t : CostTree) : list CostTree :=
  match t with Node _ kids => kids end.

Fixpoint height (t : CostTree) : nat :=
  match t with
  | Node _ kids => S (max_list (map height kids))
  end.

(** Number of nodes of a tree and of a forest. *)
Fixpoint tree_size (t : CostTree) : nat :=
  match t with
  | Node _ kids => S (sum_list (map tree_size kids))
  end.

Definition forest_size (ts : list CostTree) : nat :=
  sum_list (map tree_size ts).

(** The aggregation rule in the words of the specification: 0 for a
    text-only node, quantity times unit price for a leaf, and otherwise the
    sum of the children's subtotals in child order. *)
Fixpoint spec_subtotal (t : CostTree) : Q :=
  match t with
  | Node d kids =>
      if d_is_text_only d then 0%Q
      else match kids with
           | [] => (d_quantity d * d_unit_price d)%Q
           | _ :: _ => py_sum (map spec_subtotal kids)
           end
  end.

Inductive repr (h : Heap) : addr -> CostTree -> Prop :=
| repr_node (x : addr) (it : CostItem) (cv : CostValue) (kids : list CostTree) :
    cost_items h !! x = Some it ->
    cost_values h !! cost_value it = Some cv ->
    Forall2 (repr h) (children it) kids ->
    repr h x (Node (data_of it cv) kids).

(** ** Predicates used in the statements *)

(** The statement of C7 at an item: it has a child, and its subtotal is the
    sum of the subtotals of its children. *)
Definition chapter_sums_children (fuel : nat) (h : Heap) (x : addr) : Prop :=
  exists (it : CostItem) (vs : list Q) (v : Q),
    cost_items h !! x = Some it
    /\ children it <> []
    /\ mapM (CostItem.subtotal fuel h) (children it) = Ok vs
    /\ CostItem.subtotal fuel h x = Ok v
    /\ (v == py_sum vs)%Q.

(** [path_to h x l]: [l] lists the items from the root of the forest down to
    [x], each the parent of the next, [x] last. *)
Inductive path_to (h : Heap) : addr -> list addr -> Prop :=
| path_root (x : addr) (it : CostItem) :
    cost_items h !! x = Some it -> parent it = None ->
    path_to h x [x]
| path_step (x p : addr) (it : CostItem) (l : list addr) :
    cost_items h !! x = Some it -> parent it = Some p ->
    path_to h p l ->
    path_to h x (l ++ [x]).

(** The items of a schedule: its roots and all their descendants. *)
Inductive reachable (h : Heap) (s : addr) : addr -> Prop :=
| reach_root (sc : CostSchedule) (x : addr) :
    schedules h !! s = Some sc -> x ∈ items sc -> reachable h s x
| reach_child (p c : addr) (it : CostItem) :
    reachable h s p -> cost_items h !! p = Some it -> c ∈ children it ->
    reachable h s c.

(** The invariant of C3: every item of the schedule refers to it, and every
    child refers to the item whose [children] holds it. *)
Definition backrefs_consistent (h : Heap) (s : addr) : Prop :=
  (forall x, reachable h s x ->
     exists it, cost_items h !! x = Some it /\ schedule it = Some s)
  /\ (forall p it c, cost_items h !! p = Some it -> c ∈ children it ->
        exists ci, cost_items h !! c = Some ci /\ parent ci = Some p).

(** [repr_in I V h x t]: as [repr], and every item of the tree is at an
    address in [I], every cost value at an address in [V]. *)
Inductive repr_in (I V : addr -> Prop) (h : Heap) : addr -> CostTree -> Prop :=
| repr_in_node (x : addr) (it : CostItem) (cv : CostValue) (kids : list CostTree) :
    I x -> V (cost_value it) ->
    cost_items h !! x = Some it ->
    cost_values h !! cost_value it = Some cv ->
    Forall2 (repr_in I V h) (children it) kids ->
    repr_in I V h x (Node (data_of it cv) kids).

(** An item without its back references. *)
Definition core (it : CostItem) : CostItem :=
  with_parent (with_schedule it None) None.

(** [h'] has every object of [h], unchanged. *)
Definition extends (h h' : Heap) : Prop :=
  (forall a it, cost_items h !! a = Some it -> cost_items h' !! a = Some it)
  /\ (forall v cv, cost_values h !! v = Some cv -> cost_values h' !! v = Some cv)
  /\ schedules h' = schedules h.

Definition new_item_in (h : Heap) (a : addr) : Prop := cost_items h !! a = None.
Definition new_value_in (h : Heap) (v : addr) : Prop := cost_values h !! v = None.

(** What [copy] has to deliver at fuel [f]. *)
Definition copy_post (f : nat) (h : Heap) (x : addr) (t : CostTree) : Prop :=
  exists y h',
    CostItem.copy f h x = Ok (y, h')
    /\ extends h h'
    /\ repr_in (new_item_in h) (new_value_in h) h' y t
    /\ exists ity, cost_items h' !! y = Some ity
                   /\ parent ity = None /\ schedule ity = None.

(** ** Stores used as examples *)

(** Scenarios A and B of the specification: the chapter "01" Grondwerk with
    the leaf "01.01" (85 m3 at 12.50) and a text-only row that carries the
    irrelevant figures 10 and 5. *)
Definition grondwerk_heap : Heap :=
  mkHeap
    (list_to_map
       [(0, mkCostItem "Grondwerk" "" "01" "" "" false 0 [1; 2] None (Some 0) None);
        (1, mkCostItem "Ontgraven" "" "01.01" "" "" false 1 [] (Some 0) (Some 0) None);
        (2, mkCostItem "Opmerking" "" "" "" "" true 2 [] (Some 0) (Some 0) None)])
    (list_to_map
       [(0, CostValue.default);
        (1, mkCostValue (25 # 2) (85 # 1) VOLUME "" "" None None);
        (2, mkCostValue (5 # 1) (10 # 1) COUNT "" "" None None)])
    (list_to_map
       [(0, mkCostSchedule "Begroting" "" BUDGET DRAFT (Some 0) None None [0]
              (21 # 1) None)]).

Definition grondwerk_tree : CostTree :=
  Node (mkItemData "Grondwerk" "" "01" "" "" false 0 0 COUNT)
    [Node (mkItemData "Ontgraven" "" "01.01" "" "" false (25 # 2) (85 # 1) VOLUME) [];
     Node (mkItemData "Opmerking" "" "" "" "" true (5 # 1) (10 # 1) COUNT) []].

(** An item flagged [is_text_only] that has a child: nothing in [add_child]
    or in the constructor looks at the flag. *)
Definition text_chapter_heap : Heap :=
  mkHeap
    (list_to_map
       [(0, mkCostItem "Toelichting" "" "02" "" "" true 0 [1] None None None);
        (1, mkCostItem "Stelpost" "" "02.01" "" "" false 1 [] (Some 0) None None)])
    (list_to_map
       [(0, CostValue.default);
        (1, mkCostValue (3 # 1) (2 # 1) COUNT "" "" None None)])
    ∅.

(** The example of the specification: a root chapter "01" with the child
    leaf "01.05". *)
Definition codes_heap : Heap :=
  mkHeap
    (list_to_map
       [(0, mkCostItem "Grondwerk" "" "01" "" "" false 0 [1] None None None);
        (1, mkCostItem "Ontgraven" "" "01.05" "" "" false 1 [] (Some 0) None None)])
    (list_to_map [(0, CostValue.default); (1, CostValue.default)])
    ∅.

(** A new schedule, and next to it the chapter 0 with the leaf 1 added by
    [add_child]. *)
Definition detached_chapter_heap : Heap :=
  mkHeap
    (list_to_map
       [(0, mkCostItem "Grondwerk" "" "01" "" "" false 0 [1] None None None);
        (1, mkCostItem "Ontgraven" "" "01.01" "" "" false 1 [] (Some 0) None None)])
    (list_to_map
       [(0, CostValue.default);
        (1, mkCostValue (25 # 2) (85 # 1) VOLUME "" "" None None)])
    (list_to_map [(0, CostSchedule.default 0)]).

(** The same objects after [schedule.add_item(chapter)]. *)
Definition attached_chapter_heap : Heap :=
  mkHeap
    (list_to_map
       [(0, mkCostItem "Grondwerk" "" "01" "" "" false 0 [1] None (Some 0) None);
        (1, mkCostItem "Ontgraven" "" "01.01" "" "" false 1 [] (Some 0) None None)])
    (list_to_map
       [(0, CostValue.default);
        (1, mkCostValue (25 # 2) (85 # 1) VOLUME "" "" None None)])
    (list_to_map [(0, with_items (CostSchedule.default 0) [0])]).

(** The parent 0 with the chapter 1 and its leaf 2; the items 3 and 4 are
    the copy of that chapter, not attached anywhere. *)
Definition copied_chapter_heap : Heap :=
  mkHeap
    (list_to_map
       [(0, mkCostItem "Ruwbouw" "" "02" "" "" false 0 [1] None None None);
        (1, mkCostItem "Fundering" "" "02.01" "" "" false 1 [2] (Some 0) None None);
        (2, mkCostItem "Beton" "" "02.01.01" "" "" false 2 [] (Some 1) None None);
        (3, mkCostItem "Fundering" "" "02.01" "" "" false 3 [4] None None None);
        (4, mkCostItem "Beton" "" "02.01.01" "" "" false 4 [] (Some 3) None None)])
    (list_to_map
       [(0, CostValue.default);
        (1, CostValue.default);
        (2, mkCostValue (95 # 1) (10 # 1) VOLUME "" "" None None);
        (3, CostValue.default);
        (4, mkCostValue (95 # 1) (10 # 1) VOLUME "" "" None None)])
    ∅.

(** After [parent.add_child(copy)]. *)
Definition pasted_chapter_heap : Heap :=
  mkHeap
    (list_to_map
       [(0, mkCostItem "Ruwbouw" "" "02" "" "" false 0 [1; 3] None None None);
        (1, mkCostItem "Fundering" "" "02.01" "" "" false 1 [2] (Some 0) None None);
        (2, mkCostItem "Beton" "" "02.01.01" "" "" false 2 [] (Some 1) None None);
        (3, mkCostItem "Fundering" "" "02.01" "" "" false 3 [4] (Some 0) None None);
        (4, mkCostItem "Beton" "" "02.01.01" "" "" false 4 [] (Some 3) None None)])
    (cost_values copied_chapter_heap)
    ∅.

(** The parent 0 with two children that carry the same data: two text rows
    as [CostItem(name="Tekstregel", identification="", is_text_only=True)]
    makes them. *)
Definition twins_heap : Heap :=
  mkHeap
    (list_to_map
       [(0, mkCostItem "Ruwbouw" "" "02" "" "" false 0 [1; 2] None None None);
        (1, mkCostItem "Tekstregel" "" "" "" "" true 1 [] (Some 0) None None);
        (2, mkCostItem "Tekstregel" "" "" "" "" true 2 [] (Some 0) None None)])
    (list_to_map
       [(0, CostValue.default); (1, CostValue.default); (2, CostValue.default)])
    ∅.

(** After [move_down] on the last child: the first child is gone and the
    last child is listed twice. *)
Definition twins_after_move_down : Heap :=
  mkHeap
    (list_to_map
       [(0, mkCostItem "Ruwbouw" "" "02" "" "" false 0 [2; 2] None None None);
        (1, mkCostItem "Tekstregel" "" "" "" "" true 1 [] (Some 0) None None);
        (2, mkCostItem "Tekstregel" "" "" "" "" true 2 [] (Some 0) None None)])
    (cost_values twins_heap)
    ∅.

(** ** Predicates used in the further properties *)

(** The item at [a] carries the identification [code]. *)
Definition ident_is (h : Heap) (code : string) (a : addr) : bool :=
  match cost_items h !! a with
  | Some it => String.eqb (identification it) code
  | None => false
  end.

(** The item at [a] exists and refers to the schedule [s]. *)
Definition scheduled_in (h : Heap) (s : addr) (a : addr) : Prop :=
  exists it, cost_items h !! a = Some it /\ schedule it = Some s.

(** [h'] differs from [h] at most in [schedule] fields, each either kept
    or set to [s]. *)
Definition sched_only (s : addr) (h h' : Heap) : Prop :=
  (forall a it, cost_items h !! a = Some it ->
     exists it', cost_items h' !! a = Some it'
                 /\ core it' = core it /\ parent it' = parent it
                 /\ (schedule it' = schedule it \/ schedule it' = Some s))
  /\ (forall a, cost_items h !! a = None -> cost_items h' !! a = None)
  /\ cost_values h' = cost_values h
  /\ schedules h' = schedules h.


(** The tree of [detached_chapter_heap]: the chapter with its one leaf. *)
Definition detached_chapter_tree : CostTree :=
  Node (mkItemData "Grondwerk" "" "01" "" "" false 0 0 COUNT)
    [Node (mkItemData "Ontgraven" "" "01.01" "" "" false (25 # 2) (85 # 1) VOLUME) []].

(** The trees of [copied_chapter_heap]: the chapter "Fundering" with its
    leaf, which both item 1 and its copy, item 3, stand for, and the data of
    the parent, item 0. *)
Definition fundering_tree : CostTree :=
  Node (mkItemData "Fundering" "" "02.01" "" "" false 0 0 COUNT)
    [Node (mkItemData "Beton" "" "02.01.01" "" "" false (95 # 1) (10 # 1) VOLUME) []].

Definition ruwbouw_data : ItemData :=
  mkItemData "Ruwbouw" "" "02" "" "" false 0 0 COUNT.

(** The items at [e] and [x] exist and differ in [name]. *)
Definition differs_by_name (h : Heap) (x e : addr) : Prop :=
  exists ie ix,
    cost_items h !! e = Some ie /\ cost_items h !! x = Some ix
    /\ name ie <> name ix.

(** [e] is another object than [x], and it does not compare equal to [x]
    because the names differ. *)
Definition other_than (h : Heap) (x e : addr) : Prop :=
  e <> x /\ differs_by_name h x e.

(** Scenario C of the specification: a chapter with three leaves worth 100,
    200 and 300; next to it the detached item 4. *)
Definition three_leaves_heap : Heap :=
  mkHeap
    (list_to_map
       [(0, mkCostItem "Ruwbouw" "" "02" "" "" false 0 [1; 2; 3] None None None);
        (1, mkCostItem "Fundering" "" "02.01" "" "" false 1 [] (Some 0) None None);
        (2, mkCostItem "Vloeren" "" "02.02" "" "" false 2 [] (Some 0) None None);
        (3, mkCostItem "Daken" "" "02.03" "" "" false 3 [] (Some 0) None None);
        (4, mkCostItem "Gevel" "" "02.04" "" "" false 4 [] None None None)])
    (list_to_map
       [(0, CostValue.default);
        (1, mkCostValue (100 # 1) (1 # 1) COUNT "" "" None None);
        (2, mkCostValue (200 # 1) (1 # 1) COUNT "" "" None None);
        (3, mkCostValue (300 # 1) (1 # 1) COUNT "" "" None None);
        (4, mkCostValue (50 # 1) (1 # 1) COUNT "" "" None None)])
    ∅.


(** A schedule with the two root chapters 0 and 1, and the detached
    item 2. *)
Definition two_roots_heap : Heap :=
  mkHeap
    (list_to_map
       [(0, mkCostItem "Grondwerk" "" "01" "" "" false 0 [] None (Some 0) None);
        (1, mkCostItem "Fundering" "" "02" "" "" false 1 [] None (Some 0) None);
        (2, mkCostItem "Daken" "" "" "" "" false 2 [] None None None)])
    (list_to_map
       [(0, mkCostValue (40 # 1) (2 # 1) COUNT "" "" None None);
        (1, mkCostValue (95 # 1) (10 # 1) VOLUME "" "" None None);
        (2, CostValue.default)])
    (list_to_map
       [(0, mkCostSchedule "Begroting" "" BUDGET DRAFT (Some 0) None None [0; 1]
              (21 # 1) None)]).

Definition two_roots_trees : list CostTree :=
  [Node (mkItemData "Grondwerk" "" "01" "" "" false (40 # 1) (2 # 1) COUNT) [];
   Node (mkItemData "Fundering" "" "02" "" "" false (95 # 1) (10 # 1) VOLUME) []].

(** What [_escape_html] should do to one character, and to a text
    character by character. *)
Definition escape_char (c : Ascii.ascii) : string :=
  if Ascii.eqb c "&" then "&amp;"
  else if Ascii.eqb c "<" then "&lt;"
  else if Ascii.eqb c ">" then "&gt;"
  else if Ascii.eqb c PrintService.dquote then "&quot;"
  else String c EmptyString.

Fixpoint escape_chars (s : string) : string :=
  match s with
  | EmptyString => EmptyString
  | String c rest => escape_char c +:+ escape_chars rest
  end.

(** Reading an escaped text back; used to show that escaping loses
    nothing. *)
Fixpoint unescape (s : string) : string :=
  match s with
  | String "&" (String "a" (String "m" (String "p" (String ";" r)))) =>
      String "&" (unescape r)
  | String "&" (String "l" (String "t" (String ";" r))) =>
      String "<" (unescape r)
  | String "&" (String "g" (String "t" (String ";" r))) =>
      String ">" (unescape r)
  | String "&" (String "q" (String "u" (String "o" (String "t" (String ";" r))))) =>
      String PrintService.dquote (unescape r)
  | String c r => String c (unescape r)
  | EmptyString => EmptyString
  end.

(** The characters of a text. *)
Definition chars (s : string) : list Ascii.ascii := String.list_ascii_of_string s.

(** Two chapters side by side: "Ruwbouw" with the leaf 2, and "Fundering"
    with the leaf 4. *)
Definition relisted_heap : Heap :=
  mkHeap
    (list_to_map
       [(0, mkCostItem "Ruwbouw" "" "02" "" "" false 0 [2] None None None);
        (1, mkCostItem "Fundering" "" "02.01" "" "" false 1 [4] None None None);
        (2, mkCostItem "Metselwerk" "" "02.02" "" "" false 2 [] (Some 0) None None);
        (4, mkCostItem "Beton" "" "02.01.01" "" "" false 4 [] (Some 1) None None)])
    (list_to_map
       [(0, CostValue.default); (1, CostValue.default);
        (2, mkCostValue (40 # 1) (5 # 1) AREA "" "" None None);
        (4, mkCostValue (95 # 1) (10 # 1) VOLUME "" "" None None)])
    ∅.

(** The items below [x] form a tree of height at most [n], and each of
    them has its cost value in the store. *)
Fixpoint finite_tree (n : nat) (h : Binary64.Heap) (x : addr) : Prop :=
  match n with
  | 0 => False
  | S m =>
      exists (it : CostItem) (cv : Binary64.CostValue),
        Binary64.cost_items h !! x = Some it
        /\ Binary64.cost_values h !! cost_value it = Some cv
        /\ Forall (finite_tree m h) (children it)
  end.

(** The statement of C2 about [vat_amount] at a schedule whose rate is not
    negative: the property returns a number that [==] finds equal to
    [subtotal * vat_rate / 100]. *)
Definition vat_amount_as_claimed (fuel : nat) (h : Binary64.Heap) (s : addr)
  : Prop :=
  exists (sc : Binary64.CostSchedule) (st va : float),
    Binary64.schedules h !! s = Some sc
    /\ PrimFloat.leb 0 (Binary64.vat_rate sc) = true
    /\ Binary64.CostSchedule.subtotal fuel h s = Ok st
    /\ Binary64.CostSchedule.vat_amount fuel h s = Ok va
    /\ PrimFloat.eqb va (st * Binary64.vat_rate sc / 100)%float = true.

(** A schedule at the default rate of 21 percent with one root, a leaf of
    one piece at 8.70. *)
Definition eight_seventy_heap : Binary64.Heap :=
  Binary64.mkHeap
    (list_to_map
       [(0, mkCostItem "Stelpost" "" "01" "" "" false 0 [] None (Some 0) None)])
    (list_to_map
       [(0, Binary64.mkCostValue 8.7 1 COUNT "" "" None None)])
    (list_to_map
       [(0, Binary64.mkCostSchedule "Begroting" "" BUDGET DRAFT (Some 0) None None
              [0] 21 None)]).

(** Scenario A of the specification in binary64: the chapter "01" with the
    leaf "01.01" (85 m3 at 12.50) and a text-only row, at 21 percent. *)
Definition grondwerk_heap64 : Binary64.Heap :=
  Binary64.mkHeap
    (list_to_map
       [(0, mkCostItem "Grondwerk" "" "01" "" "" false 0 [1; 2] None (Some 0) None);
        (1, mkCostItem "Ontgraven" "" "01.01" "" "" false 1 [] (Some 0) (Some 0) None);
        (2, mkCostItem "Opmerking" "" "" "" "" true 2 [] (Some 0) (Some 0) None)])
    (list_to_map
       [(0, Binary64.mkCostValue 0 0 COUNT "" "" None None);
        (1, Binary64.mkCostValue 12.5 85 VOLUME "" "" None None);
        (2, Binary64.mkCostValue 5 10 COUNT "" "" None None)])
    (list_to_map
       [(0, Binary64.mkCostSchedule "Begroting" "" BUDGET DRAFT (Some 0) None None
              [0] 21 None)]).

(** * Properties *)

(** ** Outcomes and loops *)

Lemma mapM_Ok {A B : Type} (f : A -> outcome B) (l : list A) (k : list B) :
  Forall2 (fun a b => f a = Ok b) l k -> mapM f l = Ok k.
Proof.
  induction 1 as [|a b l k Hab _ IH]; simpl.
  - reflexivity.
  - rewrite Hab. simpl. rewrite IH. reflexivity.
Qed.

Lemma mapM_Ok_map {A B C : Type} (f : A -> outcome B) (g : C -> B)
    (l : list A) (k : list C) :
  Forall2 (fun a c => f a = Ok (g c)) l k -> mapM f l = Ok (map g k).
Proof.
  intros H. apply mapM_Ok. induction H; simpl; constructor; assumption.
Qed.

Lemma get_item_Ok (h : Heap) (x : addr) (it : CostItem) :
  cost_items h !! x = Some it -> get_item h x = Ok it.
Proof. intros H. unfold get_item. rewrite H. reflexivity. Qed.

Lemma get_value_Ok (h : Heap) (a : addr) (cv : CostValue) :
  cost_values h !! a = Some cv -> get_value h a = Ok cv.
Proof. intros H. unfold get_value. rewrite H. reflexivity. Qed.

Lemma get_schedule_Ok (h : Heap) (s : addr) (sc : CostSchedule) :
  schedules h !! s = Some sc -> get_schedule h s = Ok sc.
Proof. intros H. unfold get_schedule. rewrite H. reflexivity. Qed.

Lemma height_pos (t : CostTree) : 1 <= height t.
Proof. destruct t; simpl; lia. Qed.

Lemma height_kid (d : ItemData) (kids : list CostTree) (k : CostTree) :
  k ∈ kids -> S (height k) <= height (Node d kids).
Proof.
  intros Hk. simpl. apply le_n_S.
  apply max_list_elem_of_le, list_elem_of_fmap. exists k. split; [reflexivity | exact Hk].
Qed.

(** Heights of the kids of a node, as a [Forall]. *)
Lemma Forall_height_kids (d : ItemData) (kids : list CostTree) (n : nat) :
  height (Node d kids) <= S n -> Forall (fun k => height k <= n) kids.
Proof.
  intros Hh. apply Forall_forall. intros k Hk.
  pose proof (height_kid d kids k Hk). lia.
Qed.

(** ** Subtotals *)

Lemma subtotal_unfold (f : nat) (h : Heap) (x : addr) (it : CostItem) :
  cost_items h !! x = Some it ->
  CostItem.subtotal (S f) h x =
    if is_text_only it then Ok 0%Q
    else if CostItem.is_leaf it then
      cv ← get_value h (cost_value it); Ok (CostValue.total cv)
    else vs ← mapM (CostItem.subtotal f h) (children it); Ok (py_sum vs).
Proof. intros H. simpl. rewrite (get_item_Ok _ _ _ H). reflexivity. Qed.

(** The subtotals of the children of a represented node. *)
Lemma subtotal_kids (f : nat) (h : Heap) (l : list addr) (kids : list CostTree) :
  (forall x t, repr h x t -> height t <= f ->
               CostItem.subtotal f h x = Ok (spec_subtotal t)) ->
  Forall2 (repr h) l kids ->
  Forall (fun k => height k <= f) kids ->
  Forall2 (fun c k => CostItem.subtotal f h c = Ok (spec_subtotal k)) l kids.
Proof.
  intros IH HF. induction HF as [|c k l kids Hck _ IHl]; intros Hh.
  - constructor.
  - inversion Hh; subst. constructor; [apply IH; assumption | apply IHl; assumption].
Qed.

Lemma subtotal_repr (fuel : nat) (h : Heap) (x : addr) (t : CostTree) :
  repr h x t -> height t <= fuel ->
  CostItem.subtotal fuel h x = Ok (spec_subtotal t).
Proof.
  revert x t. induction fuel as [|f IH]; intros x t Hr Hh.
  - pose proof (height_pos t). lia.
  - destruct Hr as [x it cv kids Hit Hcv Hkids].
    rewrite (subtotal_unfold _ _ _ _ Hit).
    cbn [spec_subtotal data_of d_is_text_only d_quantity d_unit_price].
    destruct (is_text_only it); [reflexivity |].
    unfold CostItem.is_leaf.
    destruct Hkids as [|c k l kids' Hck Hrest].
    + cbn [length Nat.eqb]. rewrite (get_value_Ok _ _ _ Hcv). reflexivity.
    + assert (HF : Forall2 (fun c k => CostItem.subtotal f h c = Ok (spec_subtotal k))
                     (c :: l) (k :: kids')).
      { apply subtotal_kids; [exact IH | constructor; assumption |].
        eapply Forall_height_kids; exact Hh. }
      cbn [length Nat.eqb]. rewrite (mapM_Ok_map _ _ _ _ HF). reflexivity.
Qed.

Lemma repr_intro (h : Heap) (x : addr) (it : CostItem) (cv : CostValue)
    (d : ItemData) (kids : list CostTree) :
  cost_items h !! x = Some it ->
  cost_values h !! cost_value it = Some cv ->
  d = data_of it cv ->
  Forall2 (repr h) (children it) kids ->
  repr h x (Node d kids).
Proof. intros Hit Hcv -> Hk. econstructor; eassumption. Qed.

Lemma grondwerk_repr : repr grondwerk_heap 0 grondwerk_tree.
Proof.
  eapply repr_intro; [reflexivity | reflexivity | reflexivity |].
  repeat constructor;
    (eapply repr_intro; [reflexivity | reflexivity | reflexivity | constructor]).
Qed.

(** C1.  For every item that stands for a tree, [subtotal] returns the value
    of the aggregation rule: 0 when [is_text_only], quantity times unit
    price for a leaf, the sum of the children's subtotals in child order
    otherwise; [total] returns the same. *)
Theorem subtotal_aggregation_rule (fuel : nat) (h : Heap) (x : addr) (t : CostTree) :
  repr h x t -> height t <= fuel ->
  CostItem.subtotal fuel h x = Ok (spec_subtotal t)
  /\ CostItem.total fuel h x = CostItem.subtotal fuel h x.
Proof.
  intros Hr Hh. split; [apply subtotal_repr; assumption | reflexivity].
Qed.

Lemma subtotal_aggregation_rule_witness :
  repr grondwerk_heap 0 grondwerk_tree /\ height grondwerk_tree <= 2
  /\ CostItem.subtotal 2 grondwerk_heap 0 = Ok (spec_subtotal grondwerk_tree)
  /\ CostItem.total 2 grondwerk_heap 0 = CostItem.subtotal 2 grondwerk_heap 0.
Proof.
  split; [exact grondwerk_repr |].
  split; [simpl; lia |].
  apply (subtotal_aggregation_rule 2 grondwerk_heap 0 grondwerk_tree);
    [exact grondwerk_repr | simpl; lia].
Defined.

(** The three cases of the rule, read off [spec_subtotal]. *)
Lemma spec_subtotal_text_only (d : ItemData) (kids : list CostTree) :
  d_is_text_only d = true -> spec_subtotal (Node d kids) = 0%Q.
Proof. intros H. simpl. rewrite H. reflexivity. Qed.


Lemma spec_subtotal_chapter (d : ItemData) (kids : list CostTree) :
  d_is_text_only d = false -> kids <> [] ->
  spec_subtotal (Node d kids) = py_sum (map spec_subtotal kids).
Proof.
  intros H Hk. simpl. rewrite H. destruct kids; [contradiction | reflexivity].
Qed.

Example grondwerk_subtotal :
  CostItem.subtotal 2 grondwerk_heap 0 = Ok (2125 # 2)%Q.
Proof. reflexivity. Qed.

(** ** Chapters *)

Example text_chapter_built :
  let '(p, h1) := CostItem.new empty_heap "Toelichting" "02" true CostValue.default in
  let '(c, h2) := CostItem.new h1 "Stelpost" "02.01" false
                    (mkCostValue (3 # 1) (2 # 1) COUNT "" "" None None) in
  CostItem.add_child h2 p c = Ok (1, text_chapter_heap).
Proof. vm_compute. reflexivity. Qed.

(** C7, counterexample.  The text-only item 0 has the child 1 with subtotal
    6, and its own subtotal is 0 whatever the fuel. *)
Lemma text_only_chapter_not_sum :
  ~ exists fuel, chapter_sums_children fuel text_chapter_heap 0.
Proof.
  intros [fuel (it & vs & v & Hit & _ & Hm & Hs & Heq)].
  assert (it = mkCostItem "Toelichting" "" "02" "" "" true 0 [1] None None None)
    as -> by (vm_compute in Hit; congruence).
  destruct fuel as [|f]; [discriminate Hs |].
  rewrite (subtotal_unfold f text_chapter_heap 0 _ eq_refl) in Hs.
  cbn [is_text_only] in Hs. injection Hs as <-.
  cbn [children mapM] in Hm.
  rewrite (subtotal_unfold f text_chapter_heap 1
             (mkCostItem "Stelpost" "" "02.01" "" "" false 1 [] (Some 0) None None)
             eq_refl) in Hm.
  vm_compute in Hm. injection Hm as <-.
  vm_compute in Heq. discriminate Heq.
Qed.

(** C7, amended.  For an item with at least one child whose [is_text_only]
    is false, [subtotal] is the sum of the subtotals of its children; the
    item's own [CostValue] does not enter the result. *)
Theorem chapter_subtotal_sum (fuel : nat) (h : Heap) (x : addr)
    (d : ItemData) (kids : list CostTree) :
  repr h x (Node d kids) -> kids <> [] -> d_is_text_only d = false ->
  height (Node d kids) <= fuel ->
  chapter_sums_children fuel h x
  /\ CostItem.subtotal fuel h x = Ok (py_sum (map spec_subtotal kids)).
Proof.
  intros Hr Hk Ht Hh.
  pose proof (subtotal_repr fuel h x _ Hr Hh) as Hs.
  rewrite (spec_subtotal_chapter d kids Ht Hk) in Hs.
  split; [| exact Hs].
  inversion Hr as [x' it cv kids' Hit Hcv Hkids Hx Hd]; subst.
  exists it, (map spec_subtotal kids), (py_sum (map spec_subtotal kids)).
  split; [exact Hit |].
  split; [intros Hnil; rewrite Hnil in Hkids; inversion Hkids; subst; contradiction |].
  split; [| split; [exact Hs | reflexivity]].
  apply mapM_Ok_map.
  destruct fuel as [|f]; [simpl in Hh; lia |].
  pose proof (Forall_height_kids _ _ _ Hh) as Hhk.
  clear - Hkids Hhk. induction Hkids as [|c k l ks Hck _ IH]; [constructor |].
  inversion Hhk; subst. constructor; [| apply IH; assumption].
  apply subtotal_repr; [assumption | lia].
Qed.

Lemma chapter_subtotal_sum_witness :
  repr grondwerk_heap 0 grondwerk_tree
  /\ node_kids grondwerk_tree <> []
  /\ d_is_text_only (node_data grondwerk_tree) = false
  /\ height grondwerk_tree <= 2
  /\ chapter_sums_children 2 grondwerk_heap 0
  /\ CostItem.subtotal 2 grondwerk_heap 0
     = Ok (py_sum (map spec_subtotal (node_kids grondwerk_tree))).
Proof.
  split; [exact grondwerk_repr |].
  split; [discriminate |].
  split; [reflexivity |].
  split; [simpl; lia |].
  apply (chapter_subtotal_sum 2 grondwerk_heap 0
           (node_data grondwerk_tree) (node_kids grondwerk_tree));
    [exact grondwerk_repr | discriminate | reflexivity | simpl; lia].
Defined.

(** ** Schedule totals *)

Lemma subtotal_forest (fuel : nat) (h : Heap) (l : list addr) (ts : list CostTree) :
  Forall2 (repr h) l ts ->
  Forall (fun t => height t <= fuel) ts ->
  mapM (CostItem.subtotal fuel h) l = Ok (map spec_subtotal ts).
Proof.
  intros Hr Hh. apply mapM_Ok_map.
  induction Hr as [|x t l ts Hxt _ IH]; [constructor |].
  inversion Hh; subst.
  constructor; [apply subtotal_repr; assumption | apply IH; assumption].
Qed.

Lemma finite_tree_mono (n m : nat) (h : Binary64.Heap) (x : addr) :
  finite_tree n h x -> n <= m -> finite_tree m h x.
Proof.
  revert m x. induction n as [|n IH]; intros m x Hf Hle; [destruct Hf |].
  destruct m as [|m]; [lia |].
  destruct Hf as (it & cv & Hit & Hcv & Hk).
  exists it, cv. split; [exact Hit |]. split; [exact Hcv |].
  eapply Forall_impl; [exact Hk |].
  intros c Hc. apply IH; [exact Hc | lia].
Qed.

Lemma mapM_outcome_total {A B : Type} (f : A -> outcome B) (l : list A) :
  Forall (fun a => exists b, f a = Ok b) l -> exists bs, mapM f l = Ok bs.
Proof.
  induction 1 as [|a l [b Hb] _ [bs Hbs]]; [exists []; reflexivity |].
  exists (b :: bs). cbn [mapM]. rewrite Hb.
  fold (mapM f l). rewrite Hbs. reflexivity.
Qed.

(** On a finite tree the property returns a number. *)
Lemma subtotal64_returns (fuel : nat) (h : Binary64.Heap) (x : addr) :
  finite_tree fuel h x -> exists v, Binary64.CostItem.subtotal fuel h x = Ok v.
Proof.
  revert x. induction fuel as [|f IH]; intros x Hf; [destruct Hf |].
  destruct Hf as (it & cv & Hit & Hcv & Hk).
  cbn [Binary64.CostItem.subtotal]. unfold Binary64.get_item, Binary64.get_value.
  rewrite Hit. cbn [mbind outcome_bind].
  destruct (is_text_only it); [eexists; reflexivity |].
  destruct (CostItem.is_leaf it).
  - rewrite Hcv. eexists; reflexivity.
  - destruct (mapM_outcome_total (Binary64.CostItem.subtotal f h) (children it))
      as [vs Hvs].
    + eapply Forall_impl; [exact Hk | exact IH].
    + rewrite Hvs. eexists; reflexivity.
Qed.

(** C2, as the code computes it.  For a schedule whose root items are the
    roots of finite trees, whatever its [vat_rate]: the three properties
    return; [subtotal] is the sum of the subtotals of the root items,
    [vat_amount] is [subtotal * (vat_rate / 100)] with the rate divided by
    100 first and each operation rounded, and [total] is
    [subtotal + vat_amount]. *)
Theorem schedule_totals_binary64 (fuel n : nat) (h : Binary64.Heap) (s : addr)
    (sc : Binary64.CostSchedule) :
  Binary64.schedules h !! s = Some sc ->
  Forall (finite_tree n h) (Binary64.items sc) -> n <= fuel ->
  exists (vs : list float) (st va : float),
    mapM (Binary64.CostItem.subtotal fuel h) (Binary64.items sc) = Ok vs
    /\ st = Binary64.py_sum vs
    /\ Binary64.CostSchedule.subtotal fuel h s = Ok st
    /\ Binary64.CostSchedule.vat_amount fuel h s = Ok va
    /\ va = (st * (Binary64.vat_rate sc / 100))%float
    /\ Binary64.CostSchedule.total fuel h s = Ok (st + va)%float.
Proof.
  intros Hs Hf Hle.
  destruct (mapM_outcome_total (Binary64.CostItem.subtotal fuel h) (Binary64.items sc))
    as [vs Hvs].
  { eapply Forall_impl; [exact Hf |].
    intros x Hx. apply subtotal64_returns.
    exact (finite_tree_mono n fuel h x Hx Hle). }
  assert (Hst : Binary64.CostSchedule.subtotal fuel h s = Ok (Binary64.py_sum vs)).
  { unfold Binary64.CostSchedule.subtotal, Binary64.get_schedule.
    rewrite Hs. cbn [mbind outcome_bind]. rewrite Hvs. reflexivity. }
  assert (Hva : Binary64.CostSchedule.vat_amount fuel h s
                = Ok (Binary64.py_sum vs * (Binary64.vat_rate sc / 100))%float).
  { unfold Binary64.CostSchedule.vat_amount. rewrite Hst.
    cbn [mbind outcome_bind]. unfold Binary64.get_schedule. rewrite Hs.
    reflexivity. }
  exists vs, (Binary64.py_sum vs),
         (Binary64.py_sum vs * (Binary64.vat_rate sc / 100))%float.
  split; [exact Hvs |]. split; [reflexivity |]. split; [exact Hst |].
  split; [exact Hva |]. split; [reflexivity |].
  unfold Binary64.CostSchedule.total. rewrite Hst. cbn [mbind outcome_bind].
  rewrite Hva. reflexivity.
Qed.

Lemma grondwerk64_finite : Forall (finite_tree 2 grondwerk_heap64) [0].
Proof.
  repeat constructor. eexists _, _.
  split; [reflexivity |]. split; [reflexivity |].
  repeat constructor;
    (eexists _, _; split; [reflexivity |]; split; [reflexivity | constructor]).
Qed.

Lemma schedule_totals_binary64_witness :
  Forall (finite_tree 2 grondwerk_heap64) [0] /\ 2 <= 3
  /\ exists (vs : list float) (st va : float),
       mapM (Binary64.CostItem.subtotal 3 grondwerk_heap64) [0] = Ok vs
       /\ st = Binary64.py_sum vs
       /\ Binary64.CostSchedule.subtotal 3 grondwerk_heap64 0 = Ok st
       /\ Binary64.CostSchedule.vat_amount 3 grondwerk_heap64 0 = Ok va
       /\ va = (st * (21 / 100))%float
       /\ Binary64.CostSchedule.total 3 grondwerk_heap64 0 = Ok (st + va)%float.
Proof.
  split; [exact grondwerk64_finite |]. split; [lia |].
  exact (schedule_totals_binary64 3 2 grondwerk_heap64 0 _ eq_refl
           grondwerk64_finite ltac:(lia)).
Defined.

(** The figures of the schedule with the one leaf at 8.70: the subtotal is
    8.7, the rate divided by 100 is the binary64 number next to 0.21, and
    the product rounds to 1.8269999999999997, while 8.7 * 21 is 182.7 and
    divided by 100 gives 1.827. *)
Example eight_seventy_figures :
  Binary64.CostSchedule.subtotal 1 eight_seventy_heap 0 = Ok 8.7%float
  /\ Binary64.CostSchedule.vat_amount 1 eight_seventy_heap 0
     = Ok 1.8269999999999997%float
  /\ (8.7 * 21 / 100 = 1.827)%float
  /\ PrimFloat.eqb 1.8269999999999997 1.827 = false.
Proof. repeat split; vm_compute; reflexivity. Qed.

(** C2, counterexample.  At 21 percent and a subtotal of 8.7 the property
    [vat_amount] returns 1.8269999999999997, and [subtotal * vat_rate / 100]
    is 1.827: [==] finds them different, whatever the fuel. *)
Lemma vat_amount_rounds_rate_first :
  ~ exists fuel, vat_amount_as_claimed fuel eight_seventy_heap 0.
Proof.
  intros [fuel (sc & st & va & Hsc & _ & Hst & Hva & Heq)].
  assert (sc = Binary64.mkCostSchedule "Begroting" "" BUDGET DRAFT (Some 0) None
                 None [0] 21 None) as ->
    by (vm_compute in Hsc; congruence).
  destruct fuel as [|f].
  - vm_compute in Hst. discriminate Hst.
  - assert (Hst' : Binary64.CostSchedule.subtotal (S f) eight_seventy_heap 0
                   = Ok 8.7%float) by reflexivity.
    assert (Hva' : Binary64.CostSchedule.vat_amount (S f) eight_seventy_heap 0
                   = Ok 1.8269999999999997%float).
    { unfold Binary64.CostSchedule.vat_amount. rewrite Hst'. reflexivity. }
    rewrite Hst' in Hst. rewrite Hva' in Hva.
    injection Hst as <-. injection Hva as <-.
    vm_compute in Heq. discriminate Heq.
Qed.

(** Scenario A in binary64: subtotal 1062.5 and, at 21 percent, total
    1285.625, both exact. *)
Example grondwerk_schedule_total64 :
  Binary64.CostSchedule.subtotal 2 grondwerk_heap64 0 = Ok 1062.5%float
  /\ Binary64.CostSchedule.vat_amount 2 grondwerk_heap64 0 = Ok 223.125%float
  /\ Binary64.CostSchedule.total 2 grondwerk_heap64 0 = Ok 1285.625%float.
Proof. repeat split; vm_compute; reflexivity. Qed.

(** The order of the terms matters to a sum of floats. *)
Example py_sum_order :
  Binary64.py_sum [0.1; 0.2; 2.2]%float = 2.5%float
  /\ Binary64.py_sum [0.1; 2.2; 0.2]%float = 2.5000000000000004%float
  /\ PrimFloat.eqb 2.5 2.5000000000000004 = false.
Proof. repeat split; vm_compute; reflexivity. Qed.

(** Scenario A with exact rationals: subtotal 1062.5 and, at 21 percent,
    total 1285.625. *)
Example grondwerk_schedule_total :
  exists st tot : Q,
    CostSchedule.subtotal 2 grondwerk_heap 0 = Ok st /\ (st == 2125 # 2)%Q
    /\ CostSchedule.total 2 grondwerk_heap 0 = Ok tot /\ (tot == 10285 # 8)%Q.
Proof. eexists _, _. repeat split; reflexivity. Qed.

(** ** Counting and flattening *)

Lemma get_all_descendants_unfold (f : nat) (h : Heap) (x : addr) (it : CostItem) :
  cost_items h !! x = Some it ->
  CostItem.get_all_descendants (S f) h x =
    for_each (fun descendants child =>
                ds ← CostItem.get_all_descendants f h child;
                Ok ((descendants ++ [child]) ++ ds))
             (children it) [].
Proof. intros H. simpl. rewrite (get_item_Ok _ _ _ H). reflexivity. Qed.

(** The two loops of [item_count] and [get_all_items] run in step: at every
    point the counter is the length of the list. *)
Lemma count_loop_length (fuel : nat) (h : Heap) (l : list addr)
    (acc : list addr) (n : nat) :
  n = length acc ->
  for_each (fun count item =>
              ds ← CostItem.get_all_descendants fuel h item;
              Ok (count + (1 + length ds))) l n
  = length <$>
    for_each (fun all_items item =>
                ds ← CostItem.get_all_descendants fuel h item;
                Ok ((all_items ++ [item]) ++ ds)) l acc.
Proof.
  revert acc n. induction l as [|x l IH]; intros acc n Hn; simpl.
  - rewrite Hn. reflexivity.
  - destruct (CostItem.get_all_descendants fuel h x) as [ds| |]; simpl;
      [| reflexivity | reflexivity].
    apply IH. rewrite !length_app. simpl. lia.
Qed.

Lemma descendants_loop (f : nat) (h : Heap) (l : list addr) (kids : list CostTree) :
  (forall x t, repr h x t -> height t <= f ->
     exists ds, CostItem.get_all_descendants f h x = Ok ds
                /\ S (length ds) = tree_size t) ->
  Forall2 (repr h) l kids ->
  Forall (fun k => height k <= f) kids ->
  forall acc : list addr,
  exists r, for_each (fun descendants child =>
                        ds ← CostItem.get_all_descendants f h child;
                        Ok ((descendants ++ [child]) ++ ds)) l acc = Ok r
            /\ length r = length acc + forest_size kids.
Proof.
  intros IH Hr. induction Hr as [|x t l kids Hxt _ IHl]; intros Hh acc.
  - exists acc. split; [reflexivity | unfold forest_size; simpl; lia].
  - inversion Hh as [|? ? Ht Hrest]; subst.
    destruct (IH x t Hxt Ht) as (ds & Hds & Hlen).
    destruct (IHl Hrest ((acc ++ [x]) ++ ds)) as (r & Hr & Hlr).
    exists r. split.
    + simpl. rewrite Hds. simpl. exact Hr.
    + rewrite Hlr, !length_app. unfold forest_size. simpl. lia.
Qed.

Lemma get_all_descendants_repr (fuel : nat) (h : Heap) (x : addr) (t : CostTree) :
  repr h x t -> height t <= fuel ->
  exists ds, CostItem.get_all_descendants fuel h x = Ok ds
             /\ S (length ds) = tree_size t.
Proof.
  revert x t. induction fuel as [|f IH]; intros x t Hr Hh.
  - pose proof (height_pos t). lia.
  - destruct Hr as [x it cv kids Hit Hcv Hkids].
    rewrite (get_all_descendants_unfold _ _ _ _ Hit).
    destruct (descendants_loop f h _ _ IH Hkids (Forall_height_kids _ _ _ Hh) [])
      as (r & Hr & Hlen).
    exists r. split; [exact Hr |]. simpl in Hlen |- *. unfold forest_size in Hlen. lia.
Qed.

(** C10.  [item_count] is the length of [get_all_items()], whatever the
    store; and for a schedule whose root items stand for the forest [ts]
    both return, the count being the number of nodes of the forest. *)
Theorem item_count_get_all_items (fuel : nat) (h : Heap) (s : addr) :
  CostSchedule.item_count fuel h s
    = length <$> CostSchedule.get_all_items fuel h s
  /\ forall (sc : CostSchedule) (ts : list CostTree),
       schedules h !! s = Some sc ->
       Forall2 (repr h) (items sc) ts ->
       Forall (fun t => height t <= fuel) ts ->
       exists l, CostSchedule.get_all_items fuel h s = Ok l
                 /\ CostSchedule.item_count fuel h s = Ok (length l)
                 /\ length l = forest_size ts.
Proof.
  assert (Heq : CostSchedule.item_count fuel h s
                = length <$> CostSchedule.get_all_items fuel h s).
  { unfold CostSchedule.item_count, CostSchedule.get_all_items.
    destruct (get_schedule h s) as [sc| |]; simpl; [| reflexivity | reflexivity].
    apply count_loop_length. reflexivity. }
  split; [exact Heq |].
  intros sc ts Hs Hr Hh.
  assert (Hl : exists l, CostSchedule.get_all_items fuel h s = Ok l
                         /\ length l = forest_size ts).
  { unfold CostSchedule.get_all_items. rewrite (get_schedule_Ok _ _ _ Hs). simpl.
    destruct (descendants_loop fuel h _ _
                (fun x t => get_all_descendants_repr fuel h x t) Hr Hh [])
      as (r & Hr' & Hlen).
    exists r. split; [exact Hr' | exact Hlen]. }
  destruct Hl as (l & Hl & Hlen). exists l.
  split; [exact Hl |]. split; [| exact Hlen].
  rewrite Heq, Hl. reflexivity.
Qed.

Lemma item_count_get_all_items_witness :
  Forall2 (repr grondwerk_heap) [0] [grondwerk_tree]
  /\ Forall (fun t => height t <= 2) [grondwerk_tree]
  /\ exists l, CostSchedule.get_all_items 2 grondwerk_heap 0 = Ok l
               /\ CostSchedule.item_count 2 grondwerk_heap 0 = Ok (length l)
               /\ length l = forest_size [grondwerk_tree].
Proof.
  assert (Hr : Forall2 (repr grondwerk_heap) [0] [grondwerk_tree])
    by (repeat constructor; exact grondwerk_repr).
  assert (Hh : Forall (fun t => height t <= 2) [grondwerk_tree])
    by (repeat constructor; simpl; lia).
  split; [exact Hr |]. split; [exact Hh |].
  exact (proj2 (item_count_get_all_items 2 grondwerk_heap 0) _ [grondwerk_tree]
           eq_refl Hr Hh).
Defined.

Example grondwerk_item_count :
  CostSchedule.item_count 2 grondwerk_heap 0 = Ok 3
  /\ CostSchedule.get_all_items 2 grondwerk_heap 0 = Ok [0; 1; 2].
Proof. split; reflexivity. Qed.

(** ** Paths and full identification *)

Lemma get_path_loop_path (h : Heap) (p : addr) (l : list addr) :
  path_to h p l ->
  forall (fuel : nat) (acc : list addr),
    length l <= fuel ->
    CostItem.get_path_loop fuel h (Some p) acc = Ok (l ++ acc).
Proof.
  induction 1 as [x it Hit Hp | x p it l Hit Hp _ IH]; intros fuel acc Hlen.
  - destruct fuel as [|f]; [simpl in Hlen; lia |].
    simpl. rewrite (get_item_Ok _ _ _ Hit). simpl. rewrite Hp.
    destruct f; reflexivity.
  - rewrite length_app in Hlen. simpl in Hlen.
    destruct fuel as [|f]; [lia |].
    simpl. rewrite (get_item_Ok _ _ _ Hit). simpl. rewrite Hp.
    rewrite IH by lia. rewrite <- app_assoc. reflexivity.
Qed.

Lemma get_path_path (fuel : nat) (h : Heap) (x : addr) (l : list addr) :
  path_to h x l -> length l <= S fuel -> CostItem.get_path fuel h x = Ok l.
Proof.
  intros Hp Hlen. unfold CostItem.get_path.
  inversion Hp as [x' it Hit Hpar | x' p it l' Hit Hpar Hrest]; subst.
  - rewrite (get_item_Ok _ _ _ Hit). simpl. rewrite Hpar.
    destruct fuel; reflexivity.
  - rewrite (get_item_Ok _ _ _ Hit). simpl. rewrite Hpar.
    rewrite length_app in Hlen. simpl in Hlen.
    apply get_path_loop_path; [exact Hrest | lia].
Qed.

Lemma path_to_items (h : Heap) (x : addr) (l : list addr) :
  path_to h x l ->
  exists its, Forall2 (fun a it => cost_items h !! a = Some it) l its.
Proof.
  induction 1 as [x it Hit _ | x p it l Hit _ _ [its IH]].
  - exists [it]. repeat constructor. exact Hit.
  - exists (its ++ [it]). apply Forall2_app; [exact IH |].
    repeat constructor. exact Hit.
Qed.

Lemma identification_loop (h : Heap) (l : list addr) (its : list CostItem) :
  Forall2 (fun a it => cost_items h !! a = Some it) l its ->
  forall acc : list string,
    for_each (fun parts item =>
                it ← get_item h item;
                if str_truthy (identification it)
                then Ok (parts ++ [identification it])
                else Ok parts) l acc
    = Ok (acc ++ List.filter str_truthy (map identification its)).
Proof.
  induction 1 as [|a it l its Hit _ IH]; intros acc; simpl.
  - rewrite app_nil_r. reflexivity.
  - rewrite (get_item_Ok _ _ _ Hit). simpl.
    destruct (str_truthy (identification it)); simpl.
    + rewrite IH, <- app_assoc. reflexivity.
    + apply IH.
Qed.

(** C8.  With [l] the path from the root to the item and [its] the items
    on it, [get_full_identification(separator)] returns the non-empty
    [identification] values of [its], in that order, joined with the
    separator; nothing is removed where codes overlap. *)
Theorem get_full_identification_path (fuel : nat) (h : Heap) (x : addr)
    (l : list addr) (separator : string) :
  path_to h x l -> length l <= S fuel ->
  exists its : list CostItem,
    Forall2 (fun a it => cost_items h !! a = Some it) l its
    /\ CostItem.get_path fuel h x = Ok l
    /\ CostItem.get_full_identification fuel h x separator
       = Ok (join separator (List.filter str_truthy (map identification its))).
Proof.
  intros Hp Hlen.
  destruct (path_to_items _ _ _ Hp) as [its Hits].
  exists its. split; [exact Hits |].
  pose proof (get_path_path fuel h x l Hp Hlen) as Hg.
  split; [exact Hg |].
  unfold CostItem.get_full_identification. rewrite Hg. simpl.
  rewrite (identification_loop _ _ _ Hits). reflexivity.
Qed.

Lemma codes_path : path_to codes_heap 1 [0; 1].
Proof.
  apply (path_step codes_heap 1 0 _ [0] eq_refl eq_refl).
  apply (path_root codes_heap 0 _ eq_refl eq_refl).
Qed.

Lemma get_full_identification_path_witness :
  path_to codes_heap 1 [0; 1] /\ length [0; 1] <= 2
  /\ CostItem.get_full_identification 1 codes_heap 1 CostItem.default_separator
     = Ok "01.01.05"%string.
Proof.
  split; [exact codes_path |]. split; [simpl; lia |].
  destruct (get_full_identification_path 1 codes_heap 1 [0; 1]
              CostItem.default_separator codes_path ltac:(simpl; lia))
    as (its & Hits & _ & Hg).
  rewrite Hg.
  inversion Hits as [|a0 it0 l0 its0 H0 Hrest]; subst.
  inversion Hrest as [|a1 it1 l1 its1 H1 Hnil]; subst.
  inversion Hnil; subst.
  vm_compute in H0. vm_compute in H1.
  injection H0 as <-. injection H1 as <-. reflexivity.
Defined.

(** ** Adding a cost item through the IFC interface *)

Section CostAPI_properties.

Variable ifc_file : Type.
Variable entity : Type.
Variable api_add_cost_item :
  ifc_file -> option entity -> option entity -> entity * ifc_file.
Variable set_Name : ifc_file -> entity -> string -> ifc_file.
Variable set_Identification : ifc_file -> entity -> string -> ifc_file.

(** C9.  [add_cost_item] raises [ValueError] exactly when both
    [cost_schedule] and [cost_item] are absent; when either is supplied it
    returns the item that the IFC interface created. *)
Theorem add_cost_item_missing_context (file : ifc_file)
    (cost_schedule cost_item : option entity) (nm ident : string) :
  add_cost_item ifc_file entity api_add_cost_item set_Name set_Identification
    file None None nm ident = Raise ValueError
  /\ (forall e : entity, exists f' : ifc_file,
        add_cost_item ifc_file entity api_add_cost_item set_Name
          set_Identification file (Some e) cost_item nm ident
        = Ok (fst (api_add_cost_item file (Some e) cost_item), f'))
  /\ (forall e : entity, exists f' : ifc_file,
        add_cost_item ifc_file entity api_add_cost_item set_Name
          set_Identification file cost_schedule (Some e) nm ident
        = Ok (fst (api_add_cost_item file cost_schedule (Some e)), f'))
  /\ (add_cost_item ifc_file entity api_add_cost_item set_Name
        set_Identification file cost_schedule cost_item nm ident
      = Raise ValueError
      <-> cost_schedule = None /\ cost_item = None).
Proof.
  split; [reflexivity |]. split; [| split].
  - intros e. unfold add_cost_item. simpl.
    destruct (api_add_cost_item file (Some e) cost_item) as [item f1].
    eexists. reflexivity.
  - intros e. unfold add_cost_item. simpl. rewrite andb_false_r.
    destruct (api_add_cost_item file cost_schedule (Some e)) as [item f1].
    eexists. reflexivity.
  - unfold add_cost_item.
    destruct cost_schedule as [cs|], cost_item as [ci|]; simpl;
      try (destruct (api_add_cost_item file _ _) as [item f1]);
      split; try discriminate; try (intros [? ?]; discriminate);
      intros _; split; reflexivity.
Qed.

End CostAPI_properties.

(** ** Back references after a mutation *)

Example detached_chapter_built :
  let '(s, h0) := alloc_schedule empty_heap (CostSchedule.default 0) in
  let '(c, h1) := CostItem.new h0 "Grondwerk" "01" false CostValue.default in
  let '(l, h2) := CostItem.new h1 "Ontgraven" "01.01" false
                    (mkCostValue (25 # 2) (85 # 1) VOLUME "" "" None None) in
  (s, c, l) = (0, 0, 1)
  /\ CostItem.add_child h2 c l = Ok (l, detached_chapter_heap).
Proof. vm_compute. split; reflexivity. Qed.

Lemma detached_chapter_consistent : backrefs_consistent detached_chapter_heap 0.
Proof.
  split.
  - intros x Hx. exfalso.
    induction Hx as [sc x Hsc Hin | p c it _ IH _ _]; [| exact IH].
    vm_compute in Hsc. injection Hsc as <-. simpl in Hin. inversion Hin.
  - intros p it c Hp Hc.
    destruct p as [|[|p]].
    + vm_compute in Hp. injection Hp as <-. simpl in Hc.
      apply list_elem_of_singleton in Hc as ->. eexists. split; reflexivity.
    + vm_compute in Hp. injection Hp as <-. simpl in Hc. inversion Hc.
    + simpl in Hp. rewrite !lookup_insert_ne, lookup_empty in Hp by lia.
      discriminate Hp.
Qed.

Lemma attached_leaf_reachable : reachable attached_chapter_heap 0 1.
Proof.
  eapply reach_child.
  - eapply reach_root; [reflexivity | simpl; left].
  - reflexivity.
  - simpl. left.
Qed.

(** C3 on the code.  The store [detached_chapter_heap] satisfies the
    invariant.  [add_item] files the chapter under the schedule and sets the
    chapter's own [schedule], and the leaf below it still has
    [schedule = None]: the invariant is lost.  [_set_schedule_recursive],
    which the constructor runs on the items it is given, does reach the
    leaf. *)
Theorem add_item_leaves_descendants :
  backrefs_consistent detached_chapter_heap 0
  /\ CostSchedule.add_item detached_chapter_heap 0 0 = Ok (0, attached_chapter_heap)
  /\ reachable attached_chapter_heap 0 1
  /\ (exists leaf, cost_items attached_chapter_heap !! 1 = Some leaf
                   /\ schedule leaf = None)
  /\ ~ backrefs_consistent attached_chapter_heap 0
  /\ exists h2 leaf',
       CostSchedule._set_schedule_recursive 2 attached_chapter_heap 0 0 = Ok h2
       /\ cost_items h2 !! 1 = Some leaf'
       /\ schedule leaf' = Some 0.
Proof.
  split; [exact detached_chapter_consistent |].
  split; [vm_compute; reflexivity |].
  split; [exact attached_leaf_reachable |].
  split; [eexists; split; reflexivity |].
  split.
  - intros [Hsched _].
    destruct (Hsched 1 attached_leaf_reachable) as (it & Hit & Hs).
    vm_compute in Hit. injection Hit as <-. discriminate Hs.
  - eexists _, _. split; [vm_compute; reflexivity |]. split; reflexivity.
Qed.

(** ** [==] between items that look alike *)

Lemma item_eq_unfold (f : nat) (h : Heap) (a b : addr) :
  item_eq (S f) h a b =
    x ← get_item h a; y ← get_item h b;
    item_fields_eq (item_eq f h) (schedule_eq f h) h x y.
Proof. reflexivity. Qed.

(** Two distinct items with the same data, each with one child, the
    children again with the same data: [e == x] compares the children,
    which compares their parents, which are [e] and [x] again. *)
Lemma lookalike_diverges (h : Heap) (e x e1 x1 : addr)
    (ie ix ie1 ix1 : CostItem) :
  cost_items h !! e = Some ie -> cost_items h !! x = Some ix ->
  cost_items h !! e1 = Some ie1 -> cost_items h !! x1 = Some ix1 ->
  e <> x -> e1 <> x1 ->
  item_scalars_eq h ie ix = Ok true -> item_scalars_eq h ie1 ix1 = Ok true ->
  children ie = [e1] -> children ix = [x1] ->
  children ie1 = [] -> children ix1 = [] ->
  parent ie1 = Some e -> parent ix1 = Some x ->
  forall fuel, item_eq fuel h e x = NoFuel.
Proof.
  intros He Hx He1 Hx1 Hne Hne1 Hs Hs1 Hce Hcx Hce1 Hcx1 Hpe1 Hpx1.
  assert (H : forall fuel,
            item_eq fuel h e x = NoFuel /\ item_eq fuel h e1 x1 = NoFuel).
  { induction fuel as [|f [IH IH1]]; [split; reflexivity |].
    split.
    - rewrite item_eq_unfold, (get_item_Ok _ _ _ He), (get_item_Ok _ _ _ Hx).
      cbn [mbind outcome_bind]. unfold item_fields_eq.
      rewrite Hs, Hce, Hcx. cbn [and_then]. unfold list_eq.
      cbn [length Nat.eqb list_rich]. unfold rich.
      destruct (decide (e1 = x1)) as [Heq|_]; [contradiction |].
      rewrite IH1. reflexivity.
    - rewrite item_eq_unfold, (get_item_Ok _ _ _ He1), (get_item_Ok _ _ _ Hx1).
      cbn [mbind outcome_bind]. unfold item_fields_eq.
      rewrite Hs1, Hce1, Hcx1, Hpe1, Hpx1. cbn [and_then]. unfold list_eq.
      cbn [length Nat.eqb list_rich and_then opt_rich]. unfold rich.
      destruct (decide (e = x)) as [Heq|_]; [contradiction |].
      rewrite IH. reflexivity. }
  intros fuel. apply H.
Qed.

(** [remove_child] does not return when the membership test [child in
    self.children] meets a first child whose comparison with [child] does
    not return. *)
Lemma remove_child_stuck (fuel : nat) (h : Heap) (p x : addr) (it : CostItem)
    (e : addr) (rest : list addr) :
  cost_items h !! p = Some it -> children it = e :: rest -> e <> x ->
  item_eq fuel h e x = NoFuel ->
  CostItem.remove_child fuel h p x = NoFuel.
Proof.
  intros Hp Hc Hne Heq. unfold CostItem.remove_child.
  rewrite (get_item_Ok _ _ _ Hp). cbn [mbind outcome_bind].
  rewrite Hc. cbn [contains]. unfold rich.
  destruct (decide (e = x)) as [Hex|_]; [contradiction |].
  rewrite Heq. reflexivity.
Qed.

Example copied_chapter_built :
  let '(p, h0) := CostItem.new empty_heap "Ruwbouw" "02" false CostValue.default in
  let '(e, h1) := CostItem.new h0 "Fundering" "02.01" false CostValue.default in
  let '(e1, h2) := CostItem.new h1 "Beton" "02.01.01" false
                     (mkCostValue (95 # 1) (10 # 1) VOLUME "" "" None None) in
  (p, e, e1) = (0, 1, 2)
  /\ (h3 ← snd <$> CostItem.add_child h2 p e;
      h4 ← snd <$> CostItem.add_child h3 e e1;
      CostItem.copy 2 h4 e) = Ok (3, copied_chapter_heap).
Proof. vm_compute. split; reflexivity. Qed.

Lemma copied_chapter_eq_diverges (fuel : nat) :
  item_eq fuel copied_chapter_heap 1 3 = NoFuel.
Proof.
  revert fuel.
  eapply (lookalike_diverges copied_chapter_heap 1 3 2 4);
    first [reflexivity | discriminate].
Qed.

Lemma pasted_chapter_eq_diverges (fuel : nat) :
  item_eq fuel pasted_chapter_heap 1 3 = NoFuel.
Proof.
  revert fuel.
  eapply (lookalike_diverges pasted_chapter_heap 1 3 2 4);
    first [reflexivity | discriminate].
Qed.

(** C4 on the code.  Item 3 is detached; [add_child] attaches it next to
    the chapter it was copied from; [remove_child] then never gets past
    [child in self.children], which compares item 1 with item 3. *)
Theorem add_then_remove_lookalike :
  (exists x, cost_items copied_chapter_heap !! 3 = Some x
             /\ parent x = None /\ schedule x = None)
  /\ CostItem.add_child copied_chapter_heap 0 3 = Ok (3, pasted_chapter_heap)
  /\ forall fuel, CostItem.remove_child fuel pasted_chapter_heap 0 3 = NoFuel.
Proof.
  split; [eexists; repeat split; reflexivity |].
  split; [vm_compute; reflexivity |].
  intros fuel.
  eapply (remove_child_stuck fuel pasted_chapter_heap 0 3 _ 1);
    [reflexivity | reflexivity | discriminate | apply pasted_chapter_eq_diverges].
Qed.

(** ** Structural operations that should be refused *)

Example twins_built :
  let '(p, h0) := CostItem.new empty_heap "Ruwbouw" "02" false CostValue.default in
  let '(a, h1) := CostItem.new h0 "Tekstregel" "" true CostValue.default in
  let '(b, h2) := CostItem.new h1 "Tekstregel" "" true CostValue.default in
  (p, a, b) = (0, 1, 2)
  /\ (h3 ← snd <$> CostItem.add_child h2 p a;
      snd <$> CostItem.add_child h3 p b) = Ok twins_heap.
Proof. vm_compute. split; reflexivity. Qed.

(** The refusals that the code does give. *)
Lemma move_up_no_parent (fuel : nat) (h : Heap) (x : addr) (it : CostItem) :
  cost_items h !! x = Some it -> parent it = None ->
  CostItem.move_up fuel h x = Ok (false, h).
Proof.
  intros Hit Hp. unfold CostItem.move_up.
  rewrite (get_item_Ok _ _ _ Hit). cbn [mbind outcome_bind]. rewrite Hp. reflexivity.
Qed.

Lemma move_down_no_parent (fuel : nat) (h : Heap) (x : addr) (it : CostItem) :
  cost_items h !! x = Some it -> parent it = None ->
  CostItem.move_down fuel h x = Ok (false, h).
Proof.
  intros Hit Hp. unfold CostItem.move_down.
  rewrite (get_item_Ok _ _ _ Hit). cbn [mbind outcome_bind]. rewrite Hp. reflexivity.
Qed.

Lemma move_up_first_child (fuel : nat) (h : Heap) (x p : addr)
    (it pit : CostItem) (rest : list addr) :
  cost_items h !! x = Some it -> parent it = Some p ->
  cost_items h !! p = Some pit -> children pit = x :: rest ->
  CostItem.move_up fuel h x = Ok (false, h).
Proof.
  intros Hit Hp Hpit Hc. unfold CostItem.move_up, CostItem.get_child_index.
  rewrite (get_item_Ok _ _ _ Hit). cbn [mbind outcome_bind]. rewrite Hp.
  rewrite (get_item_Ok _ _ _ Hpit). cbn [mbind outcome_bind]. rewrite Hc.
  cbn [index]. unfold rich. rewrite decide_True by reflexivity. reflexivity.
Qed.

(** C6 on the code.  Item 2 is the last child of item 0, and
    [move_down] returns true and rewrites the children, because [index] and
    [remove] stop at item 1, which equals item 2.  Item 3 of
    [copied_chapter_heap] is not a child of item 0, and [remove_child] does
    not return. *)
Theorem move_down_last_child_moves :
  (exists p, cost_items twins_heap !! 0 = Some p /\ last (children p) = Some 2)
  /\ (forall fuel,
        CostItem.move_down (S fuel) twins_heap 2 = Ok (true, twins_after_move_down))
  /\ (exists p, cost_items copied_chapter_heap !! 0 = Some p /\ 3 ∉ children p)
  /\ (forall fuel, CostItem.remove_child fuel copied_chapter_heap 0 3 = NoFuel).
Proof.
  split; [eexists; split; reflexivity |].
  split; [intros fuel; vm_compute; reflexivity |].
  split.
  - eexists. split; [reflexivity |]. simpl. intros H.
    apply list_elem_of_singleton in H. discriminate H.
  - intros fuel.
    eapply (remove_child_stuck fuel copied_chapter_heap 0 3 _ 1);
      [reflexivity | reflexivity | discriminate | apply copied_chapter_eq_diverges].
Qed.

(** ** Copies *)

Lemma repr_in_ind' (I V : addr -> Prop) (h : Heap) (P : addr -> CostTree -> Prop) :
  (forall x it cv kids,
      I x -> V (cost_value it) ->
      cost_items h !! x = Some it ->
      cost_values h !! cost_value it = Some cv ->
      Forall2 (repr_in I V h) (children it) kids ->
      Forall2 P (children it) kids ->
      P x (Node (data_of it cv) kids)) ->
  forall x t, repr_in I V h x t -> P x t.
Proof.
  intros H. fix IH 3. intros x t Hr.
  destruct Hr as [x it cv kids HI HV Hit Hcv Hkids].
  apply H; try assumption.
  revert Hkids. generalize (children it) kids.
  fix IHl 3. intros l ks [|c k l' ks' Hck Hrest]; constructor.
  - apply IH, Hck.
  - apply IHl, Hrest.
Qed.

Lemma repr_ind' (h : Heap) (P : addr -> CostTree -> Prop) :
  (forall x it cv kids,
      cost_items h !! x = Some it ->
      cost_values h !! cost_value it = Some cv ->
      Forall2 (repr h) (children it) kids ->
      Forall2 P (children it) kids ->
      P x (Node (data_of it cv) kids)) ->
  forall x t, repr h x t -> P x t.
Proof.
  intros H. fix IH 3. intros x t Hr.
  destruct Hr as [x it cv kids Hit Hcv Hkids].
  apply H; try assumption.
  revert Hkids. generalize (children it) kids.
  fix IHl 3. intros l ks [|c k l' ks' Hck Hrest]; constructor.
  - apply IH, Hck.
  - apply IHl, Hrest.
Qed.

Lemma repr_in_repr (I V : addr -> Prop) (h : Heap) (x : addr) (t : CostTree) :
  repr_in I V h x t -> repr h x t.
Proof.
  induction 1 as [x it cv kids _ _ Hit Hcv _ IH] using repr_in_ind'.
  econstructor; eassumption.
Qed.

Lemma repr_repr_in (h : Heap) (x : addr) (t : CostTree) :
  repr h x t ->
  repr_in (fun a => is_Some (cost_items h !! a))
          (fun v => is_Some (cost_values h !! v)) h x t.
Proof.
  induction 1 as [x it cv kids Hit Hcv _ IH] using repr_ind'.
  econstructor; eauto.
Qed.

Lemma repr_in_mono (I V I' V' : addr -> Prop) (h : Heap) (x : addr) (t : CostTree) :
  (forall a, I a -> I' a) -> (forall v, V v -> V' v) ->
  repr_in I V h x t -> repr_in I' V' h x t.
Proof.
  intros HI HV.
  induction 1 as [x it cv kids Hx Hv Hit Hcv _ IH] using repr_in_ind'.
  econstructor; eauto.
Qed.

Lemma core_fields (it it' : CostItem) :
  core it' = core it ->
  children it' = children it /\ cost_value it' = cost_value it
  /\ forall cv, data_of it' cv = data_of it cv.
Proof.
  destruct it, it'. unfold core, with_parent, with_schedule, data_of. simpl.
  intros H. injection H as -> -> -> -> -> -> -> -> ->. repeat split.
Qed.

(** Frame: a tree stays represented in a store that keeps its items up to
    their back references, and keeps its cost values. *)
Lemma repr_in_frame (I V : addr -> Prop) (h h2 : Heap) (x : addr) (t : CostTree) :
  (forall a it, I a -> cost_items h !! a = Some it ->
     exists it', cost_items h2 !! a = Some it' /\ core it' = core it) ->
  (forall v cv, V v -> cost_values h !! v = Some cv ->
     cost_values h2 !! v = Some cv) ->
  repr_in I V h x t -> repr_in I V h2 x t.
Proof.
  intros HI HV.
  induction 1 as [x it cv kids Hx Hv Hit Hcv _ IH] using repr_in_ind'.
  destruct (HI x it Hx Hit) as (it' & Hit' & Hcore).
  destruct (core_fields _ _ Hcore) as (Hch & Hcval & Hdata).
  rewrite <- (Hdata cv).
  econstructor; [exact Hx | rewrite Hcval; exact Hv | exact Hit' | | ].
  - rewrite Hcval. apply HV; assumption.
  - rewrite Hch. exact IH.
Qed.

Lemma extends_refl (h : Heap) : extends h h.
Proof. repeat split; auto. Qed.

Lemma extends_trans (h1 h2 h3 : Heap) :
  extends h1 h2 -> extends h2 h3 -> extends h1 h3.
Proof.
  intros (Hi & Hv & Hs) (Hi' & Hv' & Hs'). repeat split; eauto. congruence.
Qed.

Lemma repr_extends (h h' : Heap) (x : addr) (t : CostTree) :
  extends h h' -> repr h x t -> repr h' x t.
Proof.
  intros (Hi & Hv & _) Hr.
  apply repr_repr_in in Hr.
  eapply repr_in_repr, repr_in_frame; [| | exact Hr].
  - intros a it _ Hit. exists it. split; [apply Hi; exact Hit | reflexivity].
  - intros v cv _ Hcv. apply Hv; exact Hcv.
Qed.

Lemma get_put_item_eq (h : Heap) (a : addr) (it : CostItem) :
  get_item (put_item h a it) a = Ok it.
Proof. unfold get_item, put_item. simpl. rewrite lookup_insert_eq. reflexivity. Qed.

Lemma get_put_item_ne (h : Heap) (a b : addr) (it : CostItem) :
  a <> b -> get_item (put_item h a it) b = get_item h b.
Proof.
  intros Hne. unfold get_item, put_item. simpl.
  rewrite lookup_insert_ne by exact Hne. reflexivity.
Qed.

Lemma fresh_item_new (h : Heap) : new_item_in h (fresh (dom (cost_items h))).
Proof. apply not_elem_of_dom, is_fresh. Qed.

Lemma fresh_value_new (h : Heap) : new_value_in h (fresh (dom (cost_values h))).
Proof. apply not_elem_of_dom, is_fresh. Qed.

(** [add_child] on two distinct objects of the store. *)
Lemma add_child_spec (h : Heap) (self child : addr) (s c : CostItem) :
  cost_items h !! self = Some s -> cost_items h !! child = Some c ->
  self <> child ->
  exists h',
    CostItem.add_child h self child = Ok (child, h')
    /\ cost_items h' !! self = Some (with_children s (children s ++ [child]))
    /\ cost_items h' !! child
       = Some (with_schedule (with_parent c (Some self)) (schedule s))
    /\ (forall a, a <> self -> a <> child -> cost_items h' !! a = cost_items h !! a)
    /\ cost_values h' = cost_values h
    /\ schedules h' = schedules h.
Proof.
  intros Hs Hc Hne. unfold CostItem.add_child, set_parent, set_schedule, set_children.
  assert (Hne' : child <> self) by congruence.
  rewrite (get_item_Ok _ _ _ Hc). cbn [mbind outcome_bind].
  rewrite (get_put_item_ne h child self _ Hne'), (get_item_Ok _ _ _ Hs).
  cbn [mbind outcome_bind]. rewrite get_put_item_eq. cbn [mbind outcome_bind].
  rewrite !(get_put_item_ne _ child self _ Hne'), (get_item_Ok _ _ _ Hs).
  cbn [mbind outcome_bind].
  eexists. split; [reflexivity |]. cbn [cost_items cost_values schedules put_item].
  split; [apply lookup_insert_eq |].
  split; [rewrite lookup_insert_ne by congruence; apply lookup_insert_eq |].
  split; [| split; reflexivity].
  intros a Ha1 Ha2. rewrite !lookup_insert_ne by congruence. reflexivity.
Qed.

Lemma repr_in_root (I V : addr -> Prop) (h : Heap) (x : addr) (t : CostTree) :
  repr_in I V h x t ->
  I x /\ exists it, cost_items h !! x = Some it /\ V (cost_value it).
Proof. intros [x' it cv kids HI HV Hit _ _]. eauto. Qed.

(** The loop of [copy] over the children, for a new item [y] whose cost
    value is the new object [ncv]. *)
Lemma copy_loop (f : nat) (h : Heap) (y ncv : addr) (base : CostItem)
    (cvc : CostValue) :
  (forall h0 x t, repr h0 x t -> height t <= f -> copy_post f h0 x t) ->
  new_item_in h y -> new_value_in h ncv ->
  parent base = None -> schedule base = None ->
  forall (l : list addr) (kids : list CostTree),
    Forall2 (repr h) l kids ->
    Forall (fun k => height k <= f) kids ->
    forall (hc : Heap) (ys : list addr) (done : list CostTree),
      extends h hc ->
      cost_items hc !! y = Some (with_children base ys) ->
      cost_values hc !! ncv = Some cvc ->
      Forall2 (repr_in (fun a => new_item_in h a /\ a <> y)
                       (fun v => new_value_in h v /\ v <> ncv) hc) ys done ->
      exists hn ys',
        for_each (fun hc child =>
                    '(child_copy, hc1) ← CostItem.copy f hc child;
                    '(_, hc2) ← CostItem.add_child hc1 y child_copy;
                    Ok hc2) l hc = Ok hn
        /\ extends h hn
        /\ cost_items hn !! y = Some (with_children base ys')
        /\ cost_values hn !! ncv = Some cvc
        /\ Forall2 (repr_in (fun a => new_item_in h a /\ a <> y)
                            (fun v => new_value_in h v /\ v <> ncv) hn)
                   ys' (done ++ kids).
Proof.
  intros IHf Hy Hncv Hbp Hbs l kids Hl.
  induction Hl as [|c k l kids Hck _ IHl]; intros Hh hc ys done Hext Hyc Hvc Hdone.
  - exists hc, ys. rewrite app_nil_r. repeat split; try assumption; apply Hext.
  - inversion Hh as [|? ? Hk Hrest]; subst.
    destruct (IHf hc c k (repr_extends _ _ _ _ Hext Hck) Hk)
      as (cc & hc1 & Hcopy & Hext1 & Hrcc & icc & Hicc & Hpcc & Hscc).
    destruct (repr_in_root _ _ _ _ _ Hrcc) as (Hccnew & _).
    assert (Hne : y <> cc).
    { intros ->. unfold new_item_in in Hccnew. congruence. }
    destruct Hext as (Hexti & Hextv & Hexts).
    destruct Hext1 as (Hext1i & Hext1v & Hext1s).
    destruct (add_child_spec hc1 y cc _ _ (Hext1i _ _ Hyc) Hicc Hne)
      as (hc2 & Hadd & Hy2 & Hcc2 & Hother & Hval2 & Hsch2).
    assert (Hccnewh : new_item_in h cc).
    { unfold new_item_in in *. destruct (cost_items h !! cc) as [i|] eqn:E; [| reflexivity].
      apply Hexti in E. congruence. }
    destruct (IHl Hrest hc2 (ys ++ [cc]) (done ++ [k])) as (hn & ys' & Hloop & Hn).
    + split; [| split].
      * intros a it Ha. rewrite Hother.
        -- apply Hext1i, Hexti, Ha.
        -- intros ->. unfold new_item_in in Hy. congruence.
        -- intros ->. unfold new_item_in in Hccnewh. congruence.
      * intros v cv Hv. rewrite Hval2. apply Hext1v, Hextv, Hv.
      * congruence.
    + rewrite Hy2. reflexivity.
    + rewrite Hval2. apply Hext1v, Hvc.
    + apply Forall2_app.
      * eapply Forall2_impl; [exact Hdone |].
        intros a t Ha. eapply repr_in_frame; [| | exact Ha].
        -- intros a' it [Hnew Hay] Hit.
           destruct (decide (a' = cc)) as [->|Hacc].
           { unfold new_item_in in Hccnew. congruence. }
           exists it. split; [| reflexivity].
           rewrite Hother by congruence. apply Hext1i, Hit.
        -- intros v cv _ Hv. rewrite Hval2. apply Hext1v, Hv.
      * constructor; [| constructor].
        eapply repr_in_frame with (h := hc1).
        -- intros a' it [Hnew Hay] Hit.
           destruct (decide (a' = cc)) as [->|Hacc].
           { eexists. split; [exact Hcc2 |].
             assert (it = icc) as -> by congruence.
             destruct icc; reflexivity. }
           exists it. split; [| reflexivity].
           rewrite Hother by congruence. exact Hit.
        -- intros v cv _ Hv. rewrite Hval2. exact Hv.
        -- eapply repr_in_mono; [| | exact Hrcc].
           ++ intros a Ha. unfold new_item_in in *. split.
              ** destruct (cost_items h !! a) as [i|] eqn:E; [| reflexivity].
                 apply Hexti in E. congruence.
              ** intros ->. congruence.
           ++ intros v Hv. unfold new_value_in in *. split.
              ** destruct (cost_values h !! v) as [i|] eqn:E; [| reflexivity].
                 apply Hextv in E. congruence.
              ** intros ->. congruence.
    + exists hn, ys'. split.
      * cbn [for_each]. rewrite Hcopy. cbn [mbind outcome_bind].
        rewrite Hadd. cbn [mbind outcome_bind]. exact Hloop.
      * rewrite <- app_assoc in Hn. exact Hn.
Qed.

Lemma repr_in_intro (I V : addr -> Prop) (h : Heap) (x : addr) (it : CostItem)
    (cv : CostValue) (d : ItemData) (kids : list CostTree) :
  I x -> V (cost_value it) ->
  cost_items h !! x = Some it ->
  cost_values h !! cost_value it = Some cv ->
  d = data_of it cv ->
  Forall2 (repr_in I V h) (children it) kids ->
  repr_in I V h x (Node d kids).
Proof. intros HI HV Hit Hcv -> Hk. econstructor; eassumption. Qed.

Lemma copy_unfold (f : nat) (h : Heap) (x : addr) (it : CostItem) (cv : CostValue) :
  cost_items h !! x = Some it ->
  cost_values h !! cost_value it = Some cv ->
  CostItem.copy (S f) h x =
    let ncv := fresh (dom (cost_values h)) in
    let y := fresh (dom (cost_items h)) in
    let h2 :=
      put_item
        (put_value h ncv (mkCostValue (unit_price cv) (quantity cv)
                            (quantity_type cv) "" "" None None))
        y (CostItem.make (name it) (html_name it) (identification it)
             (sfb_code it) (description it) (is_text_only it) ncv) in
    hn ← for_each (fun hc child =>
                     '(child_copy, hc1) ← CostItem.copy f hc child;
                     '(_, hc2) ← CostItem.add_child hc1 y child_copy;
                     Ok hc2) (children it) h2;
    Ok (y, hn).
Proof.
  intros Hit Hcv. simpl.
  rewrite (get_item_Ok _ _ _ Hit). simpl.
  rewrite (get_value_Ok _ _ _ Hcv). reflexivity.
Qed.

(** [copy] returns on every item that stands for a tree, and the result
    stands for the same tree and is made of new objects only. *)
Lemma copy_spec (fuel : nat) (h : Heap) (x : addr) (t : CostTree) :
  repr h x t -> height t <= fuel -> copy_post fuel h x t.
Proof.
  revert h x t. induction fuel as [|f IH]; intros h x t Hr Hh.
  - pose proof (height_pos t). lia.
  - destruct Hr as [x it cv kids Hit Hcv Hkids].
    pose proof (fresh_value_new h) as Hncv.
    pose proof (fresh_item_new h) as Hy.
    set (ncv := fresh (dom (cost_values h))) in *.
    set (y := fresh (dom (cost_items h))) in *.
    set (cvc := mkCostValue (unit_price cv) (quantity cv) (quantity_type cv)
                  "" "" None None).
    set (base := CostItem.make (name it) (html_name it) (identification it)
                   (sfb_code it) (description it) (is_text_only it) ncv).
    set (h2 := put_item (put_value h ncv cvc) y base).
    assert (Hext : extends h h2).
    { split; [| split; [| reflexivity]].
      - intros a i Ha. unfold h2, put_item. simpl.
        rewrite lookup_insert_ne; [exact Ha |].
        intros <-. unfold new_item_in in Hy. congruence.
      - intros v c Hv. unfold h2, put_item, put_value. simpl.
        rewrite lookup_insert_ne; [exact Hv |].
        intros <-. unfold new_value_in in Hncv. congruence. }
    destruct (copy_loop f h y ncv base cvc IH Hy Hncv eq_refl eq_refl
                (children it) kids Hkids (Forall_height_kids _ _ _ Hh)
                h2 [] [] Hext)
      as (hn & ys & Hloop & Hextn & Hyn & Hvn & Hys).
    { unfold h2, put_item. simpl. apply lookup_insert_eq. }
    { unfold h2, put_item, put_value. simpl. apply lookup_insert_eq. }
    { constructor. }
    exists y, hn. split; [| split; [exact Hextn | split]].
    + rewrite (copy_unfold _ _ _ _ _ Hit Hcv). cbv zeta.
      fold ncv y cvc base h2. rewrite Hloop. reflexivity.
    + eapply (repr_in_intro _ _ hn y (with_children base ys) cvc);
        [exact Hy | exact Hncv | exact Hyn | exact Hvn | reflexivity |].
      simpl in Hys |- *.
      eapply Forall2_impl; [exact Hys |].
      intros a k Ha. eapply repr_in_mono; [| | exact Ha]; intros ? [? _]; assumption.
    + exists (with_children base ys). repeat split. exact Hyn.
Qed.

Lemma repr_frame (h h2 : Heap) (x : addr) (t : CostTree) :
  (forall a it, cost_items h !! a = Some it ->
     exists it', cost_items h2 !! a = Some it' /\ core it' = core it) ->
  (forall v cv, cost_values h !! v = Some cv -> cost_values h2 !! v = Some cv) ->
  repr h x t -> repr h2 x t.
Proof.
  intros Hi Hv Hr. apply repr_repr_in in Hr.
  eapply repr_in_repr, repr_in_frame; [| | exact Hr].
  - intros a it _ Hit. apply Hi, Hit.
  - intros v cv _ Hcv. apply Hv, Hcv.
Qed.

(** Writing to a cost value that [h] does not have leaves every tree of [h]
    as it is. *)
Lemma repr_put_new_value (h h' : Heap) (x : addr) (t : CostTree)
    (ncv : addr) (cv' : CostValue) :
  extends h h' -> new_value_in h ncv ->
  repr h x t -> repr (put_value h' ncv cv') x t.
Proof.
  intros (Hi & Hv & _) Hn Hr. eapply repr_frame; [| | exact Hr].
  - intros a it Ha. exists it. split; [apply Hi, Ha | reflexivity].
  - intros v cv Hcv. unfold put_value. simpl.
    rewrite lookup_insert_ne; [apply Hv, Hcv |].
    intros <-. unfold new_value_in in Hn. congruence.
Qed.

(** Writing to an item that [h] does not have leaves every tree of [h] as
    it is. *)
Lemma repr_put_new_item (h h' : Heap) (x : addr) (t : CostTree)
    (y : addr) (it' : CostItem) :
  extends h h' -> new_item_in h y ->
  repr h x t -> repr (put_item h' y it') x t.
Proof.
  intros (Hi & Hv & _) Hn Hr. eapply repr_frame; [| | exact Hr].
  - intros a it Ha. exists it. split; [| reflexivity].
    unfold put_item. simpl. rewrite lookup_insert_ne; [apply Hi, Ha |].
    intros <-. unfold new_item_in in Hn. congruence.
  - intros v cv Hcv. apply Hv, Hcv.
Qed.

(** C5.  For an item [x] that stands for the tree [t], [x.copy()] returns a
    new item [y] with [parent] and [schedule] unset; [y] stands for the same
    tree [t] (same data, same children in the same order, recursively) and
    is made only of items and cost values that did not exist before; [x]
    still stands for [t]; the subtotals of [y] and [x] agree; and assigning
    [y.unit_price], [y.quantity] or [y.is_text_only] afterwards leaves the
    subtotal of [x] as it was. *)
Theorem copy_independence (fuel : nat) (h : Heap) (x : addr) (t : CostTree) :
  repr h x t -> height t <= fuel ->
  exists (y : addr) (h' : Heap) (ity : CostItem),
    CostItem.copy fuel h x = Ok (y, h')
    /\ cost_items h' !! y = Some ity
    /\ parent ity = None /\ schedule ity = None
    /\ repr_in (new_item_in h) (new_value_in h) h' y t
    /\ repr h' x t
    /\ CostItem.subtotal fuel h' y = CostItem.subtotal fuel h x
    /\ CostItem.subtotal fuel h' x = CostItem.subtotal fuel h x
    /\ (forall v, exists h'',
          CostItem.set_unit_price h' y v = Ok h''
          /\ CostItem.subtotal fuel h'' x = CostItem.subtotal fuel h x)
    /\ (forall v, exists h'',
          CostItem.set_quantity h' y v = Ok h''
          /\ CostItem.subtotal fuel h'' x = CostItem.subtotal fuel h x)
    /\ (forall b, exists h'',
          set_is_text_only h' y b = Ok h''
          /\ CostItem.subtotal fuel h'' x = CostItem.subtotal fuel h x).
Proof.
  intros Hr Hh.
  destruct (copy_spec fuel h x t Hr Hh)
    as (y & h' & Hcopy & Hext & Hry & ity & Hity & Hp & Hs).
  exists y, h', ity.
  pose proof (subtotal_repr fuel h x t Hr Hh) as Hsx.
  pose proof (repr_extends _ _ _ _ Hext Hr) as Hrx'.
  destruct (repr_in_root _ _ _ _ _ Hry) as (Hynew & ity' & Hity' & Hvnew).
  assert (ity' = ity) as -> by congruence.
  assert (Hcvy : exists cvy, cost_values h' !! cost_value ity = Some cvy).
  { inversion Hry as [x' it cv kids _ _ Hit Hcv _]; subst.
    assert (it = ity) as -> by congruence. eauto. }
  destruct Hcvy as [cvy Hcvy].
  split; [exact Hcopy |]. split; [exact Hity |].
  split; [exact Hp |]. split; [exact Hs |].
  split; [exact Hry |]. split; [exact Hrx' |].
  rewrite Hsx.
  split; [apply subtotal_repr; [eapply repr_in_repr; exact Hry | exact Hh] |].
  split; [apply subtotal_repr; assumption |].
  split; [| split].
  - intros v. eexists. split.
    + unfold CostItem.set_unit_price.
      rewrite (get_item_Ok _ _ _ Hity). cbn [mbind outcome_bind].
      rewrite (get_value_Ok _ _ _ Hcvy). reflexivity.
    + apply subtotal_repr; [| exact Hh].
      apply (repr_put_new_value h h'); assumption.
  - intros v. eexists. split.
    + unfold CostItem.set_quantity.
      rewrite (get_item_Ok _ _ _ Hity). cbn [mbind outcome_bind].
      rewrite (get_value_Ok _ _ _ Hcvy). reflexivity.
    + apply subtotal_repr; [| exact Hh].
      apply (repr_put_new_value h h'); assumption.
  - intros b. eexists. split.
    + unfold set_is_text_only.
      rewrite (get_item_Ok _ _ _ Hity). reflexivity.
    + apply subtotal_repr; [| exact Hh].
      apply (repr_put_new_item h h'); assumption.
Qed.

Lemma copy_independence_witness :
  repr grondwerk_heap 0 grondwerk_tree /\ height grondwerk_tree <= 2
  /\ exists (y : addr) (h' : Heap) (ity : CostItem),
       CostItem.copy 2 grondwerk_heap 0 = Ok (y, h')
       /\ cost_items h' !! y = Some ity
       /\ parent ity = None /\ schedule ity = None
       /\ repr_in (new_item_in grondwerk_heap) (new_value_in grondwerk_heap)
            h' y grondwerk_tree
       /\ repr h' 0 grondwerk_tree
       /\ CostItem.subtotal 2 h' y = CostItem.subtotal 2 grondwerk_heap 0
       /\ CostItem.subtotal 2 h' 0 = CostItem.subtotal 2 grondwerk_heap 0
       /\ (forall v, exists h'',
             CostItem.set_unit_price h' y v = Ok h''
             /\ CostItem.subtotal 2 h'' 0 = CostItem.subtotal 2 grondwerk_heap 0)
       /\ (forall v, exists h'',
             CostItem.set_quantity h' y v = Ok h''
             /\ CostItem.subtotal 2 h'' 0 = CostItem.subtotal 2 grondwerk_heap 0)
       /\ (forall b, exists h'',
             set_is_text_only h' y b = Ok h''
             /\ CostItem.subtotal 2 h'' 0 = CostItem.subtotal 2 grondwerk_heap 0).
Proof.
  split; [exact grondwerk_repr |]. split; [simpl; lia |].
  apply (copy_independence 2 grondwerk_heap 0 grondwerk_tree);
    [exact grondwerk_repr | simpl; lia].
Defined.

(** The example of the specification on a leaf: the copy of the leaf 1 is
    the new item 3; after [y.unit_price = 999] the copy is worth 85 * 999
    and the original still 1062.5. *)
Example copy_leaf_then_reprice :
  exists h' h'',
    CostItem.copy 1 grondwerk_heap 1 = Ok (3, h')
    /\ CostItem.subtotal 1 h' 3 = CostItem.subtotal 1 grondwerk_heap 1
    /\ CostItem.set_unit_price h' 3 (999 # 1) = Ok h''
    /\ CostItem.subtotal 1 h'' 3 = Ok ((85 # 1) * (999 # 1))%Q
    /\ CostItem.subtotal 1 h'' 1 = Ok ((85 # 1) * (25 # 2))%Q.
Proof.
  eexists _, _. split; [vm_compute; reflexivity |].
  split; [vm_compute; reflexivity |].
  split; [vm_compute; reflexivity |].
  split; vm_compute; reflexivity.
Qed.

(** * Further properties of the model classes *)

(** ** Level *)

Lemma level_loop_path (h : Heap) (p : addr) (l : list addr) :
  path_to h p l ->
  forall (fuel n : nat),
    length l <= fuel ->
    CostItem.level_loop fuel h (Some p) n = Ok (n + length l).
Proof.
  induction 1 as [x it Hit Hp | x p it l Hit Hp _ IH]; intros fuel n Hlen.
  - destruct fuel as [|f]; [simpl in Hlen; lia |].
    simpl. rewrite (get_item_Ok _ _ _ Hit). simpl. rewrite Hp.
    destruct f; reflexivity.
  - rewrite length_app in Hlen. simpl in Hlen.
    destruct fuel as [|f]; [lia |].
    simpl. rewrite (get_item_Ok _ _ _ Hit). simpl. rewrite Hp.
    rewrite IH by lia. rewrite length_app. simpl. f_equal. lia.
Qed.

Lemma level_of_path (fuel : nat) (h : Heap) (x : addr) (l : list addr) :
  path_to h x l -> length l <= S fuel ->
  CostItem.level fuel h x = Ok (length l - 1).
Proof.
  intros Hp Hlen. unfold CostItem.level.
  inversion Hp as [x' it Hit Hpar | x' p it l' Hit Hpar Hrest]; subst.
  - rewrite (get_item_Ok _ _ _ Hit). simpl. rewrite Hpar.
    destruct fuel; reflexivity.
  - rewrite (get_item_Ok _ _ _ Hit). simpl. rewrite Hpar.
    rewrite length_app in Hlen |- *. simpl in Hlen |- *.
    rewrite (level_loop_path h p l' Hrest) by lia. f_equal. lia.
Qed.

(** X1.  For an item with the path [l] from its root, [level] is the number
    of its ancestors: one less than the length of what [get_path] returns. *)
Theorem level_counts_ancestors (fuel : nat) (h : Heap) (x : addr) (l : list addr) :
  path_to h x l -> length l <= S fuel ->
  CostItem.level fuel h x = Ok (length l - 1)
  /\ CostItem.get_path fuel h x = Ok l.
Proof.
  intros Hp Hlen. split; [apply level_of_path | apply get_path_path]; assumption.
Qed.

Lemma level_counts_ancestors_witness :
  path_to codes_heap 1 [0; 1] /\ length [0; 1] <= 2
  /\ CostItem.level 1 codes_heap 1 = Ok (length [0; 1] - 1)
  /\ CostItem.get_path 1 codes_heap 1 = Ok [0; 1].
Proof.
  split; [exact codes_path |]. split; [simpl; lia |].
  apply (level_counts_ancestors 1 codes_heap 1 [0; 1] codes_path).
  simpl; lia.
Defined.

(** ** Search by identification *)

Lemma find_app_first {A : Type} (P : A -> bool) (l1 l2 : list A) :
  List.find P (l1 ++ l2)
  = match List.find P l1 with Some y => Some y | None => List.find P l2 end.
Proof.
  induction l1 as [|a l1 IH]; simpl; [reflexivity |].
  destruct (P a); [reflexivity | exact IH].
Qed.

(** The loop over the children agrees with the pre-order list that
    [get_all_descendants] builds over the same children. *)
Lemma find_loop_preorder (f : nat) (h : Heap) (code : string) :
  (forall c dsc, CostItem.get_all_descendants f h c = Ok dsc ->
     CostItem.find_by_identification f h c code
     = Ok (List.find (ident_is h code) (c :: dsc))) ->
  forall (l : list addr) (acc r : list addr),
    for_each (fun descendants child =>
                ds ← CostItem.get_all_descendants f h child;
                Ok ((descendants ++ [child]) ++ ds)) l acc = Ok r ->
    exists suffix,
      r = acc ++ suffix
      /\ first_found (fun child => CostItem.find_by_identification f h child code) l
         = Ok (List.find (ident_is h code) suffix).
Proof.
  intros IH l. induction l as [|c l IHl]; intros acc r Hr.
  - simpl in Hr. injection Hr as <-. exists []. rewrite app_nil_r. split; reflexivity.
  - cbn [for_each] in Hr.
    destruct (CostItem.get_all_descendants f h c) as [dsc| |] eqn:Hc;
      cbn [mbind outcome_bind] in Hr; try discriminate Hr.
    destruct (IHl _ _ Hr) as (suffix & -> & Hfind).
    exists ((c :: dsc) ++ suffix). split.
    + rewrite <- !app_assoc. reflexivity.
    + cbn [first_found]. rewrite (IH c dsc Hc). cbn [mbind outcome_bind].
      rewrite find_app_first.
      destruct (List.find (ident_is h code) (c :: dsc)); [reflexivity | exact Hfind].
Qed.

Lemma find_preorder (fuel : nat) (h : Heap) (x : addr)
    (code : string) (ds : list addr) :
  CostItem.get_all_descendants fuel h x = Ok ds ->
  CostItem.find_by_identification fuel h x code
  = Ok (List.find (ident_is h code) (x :: ds)).
Proof.
  revert x ds. induction fuel as [|f IH]; intros x ds Hds; [discriminate Hds |].
  cbn [CostItem.get_all_descendants CostItem.find_by_identification] in Hds |- *.
  unfold get_item, ident_is in *. cbn [List.find].
  destruct (cost_items h !! x) as [it|] eqn:Hit; [| discriminate Hds].
  cbn [mbind outcome_bind] in Hds |- *.
  destruct (String.eqb (identification it) code); [reflexivity |].
  destruct (find_loop_preorder f h code IH _ _ _ Hds) as (suffix & Heq & Hfind).
  simpl in Heq. subst suffix. exact Hfind.
Qed.

(** X2.  Whenever [get_all_descendants] returns the list [ds] for an item,
    [find_by_identification] returns the first item of [self] followed by
    [ds] whose identification equals the code, and [None] when there is
    none. *)
Theorem find_by_identification_first (fuel : nat) (h : Heap) (x : addr)
    (code : string) (ds : list addr) :
  CostItem.get_all_descendants fuel h x = Ok ds ->
  CostItem.find_by_identification fuel h x code
  = Ok (List.find (ident_is h code) (x :: ds)).
Proof. apply find_preorder. Qed.

Lemma find_by_identification_first_witness :
  CostItem.get_all_descendants 2 grondwerk_heap 0 = Ok [1; 2]
  /\ CostItem.find_by_identification 2 grondwerk_heap 0 "01.01"
     = Ok (List.find (ident_is grondwerk_heap "01.01") [0; 1; 2]).
Proof.
  split; [reflexivity |].
  apply (find_by_identification_first 2 grondwerk_heap 0 "01.01" [1; 2]).
  reflexivity.
Defined.

(** X3.  Whenever [get_all_items] returns the list [l] for a schedule, the
    schedule's [find_by_identification] returns the first item of [l] whose
    identification equals the code, and [None] when there is none. *)
Theorem schedule_find_by_identification_first (fuel : nat) (h : Heap) (s : addr)
    (code : string) (l : list addr) :
  CostSchedule.get_all_items fuel h s = Ok l ->
  CostSchedule.find_by_identification fuel h s code
  = Ok (List.find (ident_is h code) l).
Proof.
  unfold CostSchedule.get_all_items, CostSchedule.find_by_identification.
  destruct (get_schedule h s) as [sc| |]; cbn [mbind outcome_bind];
    try discriminate.
  intros Hl.
  destruct (find_loop_preorder fuel h code
              (fun c dsc => find_preorder fuel h c code dsc) _ _ _ Hl)
    as (suffix & Heq & Hfind).
  simpl in Heq. subst suffix. exact Hfind.
Qed.

Lemma schedule_find_by_identification_first_witness :
  CostSchedule.get_all_items 2 grondwerk_heap 0 = Ok [0; 1; 2]
  /\ CostSchedule.find_by_identification 2 grondwerk_heap 0 "01.01"
     = Ok (List.find (ident_is grondwerk_heap "01.01") [0; 1; 2]).
Proof.
  split; [reflexivity |].
  apply (schedule_find_by_identification_first 2 grondwerk_heap 0 "01.01" [0; 1; 2]).
  reflexivity.
Defined.

(** ** Setting the schedule on a whole subtree *)

Lemma sched_only_refl (s : addr) (h : Heap) : sched_only s h h.
Proof.
  split; [| repeat split; auto].
  intros a it Hit. exists it. repeat split; auto.
Qed.

Lemma sched_only_trans (s : addr) (h1 h2 h3 : Heap) :
  sched_only s h1 h2 -> sched_only s h2 h3 -> sched_only s h1 h3.
Proof.
  intros (Hi & Hn & Hv & Hs) (Hi' & Hn' & Hv' & Hs').
  split; [| split; [| split]].
  - intros a it Hit.
    destruct (Hi a it Hit) as (it2 & Hit2 & Hc2 & Hp2 & Hs2).
    destruct (Hi' a it2 Hit2) as (it3 & Hit3 & Hc3 & Hp3 & Hs3).
    exists it3. split; [exact Hit3 |]. split; [congruence |]. split; [congruence |].
    destruct Hs3 as [Hs3 | Hs3]; [| right; exact Hs3].
    destruct Hs2 as [Hs2 | Hs2]; [left | right]; congruence.
  - auto.
  - congruence.
  - congruence.
Qed.

Lemma sched_only_set (s : addr) (h : Heap) (x : addr) (it : CostItem) :
  cost_items h !! x = Some it ->
  sched_only s h (put_item h x (with_schedule it (Some s))).
Proof.
  intros Hit. split; [| split; [| split; reflexivity]].
  - intros a ia Ha. unfold put_item. cbn [cost_items].
    destruct (decide (x = a)) as [<-|Hne].
    + rewrite lookup_insert_eq. eexists. split; [reflexivity |].
      assert (ia = it) as -> by congruence.
      destruct it; repeat split. right. reflexivity.
    + rewrite lookup_insert_ne by exact Hne. exists ia. repeat split; auto.
  - intros a Ha. unfold put_item. cbn [cost_items].
    rewrite lookup_insert_ne; [exact Ha |]. intros <-. congruence.
Qed.

Lemma repr_sched_only (s : addr) (h h' : Heap) (x : addr) (t : CostTree) :
  sched_only s h h' -> repr h x t -> repr h' x t.
Proof.
  intros (Hi & _ & Hv & _) Hr. eapply repr_frame; [| | exact Hr].
  - intros a it Ha. destruct (Hi a it Ha) as (it' & Hit' & Hc & _). eauto.
  - intros v cv Hcv. rewrite Hv. exact Hcv.
Qed.

Lemma scheduled_step (s : addr) (h h' : Heap) (x : addr) (t : CostTree) :
  sched_only s h h' ->
  repr_in (scheduled_in h s) (fun _ => True) h x t ->
  repr_in (scheduled_in h' s) (fun _ => True) h' x t.
Proof.
  intros (Hi & _ & Hv & _).
  induction 1 as [x it cv kids Hx _ Hit Hcv _ IH] using repr_in_ind'.
  destruct (Hi x it Hit) as (it' & Hit' & Hcore & _ & Hs).
  destruct (core_fields _ _ Hcore) as (Hch & Hcval & Hdata).
  rewrite <- (Hdata cv).
  econstructor; [| exact I | exact Hit' | rewrite Hcval, Hv; exact Hcv
                 | rewrite Hch; exact IH].
  exists it'. split; [exact Hit' |].
  destruct Hx as (it0 & Hit0 & Hs0). assert (it0 = it) as -> by congruence.
  destruct Hs as [Hs | Hs]; congruence.
Qed.

Lemma sched_loop (f : nat) (s : addr) (h0 : Heap)
    (body : Heap -> addr -> outcome Heap) :
  (forall h x t, repr h x t -> height t <= f ->
     exists h', body h x = Ok h'
                /\ sched_only s h h'
                /\ repr_in (scheduled_in h' s) (fun _ => True) h' x t) ->
  forall (l : list addr) (kids : list CostTree),
    Forall2 (repr h0) l kids ->
    Forall (fun k => height k <= f) kids ->
    forall hc : Heap,
      sched_only s h0 hc ->
      exists hn,
        for_each body l hc = Ok hn
        /\ sched_only s hc hn
        /\ Forall2 (repr_in (scheduled_in hn s) (fun _ => True) hn) l kids.
Proof.
  intros IH l kids Hl.
  induction Hl as [|c k l kids Hck _ IHl]; intros Hh hc Hc.
  - exists hc. split; [reflexivity |]. split; [apply sched_only_refl | constructor].
  - inversion Hh as [|? ? Hk Hrest]; subst.
    destruct (IH hc c k (repr_sched_only _ _ _ _ _ Hc Hck) Hk)
      as (hc1 & Hrun & Hstep & Hrc).
    destruct (IHl Hrest hc1 (sched_only_trans _ _ _ _ Hc Hstep))
      as (hn & Hloop & Hstepn & Hall).
    exists hn. split; [| split].
    + cbn [for_each]. rewrite Hrun. exact Hloop.
    + eapply sched_only_trans; eassumption.
    + constructor; [| exact Hall]. eapply scheduled_step; eassumption.
Qed.

Lemma set_schedule_recursive_spec (fuel : nat) (s : addr) (h : Heap) (x : addr)
    (t : CostTree) :
  repr h x t -> height t <= fuel ->
  exists h', CostSchedule._set_schedule_recursive fuel h s x = Ok h'
             /\ sched_only s h h'
             /\ repr_in (scheduled_in h' s) (fun _ => True) h' x t.
Proof.
  revert h x t. induction fuel as [|f IH]; intros h x t Hr Hh.
  - pose proof (height_pos t). lia.
  - destruct Hr as [x it cv kids Hit Hcv Hkids].
    pose proof (sched_only_set s h x it Hit) as Hset.
    set (h1 := put_item h x (with_schedule it (Some s))) in *.
    destruct (sched_loop f s h _ IH (children it) kids Hkids
                (Forall_height_kids _ _ _ Hh) h1 Hset)
      as (hn & Hloop & Hstep & Hall).
    exists hn. split; [| split].
    + cbn [CostSchedule._set_schedule_recursive]. unfold set_schedule.
      rewrite (get_item_Ok _ _ _ Hit). cbn [mbind outcome_bind].
      rewrite get_put_item_eq. cbn [mbind outcome_bind].
      exact Hloop.
    + eapply sched_only_trans; eassumption.
    + destruct Hstep as (Hi & _ & Hv & _).
      destruct (Hi x (with_schedule it (Some s))) as (it' & Hit' & Hcore & _ & Hs).
      { unfold h1, put_item. cbn [cost_items]. apply lookup_insert_eq. }
      assert (Hcore' : core it' = core it).
      { rewrite Hcore. destruct it; reflexivity. }
      destruct (core_fields _ _ Hcore') as (Hch & Hcval & Hdata).
      rewrite <- (Hdata cv).
      econstructor; [| exact I | exact Hit' | | rewrite Hch; exact Hall].
      * exists it'. split; [exact Hit' |]. destruct Hs as [Hs | Hs]; exact Hs.
      * rewrite Hcval, Hv. exact Hcv.
Qed.

(** X4.  On an item that stands for a tree, [_set_schedule_recursive]
    returns; afterwards every item of that tree refers to the schedule, the
    tree is the same, and the store differs from the one before only in
    [schedule] fields. *)
Theorem set_schedule_recursive_reaches_all (fuel : nat) (s : addr) (h : Heap)
    (x : addr) (t : CostTree) :
  repr h x t -> height t <= fuel ->
  exists h', CostSchedule._set_schedule_recursive fuel h s x = Ok h'
             /\ sched_only s h h'
             /\ repr_in (scheduled_in h' s) (fun _ => True) h' x t.
Proof. apply set_schedule_recursive_spec. Qed.

Lemma set_schedule_recursive_reaches_all_witness :
  repr detached_chapter_heap 0 detached_chapter_tree
  /\ height detached_chapter_tree <= 2
  /\ exists h', CostSchedule._set_schedule_recursive 2 detached_chapter_heap 0 0 = Ok h'
                /\ sched_only 0 detached_chapter_heap h'
                /\ repr_in (scheduled_in h' 0) (fun _ => True) h' 0
                     detached_chapter_tree.
Proof.
  assert (Hr : repr detached_chapter_heap 0 detached_chapter_tree).
  { eapply repr_intro; [reflexivity | reflexivity | reflexivity |].
    repeat constructor.
    eapply repr_intro; [reflexivity | reflexivity | reflexivity | constructor]. }
  split; [exact Hr |]. split; [simpl; lia |].
  apply (set_schedule_recursive_reaches_all 2 0 detached_chapter_heap 0
           detached_chapter_tree Hr).
  simpl; lia.
Defined.

(** ** The constructor of a schedule *)

Lemma post_init_step (fuel : nat) (s : addr) (h : Heap) (x : addr) (t : CostTree) :
  repr h x t -> height t <= fuel ->
  exists h',
    (h1 ← set_schedule h x (Some s);
     CostSchedule._set_schedule_recursive fuel h1 s x) = Ok h'
    /\ sched_only s h h'
    /\ repr_in (scheduled_in h' s) (fun _ => True) h' x t.
Proof.
  intros Hr Hh.
  assert (Hit : exists it, cost_items h !! x = Some it)
    by (destruct Hr; eauto).
  destruct Hit as [it Hit].
  pose proof (sched_only_set s h x it Hit) as Hset.
  destruct (set_schedule_recursive_spec fuel s _ x t
              (repr_sched_only _ _ _ _ _ Hset Hr) Hh) as (h' & Hrun & Hstep & Hall).
  exists h'. split; [| split; [eapply sched_only_trans; eassumption | exact Hall]].
  unfold set_schedule. rewrite (get_item_Ok _ _ _ Hit). exact Hrun.
Qed.

Lemma reachable_repr_in (I V : addr -> Prop) (h : Heap) (s : addr)
    (sc : CostSchedule) (ts : list CostTree) (x : addr) :
  schedules h !! s = Some sc ->
  Forall2 (repr_in I V h) (items sc) ts ->
  reachable h s x -> exists t, repr_in I V h x t.
Proof.
  intros Hs Hall.
  induction 1 as [sc' x Hsc Hin | p c it _ [t Ht] Hit Hin].
  - assert (sc' = sc) as -> by congruence.
    apply list_elem_of_lookup in Hin as [i Hi].
    destruct (Forall2_lookup_l _ _ _ _ _ Hall Hi) as (t & _ & Ht). eauto.
  - destruct Ht as [p it' cv kids _ _ Hit' _ Hkids].
    assert (it' = it) as -> by congruence.
    apply list_elem_of_lookup in Hin as [i Hi].
    destruct (Forall2_lookup_l _ _ _ _ _ Hkids Hi) as (k & _ & Hk). eauto.
Qed.

(** X5.  [__post_init__] on a schedule whose root items stand for a forest
    returns, changes nothing but [schedule] fields, and afterwards every
    item reachable from the schedule's [items] refers to the schedule. *)
Theorem post_init_sets_schedule_everywhere (fuel : nat) (h : Heap) (s : addr)
    (sc : CostSchedule) (ts : list CostTree) :
  schedules h !! s = Some sc ->
  Forall2 (repr h) (items sc) ts ->
  Forall (fun t => height t <= fuel) ts ->
  exists h',
    CostSchedule.__post_init__ fuel h s = Ok h'
    /\ sched_only s h h'
    /\ forall x, reachable h' s x -> scheduled_in h' s x.
Proof.
  intros Hs Hr Hh.
  destruct (sched_loop fuel s h _ (post_init_step fuel s) _ _ Hr Hh h
              (sched_only_refl s h)) as (h' & Hloop & Hstep & Hall).
  exists h'. split; [| split; [exact Hstep |]].
  - unfold CostSchedule.__post_init__. rewrite (get_schedule_Ok _ _ _ Hs).
    exact Hloop.
  - intros x Hx.
    assert (Hs' : schedules h' !! s = Some sc).
    { destruct Hstep as (_ & _ & _ & Heq). rewrite Heq. exact Hs. }
    destruct (reachable_repr_in _ _ _ _ _ _ _ Hs' Hall Hx) as [t Ht].
    apply (repr_in_root _ _ _ _ _ Ht).
Qed.

Lemma attached_chapter_repr : repr attached_chapter_heap 0 detached_chapter_tree.
Proof.
  eapply repr_intro; [reflexivity | reflexivity | reflexivity |].
  repeat constructor.
  eapply repr_intro; [reflexivity | reflexivity | reflexivity | constructor].
Qed.

Lemma post_init_sets_schedule_everywhere_witness :
  Forall2 (repr attached_chapter_heap) [0] [detached_chapter_tree]
  /\ Forall (fun t => height t <= 2) [detached_chapter_tree]
  /\ exists h',
       CostSchedule.__post_init__ 2 attached_chapter_heap 0 = Ok h'
       /\ sched_only 0 attached_chapter_heap h'
       /\ forall x, reachable h' 0 x -> scheduled_in h' 0 x.
Proof.
  assert (Hr : Forall2 (repr attached_chapter_heap) [0] [detached_chapter_tree])
    by (repeat constructor; exact attached_chapter_repr).
  assert (Hh : Forall (fun t => height t <= 2) [detached_chapter_tree])
    by (repeat constructor; simpl; lia).
  split; [exact Hr |]. split; [exact Hh |].
  exact (post_init_sets_schedule_everywhere 2 attached_chapter_heap 0 _
           [detached_chapter_tree] eq_refl Hr Hh).
Defined.

(** ** Attaching a subtree *)

Lemma repr_functional (h : Heap) (x : addr) (t t' : CostTree) :
  repr h x t -> repr h x t' -> t = t'.
Proof.
  intros Hr. revert t'.
  induction Hr as [x it cv kids Hit Hcv _ IH] using repr_ind'.
  intros t' Hr'.
  inversion Hr' as [x' it' cv' kids' Hit' Hcv' Hk']; subst.
  assert (it' = it) as -> by congruence.
  assert (cv' = cv) as -> by congruence.
  f_equal. clear - IH Hk'. revert kids' Hk'.
  induction IH as [|c k l ks Hck _ IHl]; intros kids' Hk'; inversion Hk'; subst.
  - reflexivity.
  - f_equal; [apply Hck; assumption | apply IHl; assumption].
Qed.

Lemma Forall2_Forall_mp {A B : Type} (Q : B -> Prop) (R : A -> B -> Prop)
    (l : list A) (k : list B) :
  Forall2 (fun a b => Q b -> R a b) l k -> Forall Q k -> Forall2 R l k.
Proof.
  induction 1 as [|a b l k Hab _ IH]; intros HQ; [constructor |].
  inversion HQ; subst. constructor; auto.
Qed.

Lemma Forall_size_kids (d : ItemData) (kids : list CostTree) :
  Forall (fun k => tree_size k < tree_size (Node d kids)) kids.
Proof.
  assert (H : forall n, sum_list (map tree_size kids) <= n ->
                        Forall (fun k => tree_size k <= n) kids).
  { induction kids as [|k kids IH]; intros n Hn; constructor; simpl in Hn.
    - lia.
    - apply IH. lia. }
  cbn [tree_size]. eapply Forall_impl; [apply (H _ (le_n _)) |].
  cbn beta. intros k Hk. lia.
Qed.

(** An item does not occur in the trees that hang below it. *)
Lemma repr_avoids (h : Heap) (p : addr) (tp : CostTree) (x : addr) (t : CostTree) :
  repr h p tp -> repr h x t -> tree_size t < tree_size tp ->
  repr_in (fun a => a <> p) (fun _ => True) h x t.
Proof.
  intros Hp Hr.
  induction Hr as [x it cv kids Hit Hcv Hk IH] using repr_ind'.
  intros Hsize.
  eapply repr_in_intro; [| exact I | exact Hit | exact Hcv | reflexivity |].
  - intros ->.
    assert (Heq : Node (data_of it cv) kids = tp).
    { eapply repr_functional; [| exact Hp]. econstructor; eassumption. }
    rewrite Heq in Hsize. lia.
  - apply (Forall2_Forall_mp _ _ _ _ IH).
    eapply Forall_impl; [apply (Forall_size_kids (data_of it cv)) |].
    cbn beta. intros k Hk'. lia.
Qed.

Lemma repr_kids_avoid (h : Heap) (p : addr) (it : CostItem) (cv : CostValue)
    (kids : list CostTree) :
  cost_items h !! p = Some it ->
  cost_values h !! cost_value it = Some cv ->
  Forall2 (repr h) (children it) kids ->
  Forall2 (repr_in (fun a => a <> p) (fun _ => True) h) (children it) kids.
Proof.
  intros Hit Hcv Hk.
  assert (Hp : repr h p (Node (data_of it cv) kids)) by (econstructor; eassumption).
  apply (Forall2_Forall_mp (fun k => tree_size k < tree_size (Node (data_of it cv) kids))).
  - eapply Forall2_impl; [exact Hk |]. intros c k Hck Hsz.
    eapply repr_avoids; eassumption.
  - apply Forall_size_kids.
Qed.


Lemma py_sum_snoc (l : list Q) (x : Q) : py_sum (l ++ [x]) = (py_sum l + x)%Q.
Proof. unfold py_sum. rewrite fold_left_app. reflexivity. Qed.

Lemma add_child_tree (h : Heap) (p c : addr) (d : ItemData)
    (kids : list CostTree) (tc : CostTree) :
  repr h p (Node d kids) ->
  repr_in (fun a => a <> p) (fun _ => True) h c tc ->
  exists h' itp itc,
    CostItem.add_child h p c = Ok (c, h')
    /\ repr h' p (Node d (kids ++ [tc]))
    /\ repr h' c tc
    /\ cost_items h' !! p = Some itp
    /\ cost_items h' !! c = Some itc
    /\ parent itc = Some p
    /\ schedule itc = schedule itp
    /\ last (children itp) = Some c.
Proof.
  intros Hp Hc.
  inversion Hp as [p' ip cv kids' Hip Hcv Hkids Hp' Hd]; subst.
  destruct (repr_in_root _ _ _ _ _ Hc) as (Hne & ic & Hic & _).
  destruct (add_child_spec h p c ip ic Hip Hic ltac:(congruence))
    as (h' & Hadd & Hp2 & Hc2 & Hother & Hval & _).
  assert (Hframe : forall a t,
            repr_in (fun a => a <> p) (fun _ => True) h a t -> repr h' a t).
  { intros a t Ha. eapply repr_in_repr, repr_in_frame; [| | exact Ha].
    - intros a' it Hap Hit.
      destruct (decide (a' = c)) as [->|Hac].
      + eexists. split; [exact Hc2 |].
        assert (it = ic) as -> by congruence. destruct ic; reflexivity.
      + exists it. split; [| reflexivity].
        rewrite Hother by assumption. exact Hit.
    - intros v cv' _ Hv. rewrite Hval. exact Hv. }
  eexists h', _, _.
  split; [exact Hadd |].
  split; [| split; [apply Hframe; exact Hc |
            split; [exact Hp2 | split; [exact Hc2 | repeat split]]]].
  - eapply (repr_intro h' p _ cv); [exact Hp2 | rewrite Hval; exact Hcv | reflexivity |].
    cbn [with_children children]. apply Forall2_app.
    + eapply Forall2_impl; [apply (repr_kids_avoid h p ip cv); eassumption |].
      intros a t Ha. apply Hframe, Ha.
    + constructor; [apply Hframe; exact Hc | constructor].
  - cbn [with_children children]. apply last_snoc.
Qed.

(** X6.  [parent.add_child(child)] for a parent that stands for a tree and a
    child whose own tree does not contain the parent: it returns the child,
    the child has [parent] set to the parent and [schedule] set to the
    parent's, the child is the last of the parent's children, and the parent
    now stands for its old tree with the child's tree added as last
    subtree. *)
Theorem add_child_extends_tree (h : Heap) (p c : addr) (d : ItemData)
    (kids : list CostTree) (tc : CostTree) :
  repr h p (Node d kids) ->
  repr_in (fun a => a <> p) (fun _ => True) h c tc ->
  exists h' itp itc,
    CostItem.add_child h p c = Ok (c, h')
    /\ repr h' p (Node d (kids ++ [tc]))
    /\ repr h' c tc
    /\ cost_items h' !! p = Some itp
    /\ cost_items h' !! c = Some itc
    /\ parent itc = Some p
    /\ schedule itc = schedule itp
    /\ last (children itp) = Some c.
Proof. apply add_child_tree. Qed.


Lemma ruwbouw_repr : repr copied_chapter_heap 0 (Node ruwbouw_data [fundering_tree]).
Proof.
  eapply repr_intro; [reflexivity | reflexivity | reflexivity |].
  repeat constructor.
  eapply repr_intro; [reflexivity | reflexivity | reflexivity |].
  repeat constructor.
  eapply repr_intro; [reflexivity | reflexivity | reflexivity | constructor].
Qed.

Lemma fundering_copy_repr :
  repr_in (fun a => a <> 0) (fun _ => True) copied_chapter_heap 3 fundering_tree.
Proof.
  eapply repr_in_intro;
    [discriminate | exact I | reflexivity | reflexivity | reflexivity |].
  repeat constructor.
  eapply repr_in_intro;
    [discriminate | exact I | reflexivity | reflexivity | reflexivity | constructor].
Qed.

Lemma add_child_extends_tree_witness :
  repr copied_chapter_heap 0 (Node ruwbouw_data [fundering_tree])
  /\ repr_in (fun a => a <> 0) (fun _ => True) copied_chapter_heap 3 fundering_tree
  /\ exists h' itp itc,
       CostItem.add_child copied_chapter_heap 0 3 = Ok (3, h')
       /\ repr h' 0 (Node ruwbouw_data ([fundering_tree] ++ [fundering_tree]))
       /\ repr h' 3 fundering_tree
       /\ cost_items h' !! 0 = Some itp
       /\ cost_items h' !! 3 = Some itc
       /\ parent itc = Some 0
       /\ schedule itc = schedule itp
       /\ last (children itp) = Some 3.
Proof.
  split; [exact ruwbouw_repr |]. split; [exact fundering_copy_repr |].
  exact (add_child_extends_tree copied_chapter_heap 0 3 ruwbouw_data
           [fundering_tree] fundering_tree ruwbouw_repr fundering_copy_repr).
Defined.


(** ** The path of an attached child *)

Lemma path_to_last (h : Heap) (x : addr) (l : list addr) :
  path_to h x l -> x ∈ l /\ is_Some (cost_items h !! x) /\ 1 <= length l.
Proof.
  intros [x' it Hit _ | x' p it l' Hit _ _].
  - split; [left | split; [eauto | simpl; lia]].
  - split; [apply elem_of_app; right; left |].
    split; [eauto | rewrite length_app; simpl; lia].
Qed.

Lemma path_frame (h h' : Heap) (x : addr) (l : list addr) :
  path_to h x l ->
  (forall a it, a ∈ l -> cost_items h !! a = Some it ->
     exists it', cost_items h' !! a = Some it' /\ parent it' = parent it) ->
  path_to h' x l.
Proof.
  induction 1 as [x it Hit Hp | x p it l Hit Hp _ IH]; intros Hf.
  - destruct (Hf x it ltac:(left) Hit) as (it' & Hit' & Hp').
    apply (path_root h' x it' Hit'). rewrite Hp'. exact Hp.
  - destruct (Hf x it ltac:(apply elem_of_app; right; left) Hit)
      as (it' & Hit' & Hp').
    apply (path_step h' x p it' l Hit'); [rewrite Hp'; exact Hp |].
    apply IH. intros a ia Ha. apply Hf. apply elem_of_app. left. exact Ha.
Qed.

Lemma add_child_path (h : Heap) (p c : addr) (l : list addr) :
  path_to h p l -> c ∉ l -> is_Some (cost_items h !! c) ->
  exists h',
    CostItem.add_child h p c = Ok (c, h')
    /\ path_to h' p l
    /\ path_to h' c (l ++ [c]).
Proof.
  intros Hp Hc [ic Hic].
  destruct (path_to_last _ _ _ Hp) as (Hpl & [ip Hip] & _).
  assert (Hne : p <> c) by (intros ->; contradiction).
  destruct (add_child_spec h p c ip ic Hip Hic Hne)
    as (h' & Hadd & Hp2 & Hc2 & Hother & _).
  assert (Hpath : path_to h' p l).
  { eapply path_frame; [exact Hp |]. intros a it Ha Hit.
    destruct (decide (a = p)) as [->|Hap].
    - eexists. split; [exact Hp2 |]. assert (it = ip) as -> by congruence.
      reflexivity.
    - exists it. split; [| reflexivity]. rewrite Hother; [exact Hit | exact Hap |].
      intros ->. contradiction. }
  exists h'. split; [exact Hadd |]. split; [exact Hpath |].
  eapply path_step; [exact Hc2 | reflexivity | exact Hpath].
Qed.

(** X8.  When [child] is added to a parent whose path from the root is [l]
    and the child is not on that path, the child's path becomes [l]
    followed by the child, and its level is the parent's level plus one. *)
Theorem add_child_level (fuel : nat) (h : Heap) (p c : addr) (l : list addr) :
  path_to h p l -> c ∉ l -> is_Some (cost_items h !! c) ->
  length l <= fuel ->
  exists (h' : Heap) (n : nat),
    CostItem.add_child h p c = Ok (c, h')
    /\ CostItem.get_path fuel h' c = Ok (l ++ [c])
    /\ CostItem.level fuel h' p = Ok n
    /\ CostItem.level fuel h' c = Ok (S n).
Proof.
  intros Hp Hc Hic Hlen.
  destruct (add_child_path h p c l Hp Hc Hic) as (h' & Hadd & Hp' & Hc').
  destruct (path_to_last _ _ _ Hp) as (_ & _ & Hl).
  exists h', (length l - 1). split; [exact Hadd |].
  split; [apply get_path_path; [exact Hc' | rewrite length_app; simpl; lia] |].
  split; [apply level_of_path; [exact Hp' | lia] |].
  rewrite (level_of_path fuel h' c (l ++ [c]) Hc')
    by (rewrite length_app; simpl; lia).
  rewrite length_app. simpl. f_equal. lia.
Qed.

Lemma copied_chapter_path : path_to copied_chapter_heap 1 [0; 1].
Proof.
  apply (path_step copied_chapter_heap 1 0 _ [0] eq_refl eq_refl).
  apply (path_root copied_chapter_heap 0 _ eq_refl eq_refl).
Qed.

Lemma add_child_level_witness :
  path_to copied_chapter_heap 1 [0; 1] /\ (3 ∉ [0; 1])
  /\ is_Some (cost_items copied_chapter_heap !! 3)
  /\ length [0; 1] <= 2
  /\ exists (h' : Heap) (n : nat),
       CostItem.add_child copied_chapter_heap 1 3 = Ok (3, h')
       /\ CostItem.get_path 2 h' 3 = Ok ([0; 1] ++ [3])
       /\ CostItem.level 2 h' 1 = Ok n
       /\ CostItem.level 2 h' 3 = Ok (S n).
Proof.
  assert (Hnot : 3 ∉ [0; 1]).
  { intros H. apply elem_of_cons in H as [H | H]; [discriminate H |].
    apply list_elem_of_singleton in H. discriminate H. }
  assert (Hsome : is_Some (cost_items copied_chapter_heap !! 3))
    by (eexists; reflexivity).
  split; [exact copied_chapter_path |]. split; [exact Hnot |].
  split; [exact Hsome |]. split; [simpl; lia |].
  apply (add_child_level 2 copied_chapter_heap 1 3 [0; 1] copied_chapter_path
           Hnot Hsome).
  simpl; lia.
Defined.

(** ** Detaching, where no sibling can be mistaken for the child *)

Lemma item_eq_differs (f : nat) (h : Heap) (x e : addr) :
  differs_by_name h x e -> item_eq (S f) h e x = Ok false.
Proof.
  intros (ie & ix & He & Hx & Hn).
  rewrite item_eq_unfold, (get_item_Ok _ _ _ He), (get_item_Ok _ _ _ Hx).
  cbn [mbind outcome_bind]. unfold item_fields_eq, item_scalars_eq.
  apply String.eqb_neq in Hn. rewrite Hn. reflexivity.
Qed.

Lemma differs_by_name_frame (h h' : Heap) (x e : addr) :
  (forall a it, cost_items h !! a = Some it ->
     exists it', cost_items h' !! a = Some it' /\ name it' = name it) ->
  differs_by_name h x e -> differs_by_name h' x e.
Proof.
  intros Hf (ie & ix & He & Hx & Hn).
  destruct (Hf e ie He) as (ie' & He' & Hne).
  destruct (Hf x ix Hx) as (ix' & Hx' & Hnx).
  exists ie', ix'. repeat split; try assumption. congruence.
Qed.

Lemma contains_skip (eq : addr -> addr -> outcome bool) (l1 l2 : list addr)
    (x : addr) :
  Forall (fun e => e <> x /\ eq e x = Ok false) l1 ->
  contains eq (l1 ++ x :: l2) x = Ok true.
Proof.
  induction 1 as [|e l1 [Hne He] _ IH]; cbn [app contains]; unfold rich.
  - rewrite decide_True by reflexivity. reflexivity.
  - rewrite decide_False by exact Hne. rewrite He. exact IH.
Qed.

Lemma contains_none (eq : addr -> addr -> outcome bool) (l : list addr) (x : addr) :
  Forall (fun e => e <> x /\ eq e x = Ok false) l ->
  contains eq l x = Ok false.
Proof.
  induction 1 as [|e l [Hne He] _ IH]; cbn [contains]; unfold rich.
  - reflexivity.
  - rewrite decide_False by exact Hne. rewrite He. exact IH.
Qed.

Lemma index_skip (eq : addr -> addr -> outcome bool) (l1 l2 : list addr)
    (x : addr) :
  Forall (fun e => e <> x /\ eq e x = Ok false) l1 ->
  index eq (l1 ++ x :: l2) x = Ok (length l1).
Proof.
  induction 1 as [|e l1 [Hne He] _ IH]; cbn [app index]; unfold rich.
  - rewrite decide_True by reflexivity. reflexivity.
  - rewrite decide_False by exact Hne. rewrite He. cbn [mbind outcome_bind].
    rewrite IH. reflexivity.
Qed.

Lemma index_none (eq : addr -> addr -> outcome bool) (l : list addr) (x : addr) :
  Forall (fun e => e <> x /\ eq e x = Ok false) l ->
  index eq l x = Raise ValueError.
Proof.
  induction 1 as [|e l [Hne He] _ IH]; cbn [index]; unfold rich.
  - reflexivity.
  - rewrite decide_False by exact Hne. rewrite He. cbn [mbind outcome_bind].
    rewrite IH. reflexivity.
Qed.

Lemma remove_skip (eq : addr -> addr -> outcome bool) (l1 l2 : list addr)
    (x : addr) :
  Forall (fun e => e <> x /\ eq e x = Ok false) l1 ->
  remove eq (l1 ++ x :: l2) x = Ok (l1 ++ l2).
Proof.
  induction 1 as [|e l1 [Hne He] _ IH]; cbn [app remove]; unfold rich.
  - rewrite decide_True by reflexivity. reflexivity.
  - rewrite decide_False by exact Hne. rewrite He. cbn [mbind outcome_bind].
    rewrite IH. reflexivity.
Qed.

Lemma other_than_eq (f : nat) (h : Heap) (x : addr) (l : list addr) :
  Forall (other_than h x) l ->
  Forall (fun e => e <> x /\ item_eq (S f) h e x = Ok false) l.
Proof.
  intros H. eapply Forall_impl; [exact H |]. cbn beta.
  intros e [Hne Hd]. split; [exact Hne | apply item_eq_differs; exact Hd].
Qed.

Lemma other_than_frame (h h' : Heap) (x : addr) (l : list addr) :
  (forall a it, cost_items h !! a = Some it ->
     exists it', cost_items h' !! a = Some it' /\ name it' = name it) ->
  Forall (other_than h x) l -> Forall (other_than h' x) l.
Proof.
  intros Hf H. eapply Forall_impl; [exact H |]. cbn beta.
  intros e [Hne Hd]. split; [exact Hne |].
  eapply differs_by_name_frame; eassumption.
Qed.

Lemma put_item_keeps_names (h : Heap) (a : addr) (old new : CostItem) :
  cost_items h !! a = Some old -> name new = name old ->
  forall b it, cost_items h !! b = Some it ->
    exists it', cost_items (put_item h a new) !! b = Some it' /\ name it' = name it.
Proof.
  intros Ha Hn b it Hb. unfold put_item. cbn [cost_items].
  destruct (decide (a = b)) as [<-|Hne].
  - rewrite lookup_insert_eq. exists new. split; [reflexivity | congruence].
  - rewrite lookup_insert_ne by exact Hne. exists it. split; [exact Hb | reflexivity].
Qed.

Lemma remove_child_found (fuel : nat) (h : Heap) (p x : addr)
    (ip ix : CostItem) (l1 l2 : list addr) :
  cost_items h !! p = Some ip -> cost_items h !! x = Some ix ->
  children ip = l1 ++ x :: l2 -> x <> p ->
  Forall (other_than h x) l1 ->
  CostItem.remove_child (S fuel) h p x
  = Ok (true,
        put_item
          (put_item h x (with_schedule (with_parent ix None) None))
          p (with_children ip (l1 ++ l2))).
Proof.
  intros Hp Hx Hc Hne Hl.
  unfold CostItem.remove_child.
  rewrite (get_item_Ok _ _ _ Hp). cbn [mbind outcome_bind]. rewrite Hc.
  rewrite (contains_skip _ _ _ _ (other_than_eq fuel h x l1 Hl)).
  cbn [mbind outcome_bind]. unfold set_parent, set_schedule, set_children.
  rewrite (get_item_Ok _ _ _ Hx). cbn [mbind outcome_bind].
  rewrite get_put_item_eq. cbn [mbind outcome_bind].
  set (h1 := put_item h x (with_parent ix None)).
  set (h2 := put_item h1 x (with_schedule (with_parent ix None) None)).
  assert (Hp2 : get_item h2 p = Ok ip).
  { unfold h2, h1. rewrite !(get_put_item_ne _ x p _ Hne).
    apply get_item_Ok, Hp. }
  rewrite Hp2. cbn [mbind outcome_bind]. rewrite Hc.
  assert (Hl2 : Forall (other_than h2 x) l1).
  { eapply other_than_frame; [| exact Hl].
    intros a it Ha.
    destruct (put_item_keeps_names h x ix (with_parent ix None) Hx eq_refl a it Ha)
      as (it1 & Hit1 & Hn1).
    assert (Hx1 : cost_items h1 !! x = Some (with_parent ix None))
      by (unfold h1, put_item; cbn [cost_items]; apply lookup_insert_eq).
    destruct (put_item_keeps_names h1 x _ (with_schedule (with_parent ix None) None)
                Hx1 eq_refl a it1 Hit1) as (it2 & Hit2 & Hn2).
    exists it2. split; [exact Hit2 | congruence]. }
  rewrite (remove_skip _ _ _ _ (other_than_eq fuel h2 x l1 Hl2)).
  cbn [mbind outcome_bind].
  unfold h2, h1, put_item. cbn [cost_items cost_values schedules].
  rewrite insert_insert_eq. reflexivity.
Qed.

(** X9.  [remove_child(child)] for a child of the parent, when every sibling
    listed before it is another object with another name: it returns true,
    only the first occurrence of the child leaves the parent's children
    (the others keep their order), and the child's [parent] and [schedule]
    are cleared; nothing else in the store changes. *)
Theorem remove_child_detaches (fuel : nat) (h : Heap) (p x : addr)
    (ip ix : CostItem) (l1 l2 : list addr) :
  cost_items h !! p = Some ip -> cost_items h !! x = Some ix ->
  children ip = l1 ++ x :: l2 -> x <> p ->
  Forall (other_than h x) l1 ->
  CostItem.remove_child (S fuel) h p x
  = Ok (true,
        put_item
          (put_item h x (with_schedule (with_parent ix None) None))
          p (with_children ip (l1 ++ l2))).
Proof. apply remove_child_found. Qed.

Lemma remove_child_absent (fuel : nat) (h : Heap) (p x : addr) (ip : CostItem) :
  cost_items h !! p = Some ip ->
  Forall (other_than h x) (children ip) ->
  CostItem.remove_child (S fuel) h p x = Ok (false, h).
Proof.
  intros Hp Hl. unfold CostItem.remove_child.
  rewrite (get_item_Ok _ _ _ Hp). cbn [mbind outcome_bind].
  rewrite (contains_none _ _ _ (other_than_eq fuel h x _ Hl)). reflexivity.
Qed.

(** X10.  [remove_child(c)] returns false and leaves the store as it is when
    every child of the parent is another object than [c] with another
    name. *)
Theorem remove_child_refuses_stranger (fuel : nat) (h : Heap) (p x : addr)
    (ip : CostItem) :
  cost_items h !! p = Some ip ->
  Forall (other_than h x) (children ip) ->
  CostItem.remove_child (S fuel) h p x = Ok (false, h).
Proof. apply remove_child_absent. Qed.

Lemma three_leaves_other (x e : addr) (ie ix : CostItem) :
  cost_items three_leaves_heap !! e = Some ie ->
  cost_items three_leaves_heap !! x = Some ix ->
  e <> x -> String.eqb (name ie) (name ix) = false ->
  other_than three_leaves_heap x e.
Proof.
  intros He Hx Hne Hn. split; [exact Hne |].
  exists ie, ix. repeat split; try assumption. apply String.eqb_neq, Hn.
Qed.

Lemma remove_child_detaches_witness :
  Forall (other_than three_leaves_heap 3) [1; 2]
  /\ CostItem.remove_child 1 three_leaves_heap 0 3
     = Ok (true,
           put_item
             (put_item three_leaves_heap 3
                (with_schedule
                   (with_parent
                      (mkCostItem "Daken" "" "02.03" "" "" false 3 [] (Some 0) None None)
                      None) None))
             0 (with_children
                  (mkCostItem "Ruwbouw" "" "02" "" "" false 0 [1; 2; 3] None None None)
                  ([1; 2] ++ []))).
Proof.
  assert (Hl : Forall (other_than three_leaves_heap 3) [1; 2]).
  { repeat constructor;
      (eapply three_leaves_other;
       [reflexivity | reflexivity | discriminate | reflexivity]). }
  split; [exact Hl |].
  apply (remove_child_detaches 0 three_leaves_heap 0 3 _ _ [1; 2] []);
    [reflexivity | reflexivity | reflexivity | discriminate | exact Hl].
Defined.

Lemma remove_child_refuses_stranger_witness :
  Forall (other_than three_leaves_heap 4) [1; 2; 3]
  /\ CostItem.remove_child 1 three_leaves_heap 0 4 = Ok (false, three_leaves_heap).
Proof.
  assert (Hl : Forall (other_than three_leaves_heap 4) [1; 2; 3]).
  { repeat constructor;
      (eapply three_leaves_other;
       [reflexivity | reflexivity | discriminate | reflexivity]). }
  split; [exact Hl |].
  apply (remove_child_refuses_stranger 0 three_leaves_heap 0 4 _ eq_refl Hl).
Defined.

(** ** Attach, then detach *)

Lemma heap_eq (h h' : Heap) :
  (forall a, cost_items h !! a = cost_items h' !! a) ->
  cost_values h = cost_values h' -> schedules h = schedules h' -> h = h'.
Proof.
  destruct h, h'. cbn [cost_items cost_values schedules].
  intros Hi -> ->. f_equal. apply map_eq, Hi.
Qed.

Lemma add_child_explicit (h : Heap) (p x : addr) (ip ix : CostItem) :
  cost_items h !! p = Some ip -> cost_items h !! x = Some ix -> x <> p ->
  CostItem.add_child h p x
  = Ok (x, put_item
             (put_item h x (with_schedule (with_parent ix (Some p)) (schedule ip)))
             p (with_children ip (children ip ++ [x]))).
Proof.
  intros Hp Hx Hne. unfold CostItem.add_child, set_parent, set_schedule, set_children.
  rewrite (get_item_Ok _ _ _ Hx). cbn [mbind outcome_bind].
  rewrite (get_put_item_ne h x p _ Hne), (get_item_Ok _ _ _ Hp).
  cbn [mbind outcome_bind]. rewrite get_put_item_eq. cbn [mbind outcome_bind].
  rewrite !(get_put_item_ne _ x p _ Hne), (get_item_Ok _ _ _ Hp).
  cbn [mbind outcome_bind].
  unfold put_item. cbn [cost_items cost_values schedules].
  rewrite insert_insert_eq. reflexivity.
Qed.

(** X11.  Attach and detach: for a detached item [x] (no parent, no
    schedule) and a parent none of whose children is [x] or has the name of
    [x], [parent.add_child(x)] followed by [parent.remove_child(x)] returns
    true and gives back exactly the store from before. *)
Theorem add_then_remove_restores (fuel : nat) (h : Heap) (p x : addr)
    (ip ix : CostItem) :
  cost_items h !! p = Some ip -> cost_items h !! x = Some ix ->
  parent ix = None -> schedule ix = None -> x <> p ->
  Forall (other_than h x) (children ip) ->
  exists h1,
    CostItem.add_child h p x = Ok (x, h1)
    /\ CostItem.remove_child (S fuel) h1 p x = Ok (true, h).
Proof.
  intros Hp Hx Hpar Hsch Hne Hl.
  eexists. split; [apply add_child_explicit; eassumption |].
  set (ix1 := with_schedule (with_parent ix (Some p)) (schedule ip)).
  set (ip1 := with_children ip (children ip ++ [x])).
  set (h1 := put_item (put_item h x ix1) p ip1).
  assert (Hp1 : cost_items h1 !! p = Some ip1)
    by (unfold h1, put_item; cbn [cost_items]; apply lookup_insert_eq).
  assert (Hx1 : cost_items h1 !! x = Some ix1).
  { unfold h1, put_item. cbn [cost_items].
    rewrite lookup_insert_ne by congruence. apply lookup_insert_eq. }
  assert (Hl1 : Forall (other_than h1 x) (children ip)).
  { eapply other_than_frame; [| exact Hl]. intros a it Ha.
    destruct (put_item_keeps_names h x ix ix1 Hx eq_refl a it Ha)
      as (it1 & Hit1 & Hn1).
    assert (Hp0 : cost_items (put_item h x ix1) !! p = Some ip).
    { unfold put_item. cbn [cost_items].
      rewrite lookup_insert_ne by exact Hne. exact Hp. }
    destruct (put_item_keeps_names _ p ip ip1 Hp0 eq_refl a it1 Hit1)
      as (it2 & Hit2 & Hn2).
    exists it2. split; [exact Hit2 | congruence]. }
  rewrite (remove_child_found fuel h1 p x ip1 ix1 (children ip) []
             Hp1 Hx1 eq_refl Hne Hl1).
  f_equal. f_equal. apply heap_eq; [| reflexivity | reflexivity].
  intros a. unfold h1, put_item. cbn [cost_items].
  destruct (decide (a = p)) as [->|Hap].
  - rewrite lookup_insert_eq, Hp. f_equal.
    unfold ip1. rewrite app_nil_r. destruct ip; reflexivity.
  - rewrite lookup_insert_ne by congruence.
    destruct (decide (a = x)) as [->|Hax].
    + rewrite lookup_insert_eq, Hx. f_equal.
      unfold ix1. destruct ix; cbn in *. subst. reflexivity.
    + rewrite !lookup_insert_ne by congruence. reflexivity.
Qed.

Lemma add_then_remove_restores_witness :
  Forall (other_than three_leaves_heap 4) [1; 2; 3]
  /\ exists h1,
       CostItem.add_child three_leaves_heap 0 4 = Ok (4, h1)
       /\ CostItem.remove_child 1 h1 0 4 = Ok (true, three_leaves_heap).
Proof.
  assert (Hl : Forall (other_than three_leaves_heap 4) [1; 2; 3]).
  { repeat constructor;
      (eapply three_leaves_other;
       [reflexivity | reflexivity | discriminate | reflexivity]). }
  split; [exact Hl |].
  apply (add_then_remove_restores 0 three_leaves_heap 0 4 _ _ eq_refl eq_refl);
    [reflexivity | reflexivity | discriminate | exact Hl].
Defined.

(** ** Moving a child among its siblings *)

Lemma py_insert_at {A : Type} (l1 l2 : list A) (x : A) :
  py_insert (Z.of_nat (length l1)) x (l1 ++ l2) = l1 ++ x :: l2.
Proof.
  unfold py_insert.
  assert (H0 : (Z.of_nat (length l1) <? 0)%Z = false) by (apply Z.ltb_ge; lia).
  rewrite H0. cbn zeta. rewrite H0.
  assert (H1 : (Z.of_nat (length (l1 ++ l2)) <? Z.of_nat (length l1))%Z = false).
  { apply Z.ltb_ge. rewrite length_app. lia. }
  rewrite H1, Nat2Z.id.
  rewrite take_app_length, drop_app_length. reflexivity.
Qed.

Lemma put_item_twice (h : Heap) (a : addr) (it1 it2 : CostItem) :
  put_item (put_item h a it1) a it2 = put_item h a it2.
Proof.
  unfold put_item. cbn [cost_items cost_values schedules].
  rewrite insert_insert_eq. reflexivity.
Qed.

Lemma with_children_twice (it : CostItem) (l l' : list addr) :
  with_children (with_children it l) l' = with_children it l'.
Proof. reflexivity. Qed.

Lemma put_item_same (h : Heap) (a : addr) (it : CostItem) :
  cost_items h !! a = Some it -> put_item h a it = h.
Proof.
  intros H. destruct h. unfold put_item. cbn [cost_items cost_values schedules] in *.
  rewrite (insert_id _ _ _ H). reflexivity.
Qed.

Lemma get_child_index_found (fuel : nat) (h : Heap) (p x : addr) (ip : CostItem)
    (l1 l2 : list addr) :
  cost_items h !! p = Some ip -> children ip = l1 ++ x :: l2 ->
  Forall (other_than h x) l1 ->
  CostItem.get_child_index (S fuel) h p x = Ok (Z.of_nat (length l1)).
Proof.
  intros Hp Hc Hl. unfold CostItem.get_child_index.
  rewrite (get_item_Ok _ _ _ Hp). cbn [mbind outcome_bind]. rewrite Hc.
  rewrite (index_skip _ _ _ _ (other_than_eq fuel h x l1 Hl)). reflexivity.
Qed.

Lemma move_up_explicit (fuel : nat) (h : Heap) (p x a : addr) (ip ix : CostItem)
    (l1 l2 : list addr) :
  cost_items h !! x = Some ix -> parent ix = Some p ->
  cost_items h !! p = Some ip -> children ip = l1 ++ a :: x :: l2 ->
  Forall (other_than h x) (l1 ++ [a]) ->
  CostItem.move_up (S fuel) h x
  = Ok (true, put_item h p (with_children ip (l1 ++ x :: a :: l2))).
Proof.
  intros Hx Hpar Hp Hc Hl.
  assert (Hc' : children ip = (l1 ++ [a]) ++ x :: l2)
    by (rewrite Hc, <- app_assoc; reflexivity).
  unfold CostItem.move_up.
  rewrite (get_item_Ok _ _ _ Hx). cbn [mbind outcome_bind]. rewrite Hpar.
  rewrite (get_child_index_found fuel h p x ip _ _ Hp Hc' Hl).
  cbn [mbind outcome_bind].
  assert (Hpos : (Z.of_nat (length (l1 ++ [a])) <=? 0)%Z = false).
  { apply Z.leb_gt. rewrite length_app. simpl. lia. }
  rewrite Hpos, (get_item_Ok _ _ _ Hp). cbn [mbind outcome_bind]. rewrite Hc'.
  rewrite (remove_skip _ _ _ _ (other_than_eq fuel h x _ Hl)).
  cbn [mbind outcome_bind]. unfold set_children.
  rewrite (get_item_Ok _ _ _ Hp). cbn [mbind outcome_bind].
  rewrite !get_put_item_eq. cbn [mbind outcome_bind with_children children].
  rewrite put_item_twice.
  replace (Z.of_nat (length (l1 ++ [a])) - 1)%Z with (Z.of_nat (length l1))
    by (rewrite length_app; simpl; lia).
  rewrite <- app_assoc. rewrite py_insert_at, with_children_twice. reflexivity.
Qed.

Lemma move_down_explicit (fuel : nat) (h : Heap) (p x b : addr) (ip ix : CostItem)
    (l1 l2 : list addr) :
  cost_items h !! x = Some ix -> parent ix = Some p ->
  cost_items h !! p = Some ip -> children ip = l1 ++ x :: b :: l2 ->
  Forall (other_than h x) l1 ->
  CostItem.move_down (S fuel) h x
  = Ok (true, put_item h p (with_children ip (l1 ++ b :: x :: l2))).
Proof.
  intros Hx Hpar Hp Hc Hl.
  unfold CostItem.move_down.
  rewrite (get_item_Ok _ _ _ Hx). cbn [mbind outcome_bind]. rewrite Hpar.
  rewrite (get_child_index_found fuel h p x ip _ _ Hp Hc Hl).
  cbn [mbind outcome_bind]. rewrite (get_item_Ok _ _ _ Hp).
  cbn [mbind outcome_bind].
  assert (Hin : ((Z.of_nat (length l1) <? 0)
                 || (Z.of_nat (length (children ip)) - 1 <=? Z.of_nat (length l1)))%Z
                = false).
  { apply orb_false_intro; [apply Z.ltb_ge; lia |].
    apply Z.leb_gt. rewrite Hc, length_app. simpl. lia. }
  rewrite Hin, Hc.
  rewrite (remove_skip _ _ _ _ (other_than_eq fuel h x _ Hl)).
  cbn [mbind outcome_bind]. unfold set_children.
  rewrite (get_item_Ok _ _ _ Hp). cbn [mbind outcome_bind].
  rewrite !get_put_item_eq. cbn [mbind outcome_bind with_children children].
  rewrite put_item_twice.
  replace (Z.of_nat (length l1) + 1)%Z with (Z.of_nat (length (l1 ++ [b])))
    by (rewrite length_app; simpl; lia).
  replace (l1 ++ b :: l2) with ((l1 ++ [b]) ++ l2)
    by (rewrite <- app_assoc; reflexivity).
  rewrite py_insert_at, with_children_twice, <- app_assoc. reflexivity.
Qed.

(** X12.  [move_up] on a child that has a sibling [a] right before it, when
    every sibling up to and including [a] is another object with another
    name: it returns true and exchanges the child with [a]; the other
    children and the rest of the store stay as they are. *)
Theorem move_up_swaps (fuel : nat) (h : Heap) (p x a : addr) (ip ix : CostItem)
    (l1 l2 : list addr) :
  cost_items h !! x = Some ix -> parent ix = Some p ->
  cost_items h !! p = Some ip -> children ip = l1 ++ a :: x :: l2 ->
  Forall (other_than h x) (l1 ++ [a]) ->
  CostItem.move_up (S fuel) h x
  = Ok (true, put_item h p (with_children ip (l1 ++ x :: a :: l2))).
Proof. apply move_up_explicit. Qed.

(** X13.  [move_down] on a child that has a sibling [b] right after it, when
    every sibling before the child is another object with another name: it
    returns true and exchanges the child with [b]; the other children and
    the rest of the store stay as they are. *)
Theorem move_down_swaps (fuel : nat) (h : Heap) (p x b : addr) (ip ix : CostItem)
    (l1 l2 : list addr) :
  cost_items h !! x = Some ix -> parent ix = Some p ->
  cost_items h !! p = Some ip -> children ip = l1 ++ x :: b :: l2 ->
  Forall (other_than h x) l1 ->
  CostItem.move_down (S fuel) h x
  = Ok (true, put_item h p (with_children ip (l1 ++ b :: x :: l2))).
Proof. apply move_down_explicit. Qed.

Lemma three_leaves_move_up_witness_aux :
  Forall (other_than three_leaves_heap 3) ([1] ++ [2]).
Proof.
  repeat constructor;
    (eapply three_leaves_other;
     [reflexivity | reflexivity | discriminate | reflexivity]).
Qed.

Lemma move_up_swaps_witness :
  Forall (other_than three_leaves_heap 3) ([1] ++ [2])
  /\ CostItem.move_up 1 three_leaves_heap 3
     = Ok (true,
           put_item three_leaves_heap 0
             (with_children
                (mkCostItem "Ruwbouw" "" "02" "" "" false 0 [1; 2; 3] None None None)
                ([1] ++ 3 :: 2 :: []))).
Proof.
  split; [exact three_leaves_move_up_witness_aux |].
  apply (move_up_swaps 0 three_leaves_heap 0 3 2 _ _ [1] []
           eq_refl eq_refl eq_refl eq_refl three_leaves_move_up_witness_aux).
Defined.

Lemma move_down_swaps_witness :
  Forall (other_than three_leaves_heap 2) [1]
  /\ CostItem.move_down 1 three_leaves_heap 2
     = Ok (true,
           put_item three_leaves_heap 0
             (with_children
                (mkCostItem "Ruwbouw" "" "02" "" "" false 0 [1; 2; 3] None None None)
                ([1] ++ 3 :: 2 :: []))).
Proof.
  assert (Hl : Forall (other_than three_leaves_heap 2) [1]).
  { repeat constructor;
      (eapply three_leaves_other;
       [reflexivity | reflexivity | discriminate | reflexivity]). }
  split; [exact Hl |].
  apply (move_down_swaps 0 three_leaves_heap 0 2 3 _ _ [1] []
           eq_refl eq_refl eq_refl eq_refl Hl).
Defined.

(** X14.  [move_up] followed by [move_down] on the same child gives back
    exactly the store from before, under the conditions of X12 and for a
    child that is not its own parent. *)
Theorem move_up_then_down_restores (fuel : nat) (h : Heap) (p x a : addr)
    (ip ix : CostItem) (l1 l2 : list addr) :
  cost_items h !! x = Some ix -> parent ix = Some p ->
  cost_items h !! p = Some ip -> children ip = l1 ++ a :: x :: l2 ->
  Forall (other_than h x) (l1 ++ [a]) -> x <> p ->
  exists h1,
    CostItem.move_up (S fuel) h x = Ok (true, h1)
    /\ CostItem.move_down (S fuel) h1 x = Ok (true, h).
Proof.
  intros Hx Hpar Hp Hc Hl Hne.
  eexists. split; [eapply move_up_explicit; eassumption |].
  set (ip1 := with_children ip (l1 ++ x :: a :: l2)).
  assert (Hx1 : cost_items (put_item h p ip1) !! x = Some ix).
  { unfold put_item. cbn [cost_items].
    rewrite lookup_insert_ne by congruence. exact Hx. }
  assert (Hp1 : cost_items (put_item h p ip1) !! p = Some ip1)
    by (unfold put_item; cbn [cost_items]; apply lookup_insert_eq).
  assert (Hl1 : Forall (other_than (put_item h p ip1) x) l1).
  { apply Forall_app in Hl as [Hl _].
    eapply other_than_frame; [| exact Hl].
    apply (put_item_keeps_names h p ip ip1 Hp eq_refl). }
  rewrite (move_down_explicit fuel _ p x a ip1 ix l1 l2 Hx1 Hpar Hp1 eq_refl Hl1).
  rewrite put_item_twice. unfold ip1. rewrite with_children_twice, <- Hc.
  f_equal. f_equal. apply put_item_same.
  rewrite Hp. f_equal. destruct ip; reflexivity.
Qed.

Lemma move_up_then_down_restores_witness :
  Forall (other_than three_leaves_heap 3) ([1] ++ [2]) /\ 3 <> 0
  /\ exists h1,
       CostItem.move_up 1 three_leaves_heap 3 = Ok (true, h1)
       /\ CostItem.move_down 1 h1 3 = Ok (true, three_leaves_heap).
Proof.
  split; [exact three_leaves_move_up_witness_aux |]. split; [discriminate |].
  apply (move_up_then_down_restores 0 three_leaves_heap 0 3 2 _ _ [1] []
           eq_refl eq_refl eq_refl eq_refl three_leaves_move_up_witness_aux).
  discriminate.
Defined.

(** ** Moving a child in the tree of its parent *)






(** Scenario C of the specification: the order becomes leaf 1, leaf 3,
    leaf 2 and the subtotal stays 600. *)
Example scenario_c :
  exists h',
    CostItem.move_up 1 three_leaves_heap 3 = Ok (true, h')
    /\ get_item h' 0
       = Ok (mkCostItem "Ruwbouw" "" "02" "" "" false 0 [1; 3; 2] None None None)
    /\ CostItem.subtotal 2 three_leaves_heap 0 = Ok (600 # 1)%Q
    /\ CostItem.subtotal 2 h' 0 = Ok (600 # 1)%Q.
Proof.
  eexists. split; [vm_compute; reflexivity |].
  repeat split; vm_compute; reflexivity.
Qed.

(** ** Inserting at an index *)

Lemma as_ssize_t_fits (i : Z) :
  (- maxsize - 1 <= i <= maxsize)%Z -> as_ssize_t i = Ok i.
Proof.
  intros [H1 H2]. unfold as_ssize_t.
  apply Z.leb_le in H1, H2. rewrite H1, H2. reflexivity.
Qed.

Lemma as_ssize_t_overflow (i : Z) :
  ~ (- maxsize - 1 <= i <= maxsize)%Z -> as_ssize_t i = Raise OverflowError.
Proof.
  intros H. unfold as_ssize_t.
  destruct (- maxsize - 1 <=? i)%Z eqn:E1; [| reflexivity].
  destruct (i <=? maxsize)%Z eqn:E2; [| reflexivity].
  apply Z.leb_le in E1, E2. exfalso. apply H. split; assumption.
Qed.

Lemma insert_child_steps (h : Heap) (p x : addr) (i : Z) (ip ix : CostItem) :
  cost_items h !! p = Some ip -> cost_items h !! x = Some ix -> x <> p ->
  CostItem.insert_child h p i x
  = l ← list_insert i x (children ip);
    Ok (x, put_item
             (put_item h x (with_schedule (with_parent ix (Some p)) (schedule ip)))
             p (with_children ip l)).
Proof.
  intros Hp Hx Hne.
  unfold CostItem.insert_child, set_parent, set_schedule, set_children.
  rewrite (get_item_Ok _ _ _ Hx). cbn [mbind outcome_bind].
  rewrite (get_put_item_ne h x p _ Hne), (get_item_Ok _ _ _ Hp).
  cbn [mbind outcome_bind]. rewrite get_put_item_eq. cbn [mbind outcome_bind].
  rewrite !(get_put_item_ne _ x p _ Hne), (get_item_Ok _ _ _ Hp).
  cbn [mbind outcome_bind].
  destruct (list_insert i x (children ip)) as [l| |]; cbn [mbind outcome_bind];
    [| reflexivity | reflexivity].
  unfold put_item. cbn [cost_items cost_values schedules].
  rewrite insert_insert_eq. reflexivity.
Qed.

Lemma insert_child_explicit (h : Heap) (p x : addr) (i : Z) (ip ix : CostItem) :
  cost_items h !! p = Some ip -> cost_items h !! x = Some ix -> x <> p ->
  (- maxsize - 1 <= i <= maxsize)%Z ->
  CostItem.insert_child h p i x
  = Ok (x, put_item
             (put_item h x (with_schedule (with_parent ix (Some p)) (schedule ip)))
             p (with_children ip (py_insert i x (children ip)))).
Proof.
  intros Hp Hx Hne Hi.
  rewrite (insert_child_steps h p x i ip ix Hp Hx Hne).
  unfold list_insert. rewrite (as_ssize_t_fits i Hi). reflexivity.
Qed.

Lemma insert_child_overflow (h : Heap) (p x : addr) (i : Z) (ip ix : CostItem) :
  cost_items h !! p = Some ip -> cost_items h !! x = Some ix -> x <> p ->
  ~ (- maxsize - 1 <= i <= maxsize)%Z ->
  CostItem.insert_child h p i x = Raise OverflowError.
Proof.
  intros Hp Hx Hne Hi.
  rewrite (insert_child_steps h p x i ip ix Hp Hx Hne).
  unfold list_insert. rewrite (as_ssize_t_overflow i Hi). reflexivity.
Qed.

Lemma py_insert_past_end {A : Type} (i : Z) (x : A) (l : list A) :
  (Z.of_nat (length l) <= i)%Z -> py_insert i x l = l ++ [x].
Proof.
  intros Hi. unfold py_insert.
  assert (H0 : (i <? 0)%Z = false) by (apply Z.ltb_ge; lia).
  rewrite H0. cbn zeta. rewrite H0.
  destruct (Z.of_nat (length l) <? i)%Z eqn:E.
  - rewrite Nat2Z.id, firstn_all, drop_all. reflexivity.
  - apply Z.ltb_ge in E. assert (i = Z.of_nat (length l)) as -> by lia.
    rewrite Nat2Z.id, firstn_all, drop_all. reflexivity.
Qed.

Lemma py_insert_before_start {A : Type} (i : Z) (x : A) (l : list A) :
  (i <= - Z.of_nat (length l))%Z -> py_insert i x l = x :: l.
Proof.
  intros Hi. unfold py_insert.
  destruct (i <? 0)%Z eqn:E0.
  - cbn zeta.
    destruct (i + Z.of_nat (length l) <? 0)%Z eqn:E1.
    + assert (E2 : (Z.of_nat (length l) <? 0)%Z = false) by (apply Z.ltb_ge; lia).
      rewrite E2. reflexivity.
    + apply Z.ltb_ge in E1.
      assert (i + Z.of_nat (length l) = 0)%Z as -> by lia.
      assert (E2 : (Z.of_nat (length l) <? 0)%Z = false) by (apply Z.ltb_ge; lia).
      rewrite E2. reflexivity.
  - apply Z.ltb_ge in E0.
    assert (i = 0%Z) as -> by lia. assert (length l = 0) by lia.
    destruct l; [reflexivity | discriminate].
Qed.

Lemma py_insert_inside {A : Type} (i : Z) (x : A) (l : list A) :
  (0 <= i <= Z.of_nat (length l))%Z ->
  py_insert i x l = take (Z.to_nat i) l ++ x :: drop (Z.to_nat i) l.
Proof.
  intros Hi. unfold py_insert.
  assert (H0 : (i <? 0)%Z = false) by (apply Z.ltb_ge; lia).
  rewrite H0. cbn zeta. rewrite H0.
  assert (H1 : (Z.of_nat (length l) <? i)%Z = false) by (apply Z.ltb_ge; lia).
  rewrite H1. reflexivity.
Qed.

Lemma py_insert_from_end {A : Type} (i : Z) (x : A) (l : list A) :
  (- Z.of_nat (length l) <= i < 0)%Z ->
  py_insert i x l
  = take (Z.to_nat (Z.of_nat (length l) + i)) l
    ++ x :: drop (Z.to_nat (Z.of_nat (length l) + i)) l.
Proof.
  intros Hi. unfold py_insert.
  assert (H0 : (i <? 0)%Z = true) by (apply Z.ltb_lt; lia).
  rewrite H0. cbn zeta.
  assert (H1 : (i + Z.of_nat (length l) <? 0)%Z = false) by (apply Z.ltb_ge; lia).
  rewrite H1.
  assert (H2 : (Z.of_nat (length l) <? i + Z.of_nat (length l))%Z = false)
    by (apply Z.ltb_ge; lia).
  rewrite H2. rewrite (Z.add_comm i). reflexivity.
Qed.

(** X16.  [insert_child(index, child)] for an index that fits a
    [Py_ssize_t] does not raise, whatever the length of the list: with [n]
    the number of children, an index of [n] or more appends the child (the
    call then equals [add_child]), an index of [-n] or less puts it first,
    an index from 0 to [n] puts it at that position, and a negative index
    above [-n] counts from the end.  For an index that does not fit, the
    call raises [OverflowError]. *)
Theorem insert_child_clamps (h : Heap) (p x : addr) (i : Z) (ip ix : CostItem) :
  cost_items h !! p = Some ip -> cost_items h !! x = Some ix -> x <> p ->
  ((- maxsize - 1 <= i <= maxsize)%Z ->
   exists l',
     CostItem.insert_child h p i x
     = Ok (x, put_item
                (put_item h x (with_schedule (with_parent ix (Some p)) (schedule ip)))
                p (with_children ip l'))
     /\ ((Z.of_nat (length (children ip)) <= i)%Z ->
         l' = children ip ++ [x]
         /\ CostItem.insert_child h p i x = CostItem.add_child h p x)
     /\ ((i <= - Z.of_nat (length (children ip)))%Z -> l' = x :: children ip)
     /\ ((0 <= i <= Z.of_nat (length (children ip)))%Z ->
         l' = take (Z.to_nat i) (children ip) ++ x :: drop (Z.to_nat i) (children ip))
     /\ ((- Z.of_nat (length (children ip)) <= i < 0)%Z ->
         l' = take (Z.to_nat (Z.of_nat (length (children ip)) + i)) (children ip)
              ++ x :: drop (Z.to_nat (Z.of_nat (length (children ip)) + i))
                       (children ip)))
  /\ (~ (- maxsize - 1 <= i <= maxsize)%Z ->
      CostItem.insert_child h p i x = Raise OverflowError).
Proof.
  intros Hp Hx Hne. split.
  - intros Hfit. exists (py_insert i x (children ip)).
    pose proof (insert_child_explicit h p x i ip ix Hp Hx Hne Hfit) as Hins.
    split; [exact Hins |]. split; [| split; [| split]].
    + intros Hi. split; [apply py_insert_past_end, Hi |].
      rewrite Hins, (add_child_explicit h p x ip ix Hp Hx Hne).
      rewrite (py_insert_past_end _ _ _ Hi). reflexivity.
    + apply py_insert_before_start.
    + apply py_insert_inside.
    + apply py_insert_from_end.
  - apply (insert_child_overflow h p x i ip ix Hp Hx Hne).
Qed.

Lemma insert_child_clamps_witness :
  4 <> 0
  /\ ((- maxsize - 1 <= 99 <= maxsize)%Z ->
      exists l',
        CostItem.insert_child three_leaves_heap 0 99 4
        = Ok (4, put_item
                   (put_item three_leaves_heap 4
                      (with_schedule
                         (with_parent
                            (mkCostItem "Gevel" "" "02.04" "" "" false 4 [] None None None)
                            (Some 0)) None))
                   0 (with_children
                        (mkCostItem "Ruwbouw" "" "02" "" "" false 0 [1; 2; 3] None None None)
                        l'))
        /\ ((3 <= 99)%Z ->
            l' = [1; 2; 3] ++ [4]
            /\ CostItem.insert_child three_leaves_heap 0 99 4
               = CostItem.add_child three_leaves_heap 0 4)
        /\ ((99 <= - 3)%Z -> l' = 4 :: [1; 2; 3])
        /\ ((0 <= 99 <= 3)%Z ->
            l' = take (Z.to_nat 99) [1; 2; 3] ++ 4 :: drop (Z.to_nat 99) [1; 2; 3])
        /\ ((- 3 <= 99 < 0)%Z ->
            l' = take (Z.to_nat (3 + 99)) [1; 2; 3]
                 ++ 4 :: drop (Z.to_nat (3 + 99)) [1; 2; 3]))
  /\ (~ (- maxsize - 1 <= 99 <= maxsize)%Z ->
      CostItem.insert_child three_leaves_heap 0 99 4 = Raise OverflowError).
Proof.
  split; [discriminate |].
  apply (insert_child_clamps three_leaves_heap 0 4 99 _ _ eq_refl eq_refl).
  discriminate.
Defined.

(** The two sides of the limit, on the same list. *)
Example insert_child_at_the_limit :
  (exists h', CostItem.insert_child three_leaves_heap 0 (2 ^ 63 - 1) 4 = Ok (4, h')
              /\ get_item h' 0
                 = Ok (mkCostItem "Ruwbouw" "" "02" "" "" false 0 [1; 2; 3; 4]
                         None None None))
  /\ CostItem.insert_child three_leaves_heap 0 (2 ^ 63) 4 = Raise OverflowError
  /\ CostItem.insert_child three_leaves_heap 0 (- 2 ^ 63 - 1) 4 = Raise OverflowError.
Proof.
  split; [eexists; split; vm_compute; reflexivity |].
  split; vm_compute; reflexivity.
Qed.

(** X17.  [get_child_index(child)], when the children listed before a
    position are other objects with other names than [child]: it is that
    position if the child stands there, and [-1] if the list ends there
    without the child. *)
Theorem get_child_index_position (fuel : nat) (h : Heap) (p x : addr)
    (ip : CostItem) (l1 : list addr) :
  cost_items h !! p = Some ip ->
  Forall (other_than h x) l1 ->
  (forall l2, children ip = l1 ++ x :: l2 ->
     CostItem.get_child_index (S fuel) h p x = Ok (Z.of_nat (length l1)))
  /\ (children ip = l1 ->
      CostItem.get_child_index (S fuel) h p x = Ok (-1)%Z).
Proof.
  intros Hp Hl. split.
  - intros l2 Hc. eapply get_child_index_found; eassumption.
  - intros Hc. unfold CostItem.get_child_index.
    rewrite (get_item_Ok _ _ _ Hp). cbn [mbind outcome_bind]. rewrite Hc.
    rewrite (index_none _ _ _ (other_than_eq fuel h x l1 Hl)). reflexivity.
Qed.

Lemma get_child_index_position_witness :
  Forall (other_than three_leaves_heap 4) [1; 2; 3]
  /\ (forall l2, [1; 2; 3] = [1; 2; 3] ++ 4 :: l2 ->
        CostItem.get_child_index 1 three_leaves_heap 0 4
        = Ok (Z.of_nat (length [1; 2; 3])))
  /\ ([1; 2; 3] = [1; 2; 3] ->
      CostItem.get_child_index 1 three_leaves_heap 0 4 = Ok (-1)%Z).
Proof.
  assert (Hl : Forall (other_than three_leaves_heap 4) [1; 2; 3]).
  { repeat constructor;
      (eapply three_leaves_other;
       [reflexivity | reflexivity | discriminate | reflexivity]). }
  split; [exact Hl |].
  apply (get_child_index_position 0 three_leaves_heap 0 4 _ [1; 2; 3] eq_refl Hl).
Defined.

(** ** Root items of a schedule *)

Lemma add_item_explicit (h : Heap) (s x : addr) (sc : CostSchedule) (ix : CostItem) :
  schedules h !! s = Some sc -> cost_items h !! x = Some ix ->
  CostSchedule.add_item h s x
  = Ok (x, put_schedule
             (put_item h x (with_parent (with_schedule ix (Some s)) None))
             s (with_items sc (items sc ++ [x]))).
Proof.
  intros Hs Hx.
  unfold CostSchedule.add_item, set_schedule, set_parent, set_items.
  rewrite (get_item_Ok _ _ _ Hx). cbn [mbind outcome_bind].
  rewrite get_put_item_eq. cbn [mbind outcome_bind].
  rewrite put_item_twice.
  assert (Hs' : forall it, get_schedule (put_item h x it) s = Ok sc)
    by (intros it; apply get_schedule_Ok; exact Hs).
  rewrite !Hs'. reflexivity.
Qed.

Lemma item_count_forest (fuel : nat) (h : Heap) (s : addr) (sc : CostSchedule)
    (ts : list CostTree) :
  schedules h !! s = Some sc ->
  Forall2 (repr h) (items sc) ts ->
  Forall (fun t => height t <= fuel) ts ->
  CostSchedule.item_count fuel h s = Ok (forest_size ts).
Proof.
  intros Hs Hr Hh. unfold CostSchedule.item_count.
  rewrite (get_schedule_Ok _ _ _ Hs). cbn [mbind outcome_bind].
  rewrite (count_loop_length fuel h (items sc) [] 0 eq_refl).
  destruct (descendants_loop fuel h _ _
              (fun x t => get_all_descendants_repr fuel h x t) Hr Hh [])
    as (r & Hr' & Hlen).
  rewrite Hr'. cbn [fmap outcome_fmap]. f_equal. exact Hlen.
Qed.

Lemma schedule_subtotal_forest (fuel : nat) (h : Heap) (s : addr)
    (sc : CostSchedule) (ts : list CostTree) :
  schedules h !! s = Some sc ->
  Forall2 (repr h) (items sc) ts ->
  Forall (fun t => height t <= fuel) ts ->
  CostSchedule.subtotal fuel h s = Ok (py_sum (map spec_subtotal ts)).
Proof.
  intros Hs Hr Hh. unfold CostSchedule.subtotal.
  rewrite (get_schedule_Ok _ _ _ Hs). cbn [mbind outcome_bind].
  rewrite (subtotal_forest fuel h _ _ Hr Hh). reflexivity.
Qed.

Lemma add_item_forest (fuel : nat) (h : Heap) (s x : addr)
    (sc : CostSchedule) (ts : list CostTree) (t : CostTree) :
  schedules h !! s = Some sc ->
  Forall2 (repr h) (items sc) ts ->
  Forall (fun t => height t <= fuel) ts ->
  repr h x t -> height t <= fuel ->
  exists h' ix',
    CostSchedule.add_item h s x = Ok (x, h')
    /\ schedules h' !! s = Some (with_items sc (items sc ++ [x]))
    /\ cost_items h' !! x = Some ix'
    /\ parent ix' = None /\ schedule ix' = Some s
    /\ Forall2 (repr h') (items sc ++ [x]) (ts ++ [t])
    /\ CostSchedule.item_count fuel h s = Ok (forest_size ts)
    /\ CostSchedule.item_count fuel h' s = Ok (forest_size ts + tree_size t)
    /\ CostSchedule.subtotal fuel h s = Ok (py_sum (map spec_subtotal ts))
    /\ CostSchedule.subtotal fuel h' s
       = Ok (py_sum (map spec_subtotal ts) + spec_subtotal t)%Q.
Proof.
  intros Hs Hr Hh Hx Hhx.
  assert (Hix : exists ix, cost_items h !! x = Some ix) by (destruct Hx; eauto).
  destruct Hix as [ix Hix].
  set (ix' := with_parent (with_schedule ix (Some s)) None).
  set (h' := put_schedule (put_item h x ix') s (with_items sc (items sc ++ [x]))).
  assert (Hframe : forall a ta, repr h a ta -> repr h' a ta).
  { intros a ta Ha. eapply repr_frame; [| | exact Ha].
    - intros a' it Hit. unfold h', put_schedule, put_item. cbn [cost_items].
      destruct (decide (x = a')) as [<-|Hne].
      + rewrite lookup_insert_eq. eexists. split; [reflexivity |].
        assert (it = ix) as -> by congruence. destruct ix; reflexivity.
      + rewrite lookup_insert_ne by exact Hne. exists it. split; [exact Hit | reflexivity].
    - intros v cv Hv. exact Hv. }
  assert (Hs' : schedules h' !! s = Some (with_items sc (items sc ++ [x])))
    by (unfold h', put_schedule; cbn [schedules]; apply lookup_insert_eq).
  assert (Hr' : Forall2 (repr h') (items sc ++ [x]) (ts ++ [t])).
  { apply Forall2_app.
    - eapply Forall2_impl; [exact Hr |]. exact Hframe.
    - repeat constructor. apply Hframe, Hx. }
  assert (Hh' : Forall (fun t => height t <= fuel) (ts ++ [t])).
  { apply Forall_app. split; [exact Hh | repeat constructor; exact Hhx]. }
  exists h', ix'.
  split; [apply add_item_explicit; assumption |].
  split; [exact Hs' |].
  split; [unfold h', put_schedule, put_item; cbn [cost_items]; apply lookup_insert_eq |].
  split; [reflexivity |]. split; [reflexivity |]. split; [exact Hr' |].
  split; [eapply item_count_forest; eassumption |].
  split.
  { rewrite (item_count_forest fuel h' s _ (ts ++ [t]) Hs' Hr' Hh').
    unfold forest_size. rewrite map_app, sum_list_with_app. simpl.
    f_equal. unfold id. lia. }
  split; [eapply schedule_subtotal_forest; eassumption |].
  rewrite (schedule_subtotal_forest fuel h' s _ (ts ++ [t]) Hs' Hr' Hh').
  rewrite map_app. cbn [map]. rewrite py_sum_snoc. reflexivity.
Qed.




Lemma remove_item_found (fuel : nat) (h : Heap) (s x : addr)
    (sc : CostSchedule) (ix : CostItem) (l1 l2 : list addr) :
  schedules h !! s = Some sc -> cost_items h !! x = Some ix ->
  items sc = l1 ++ x :: l2 ->
  Forall (other_than h x) l1 ->
  CostSchedule.remove_item (S fuel) h s x
  = Ok (true,
        put_schedule (put_item h x (with_schedule ix None))
          s (with_items sc (l1 ++ l2))).
Proof.
  intros Hs Hx Hc Hl. unfold CostSchedule.remove_item.
  rewrite (get_schedule_Ok _ _ _ Hs). cbn [mbind outcome_bind]. rewrite Hc.
  rewrite (contains_skip _ _ _ _ (other_than_eq fuel h x l1 Hl)).
  cbn [mbind outcome_bind]. unfold set_schedule, set_items.
  rewrite (get_item_Ok _ _ _ Hx). cbn [mbind outcome_bind].
  set (h1 := put_item h x (with_schedule ix None)).
  assert (Hs1 : get_schedule h1 s = Ok sc) by (apply get_schedule_Ok; exact Hs).
  rewrite Hs1. cbn [mbind outcome_bind]. rewrite Hc.
  assert (Hl1 : Forall (other_than h1 x) l1).
  { eapply other_than_frame; [| exact Hl].
    apply (put_item_keeps_names h x ix (with_schedule ix None) Hx eq_refl). }
  rewrite (remove_skip _ _ _ _ (other_than_eq fuel h1 x l1 Hl1)).
  reflexivity.
Qed.

(** X19.  For a detached item [x] (no parent, no schedule) and a schedule
    none of whose root items is [x] or has the name of [x],
    [schedule.add_item(x)] followed by [schedule.remove_item(x)] returns
    true and gives back exactly the store from before. *)
Theorem add_item_then_remove_restores (fuel : nat) (h : Heap) (s x : addr)
    (sc : CostSchedule) (ix : CostItem) :
  schedules h !! s = Some sc -> cost_items h !! x = Some ix ->
  parent ix = None -> schedule ix = None ->
  Forall (other_than h x) (items sc) ->
  exists h1,
    CostSchedule.add_item h s x = Ok (x, h1)
    /\ CostSchedule.remove_item (S fuel) h1 s x = Ok (true, h).
Proof.
  intros Hs Hx Hpar Hsch Hl.
  eexists. split; [apply add_item_explicit; eassumption |].
  set (ix1 := with_parent (with_schedule ix (Some s)) None).
  set (sc1 := with_items sc (items sc ++ [x])).
  set (h1 := put_schedule (put_item h x ix1) s sc1).
  assert (Hs1 : schedules h1 !! s = Some sc1)
    by (unfold h1, put_schedule; cbn [schedules]; apply lookup_insert_eq).
  assert (Hx1 : cost_items h1 !! x = Some ix1)
    by (unfold h1, put_schedule, put_item; cbn [cost_items]; apply lookup_insert_eq).
  assert (Hl1 : Forall (other_than h1 x) (items sc)).
  { eapply other_than_frame; [| exact Hl].
    apply (put_item_keeps_names h x ix ix1 Hx eq_refl). }
  rewrite (remove_item_found fuel h1 s x sc1 ix1 (items sc) [] Hs1 Hx1 eq_refl Hl1).
  f_equal. f_equal. apply heap_eq.
  - intros a. unfold h1, put_schedule, put_item. cbn [cost_items].
    rewrite insert_insert_eq.
    destruct (decide (a = x)) as [->|Hax].
    + rewrite lookup_insert_eq, Hx. f_equal.
      unfold ix1. destruct ix; cbn in *. subst. reflexivity.
    + rewrite lookup_insert_ne by congruence. reflexivity.
  - reflexivity.
  - unfold h1, put_schedule, put_item. cbn [schedules].
    rewrite insert_insert_eq. apply insert_id. rewrite Hs. f_equal.
    unfold sc1. rewrite app_nil_r. destruct sc; reflexivity.
Qed.

Lemma two_roots_other (x e : addr) (ie ix : CostItem) :
  cost_items two_roots_heap !! e = Some ie ->
  cost_items two_roots_heap !! x = Some ix ->
  e <> x -> String.eqb (name ie) (name ix) = false ->
  other_than two_roots_heap x e.
Proof.
  intros He Hx Hne Hn. split; [exact Hne |].
  exists ie, ix. repeat split; try assumption. apply String.eqb_neq, Hn.
Qed.

Lemma add_item_then_remove_restores_witness :
  Forall (other_than two_roots_heap 2) [0; 1]
  /\ exists h1,
       CostSchedule.add_item two_roots_heap 0 2 = Ok (2, h1)
       /\ CostSchedule.remove_item 1 h1 0 2 = Ok (true, two_roots_heap).
Proof.
  assert (Hl : Forall (other_than two_roots_heap 2) [0; 1]).
  { repeat constructor;
      (eapply two_roots_other;
       [reflexivity | reflexivity | discriminate | reflexivity]). }
  split; [exact Hl |].
  apply (add_item_then_remove_restores 0 two_roots_heap 0 2 _ _
           eq_refl eq_refl eq_refl eq_refl Hl).
Defined.

(** ** Creating a chapter *)

(** X20.  [create_chapter] on a schedule whose roots stand for a forest: it
    returns a new item that is the last root, with the given name and
    description, no children, no parent and [schedule] set; its
    identification is the one given or, when that is empty, the two-digit
    number of roots plus one.  [chapter_count] and [item_count] go up by
    one, and the schedule's subtotal stays equal. *)
Theorem create_chapter_appends (fuel : nat) (h : Heap) (s : addr)
    (nm ident descr : string) (sc : CostSchedule) (ts : list CostTree) :
  schedules h !! s = Some sc ->
  Forall2 (repr h) (items sc) ts ->
  Forall (fun t => height t <= fuel) ts -> 1 <= fuel ->
  exists (c : addr) (h' : Heap) (ic : CostItem) (v' : Q),
    CostSchedule.create_chapter h s nm ident descr = Ok (c, h')
    /\ cost_items h !! c = None
    /\ cost_items h' !! c = Some ic
    /\ name ic = nm /\ description ic = descr
    /\ identification ic
       = (if str_truthy ident then ident
          else format_02d (length (items sc) + 1))
    /\ children ic = [] /\ parent ic = None /\ schedule ic = Some s
    /\ schedules h' !! s = Some (with_items sc (items sc ++ [c]))
    /\ CostSchedule.chapter_count h s = Ok (length (items sc))
    /\ CostSchedule.chapter_count h' s = Ok (S (length (items sc)))
    /\ CostSchedule.item_count fuel h' s = Ok (forest_size ts + 1)
    /\ CostSchedule.subtotal fuel h' s = Ok v'
    /\ (v' == py_sum (map spec_subtotal ts))%Q.
Proof.
  intros Hs Hr Hh Hfuel.
  pose proof (fresh_value_new h) as Hv.
  pose proof (fresh_item_new h) as Hc.
  set (v := fresh (dom (cost_values h))) in *.
  set (c := fresh (dom (cost_items h))) in *.
  set (ident' := if str_truthy ident then ident
                 else format_02d (length (items sc) + 1)).
  set (ic0 := CostItem.make nm "" ident' "" descr false v).
  set (h2 := put_item (put_value h v CostValue.default) c ic0).
  assert (Hext : extends h h2).
  { split; [| split; [| reflexivity]].
    - intros a i Ha. unfold h2, put_item. cbn [cost_items put_value].
      rewrite lookup_insert_ne; [exact Ha |].
      intros <-. unfold new_item_in in Hc. congruence.
    - intros w cw Hw. unfold h2, put_item, put_value. cbn [cost_values].
      rewrite lookup_insert_ne; [exact Hw |].
      intros <-. unfold new_value_in in Hv. congruence. }
  assert (Hs2 : schedules h2 !! s = Some sc) by exact Hs.
  assert (Hr2 : Forall2 (repr h2) (items sc) ts).
  { eapply Forall2_impl; [exact Hr |]. intros a t. apply repr_extends, Hext. }
  assert (Hc2 : cost_items h2 !! c = Some ic0)
    by (unfold h2, put_item; cbn [cost_items]; apply lookup_insert_eq).
  assert (Hrc : repr h2 c (Node (data_of ic0 CostValue.default) [])).
  { econstructor; [exact Hc2 | | constructor].
    unfold h2, put_item, put_value. cbn [cost_values cost_value ic0 CostItem.make].
    apply lookup_insert_eq. }
  destruct (add_item_forest fuel h2 s c sc ts _ Hs2 Hr2 Hh Hrc)
    as (h' & ic & Hadd & Hs' & Hic & Hpar & Hsch & _ & _ & Hcount & _ & Hsub).
  { simpl. lia. }
  exists c, h', ic, (py_sum (map spec_subtotal ts)
                     + spec_subtotal (Node (data_of ic0 CostValue.default) []))%Q.
  assert (Hic' : ic = with_parent (with_schedule ic0 (Some s)) None).
  { rewrite (add_item_explicit h2 s c sc ic0 Hs2 Hc2) in Hadd.
    injection Hadd as <-.
    unfold put_schedule, put_item in Hic. cbn [cost_items] in Hic.
    rewrite lookup_insert_eq in Hic. congruence. }
  split.
  { unfold CostSchedule.create_chapter.
    rewrite (get_schedule_Ok _ _ _ Hs). cbn [mbind outcome_bind].
    unfold alloc_value, alloc_item. cbn [cost_items put_value].
    fold v c ident' ic0 h2. exact Hadd. }
  split; [exact Hc |]. split; [exact Hic |].
  rewrite Hic'.
  split; [reflexivity |]. split; [reflexivity |]. split; [reflexivity |].
  split; [reflexivity |]. split; [reflexivity |]. split; [reflexivity |].
  split; [exact Hs' |].
  split; [unfold CostSchedule.chapter_count;
          rewrite (get_schedule_Ok _ _ _ Hs); reflexivity |].
  split.
  { unfold CostSchedule.chapter_count. rewrite (get_schedule_Ok _ _ _ Hs').
    cbn [mbind outcome_bind with_items items]. rewrite length_app. simpl.
    f_equal. lia. }
  split; [exact Hcount |]. split; [exact Hsub |].
  cbn. ring.
Qed.

Lemma two_roots_repr : Forall2 (repr two_roots_heap) [0; 1] two_roots_trees.
Proof.
  repeat constructor;
    (eapply repr_intro; [reflexivity | reflexivity | reflexivity | constructor]).
Qed.

Lemma create_chapter_appends_witness :
  Forall2 (repr two_roots_heap) [0; 1] two_roots_trees
  /\ Forall (fun t => height t <= 1) two_roots_trees /\ 1 <= 1
  /\ exists (c : addr) (h' : Heap) (ic : CostItem) (v' : Q),
       CostSchedule.create_chapter two_roots_heap 0 "Afwerking" "" "" = Ok (c, h')
       /\ cost_items two_roots_heap !! c = None
       /\ cost_items h' !! c = Some ic
       /\ name ic = "Afwerking"%string /\ description ic = ""%string
       /\ identification ic
          = (if str_truthy "" then ""%string
             else format_02d (length [0; 1] + 1))
       /\ children ic = [] /\ parent ic = None /\ schedule ic = Some 0
       /\ schedules h' !! 0
          = Some (with_items
                    (mkCostSchedule "Begroting" "" BUDGET DRAFT (Some 0) None None
                       [0; 1] (21 # 1) None) ([0; 1] ++ [c]))
       /\ CostSchedule.chapter_count two_roots_heap 0 = Ok (length [0; 1])
       /\ CostSchedule.chapter_count h' 0 = Ok (S (length [0; 1]))
       /\ CostSchedule.item_count 1 h' 0 = Ok (forest_size two_roots_trees + 1)
       /\ CostSchedule.subtotal 1 h' 0 = Ok v'
       /\ (v' == py_sum (map spec_subtotal two_roots_trees))%Q.
Proof.
  assert (Hh : Forall (fun t => height t <= 1) two_roots_trees)
    by (repeat constructor).
  split; [exact two_roots_repr |]. split; [exact Hh |]. split; [lia |].
  exact (create_chapter_appends 1 two_roots_heap 0 "Afwerking" "" "" _
           two_roots_trees eq_refl two_roots_repr Hh (le_n 1)).
Defined.

(** The third chapter of a schedule gets the code "03". *)
Example create_chapter_code :
  exists c h' ic,
    CostSchedule.create_chapter two_roots_heap 0 "Afwerking" "" "" = Ok (c, h')
    /\ cost_items h' !! c = Some ic
    /\ identification ic = "03"%string.
Proof. eexists _, _, _. split; [vm_compute; reflexivity |]. split; reflexivity. Qed.

(** ** Copy and paste *)




(** ** Re-parenting needs an explicit detach *)

(** X25.  [add_child] does not take the child out of a list it already is
    in: when [child] is among the children of another item [q], then after
    [parent.add_child(child)] the item [q] is unchanged and so still lists
    the child, while the child is the last of the new parent's children and
    its [parent] and [schedule] are those of the new parent. *)
Theorem add_child_keeps_old_listing (h : Heap) (p q x : addr)
    (ip iq ix : CostItem) :
  cost_items h !! p = Some ip -> cost_items h !! q = Some iq ->
  cost_items h !! x = Some ix ->
  x <> p -> q <> p -> q <> x -> x ∈ children iq ->
  exists h' iq',
    CostItem.add_child h p x = Ok (x, h')
    /\ cost_items h' !! q = Some iq' /\ iq' = iq /\ x ∈ children iq'
    /\ cost_items h' !! p = Some (with_children ip (children ip ++ [x]))
    /\ cost_items h' !! x
       = Some (with_schedule (with_parent ix (Some p)) (schedule ip)).
Proof.
  intros Hp Hq Hx Hxp Hqp Hqx Hin.
  destruct (add_child_spec h p x ip ix Hp Hx ltac:(congruence))
    as (h' & Hadd & Hp' & Hx' & Hother & _).
  exists h', iq. split; [exact Hadd |].
  split; [rewrite Hother; assumption |].
  split; [reflexivity |]. split; [exact Hin |].
  split; [exact Hp' | exact Hx'].
Qed.

Lemma add_child_keeps_old_listing_witness :
  4 <> 0 /\ 1 <> 0 /\ 1 <> 4 /\ (4 ∈ [4])
  /\ exists h' iq',
       CostItem.add_child relisted_heap 0 4 = Ok (4, h')
       /\ cost_items h' !! 1 = Some iq'
       /\ iq' = mkCostItem "Fundering" "" "02.01" "" "" false 1 [4] None None None
       /\ 4 ∈ children iq'
       /\ cost_items h' !! 0
          = Some (with_children
                    (mkCostItem "Ruwbouw" "" "02" "" "" false 0 [2] None None None)
                    ([2] ++ [4]))
       /\ cost_items h' !! 4
          = Some (with_schedule
                    (with_parent
                       (mkCostItem "Beton" "" "02.01.01" "" "" false 4 [] (Some 1)
                          None None)
                       (Some 0)) None).
Proof.
  split; [discriminate |]. split; [discriminate |]. split; [discriminate |].
  split; [left |].
  apply (add_child_keeps_old_listing relisted_heap 0 1 4 _ _ _
           eq_refl eq_refl eq_refl);
    [discriminate | discriminate | discriminate | left].
Defined.

(** ** Marking a schedule as modified *)

Lemma for_each_ext {S A : Type} (f g : S -> A -> outcome S) (l : list A) (s : S) :
  (forall s a, f s a = g s a) -> for_each f l s = for_each g l s.
Proof.
  intros E. revert s. induction l as [|c l IH]; intros s; [reflexivity |].
  cbn [for_each]. rewrite E.
  destruct (g s c); cbn [mbind outcome_bind]; [apply IH | reflexivity | reflexivity].
Qed.

Lemma mapM_outcome_ext {A B : Type} (f g : A -> outcome B) (l : list A) :
  (forall a, f a = g a) -> mapM f l = mapM g l.
Proof.
  intros E. induction l as [|c l IH]; [reflexivity |].
  cbn [mapM]. rewrite E.
  fold (mapM f l). fold (mapM g l). rewrite IH. reflexivity.
Qed.

Lemma subtotal_store (fuel : nat) (h h' : Heap) (x : addr) :
  cost_items h' = cost_items h -> cost_values h' = cost_values h ->
  CostItem.subtotal fuel h' x = CostItem.subtotal fuel h x.
Proof.
  intros Hi Hv. revert x. induction fuel as [|f IH]; intros x; [reflexivity |].
  cbn [CostItem.subtotal]. unfold get_item, get_value. rewrite Hi, Hv.
  destruct (cost_items h !! x) as [it|]; [| reflexivity].
  cbn [mbind outcome_bind].
  rewrite (mapM_outcome_ext _ _ (children it) IH). reflexivity.
Qed.

Lemma descendants_store (fuel : nat) (h h' : Heap) (x : addr) :
  cost_items h' = cost_items h ->
  CostItem.get_all_descendants fuel h' x = CostItem.get_all_descendants fuel h x.
Proof.
  intros Hi. revert x. induction fuel as [|f IH]; intros x; [reflexivity |].
  cbn [CostItem.get_all_descendants]. unfold get_item. rewrite Hi.
  destruct (cost_items h !! x) as [it|]; [| reflexivity].
  cbn [mbind outcome_bind].
  apply for_each_ext. intros s a. rewrite IH. reflexivity.
Qed.

(** X26.  [mark_modified] sets [update_date] and nothing else: the roots,
    the VAT rate, and with them [subtotal], [vat_amount], [total] and
    [item_count] are what they were. *)
Theorem mark_modified_keeps_figures (fuel : nat) (h : Heap) (s : addr)
    (sc : CostSchedule) (today : nat) :
  schedules h !! s = Some sc ->
  exists h' sc',
    CostSchedule.mark_modified h s today = Ok h'
    /\ schedules h' !! s = Some sc'
    /\ update_date sc' = Some today
    /\ items sc' = items sc /\ vat_rate sc' = vat_rate sc
    /\ CostSchedule.subtotal fuel h' s = CostSchedule.subtotal fuel h s
    /\ CostSchedule.vat_amount fuel h' s = CostSchedule.vat_amount fuel h s
    /\ CostSchedule.total fuel h' s = CostSchedule.total fuel h s
    /\ CostSchedule.item_count fuel h' s = CostSchedule.item_count fuel h s.
Proof.
  intros Hs. unfold CostSchedule.mark_modified.
  rewrite (get_schedule_Ok _ _ _ Hs). cbn [mbind outcome_bind].
  eexists _, _. split; [reflexivity |].
  set (sc' := mkCostSchedule _ _ _ _ _ _ _ _ _ _).
  set (h' := put_schedule h s sc').
  assert (Hs' : schedules h' !! s = Some sc')
    by (unfold h', put_schedule; cbn [schedules]; apply lookup_insert_eq).
  split; [exact Hs' |].
  split; [reflexivity |]. split; [reflexivity |]. split; [reflexivity |].
  assert (Hsub : CostSchedule.subtotal fuel h' s = CostSchedule.subtotal fuel h s).
  { unfold CostSchedule.subtotal.
    rewrite (get_schedule_Ok _ _ _ Hs'), (get_schedule_Ok _ _ _ Hs).
    cbn [mbind outcome_bind]. cbn [items sc'].
    rewrite (mapM_outcome_ext _ _ (items sc)
               (fun c => subtotal_store fuel h h' c eq_refl eq_refl)).
    reflexivity. }
  assert (Hvat : CostSchedule.vat_amount fuel h' s = CostSchedule.vat_amount fuel h s).
  { unfold CostSchedule.vat_amount. rewrite Hsub.
    rewrite (get_schedule_Ok _ _ _ Hs'), (get_schedule_Ok _ _ _ Hs). reflexivity. }
  split; [exact Hsub |]. split; [exact Hvat |].
  split; [unfold CostSchedule.total; rewrite Hsub, Hvat; reflexivity |].
  unfold CostSchedule.item_count.
  rewrite (get_schedule_Ok _ _ _ Hs'), (get_schedule_Ok _ _ _ Hs).
  cbn [mbind outcome_bind]. cbn [items sc'].
  apply for_each_ext. intros n c.
  rewrite (descendants_store fuel h h' c eq_refl). reflexivity.
Qed.

Lemma mark_modified_keeps_figures_witness :
  exists h' sc',
    CostSchedule.mark_modified grondwerk_heap 0 7 = Ok h'
    /\ schedules h' !! 0 = Some sc'
    /\ update_date sc' = Some 7
    /\ items sc' = [0] /\ vat_rate sc' = (21 # 1)%Q
    /\ CostSchedule.subtotal 2 h' 0 = CostSchedule.subtotal 2 grondwerk_heap 0
    /\ CostSchedule.vat_amount 2 h' 0 = CostSchedule.vat_amount 2 grondwerk_heap 0
    /\ CostSchedule.total 2 h' 0 = CostSchedule.total 2 grondwerk_heap 0
    /\ CostSchedule.item_count 2 h' 0 = CostSchedule.item_count 2 grondwerk_heap 0.
Proof.
  exact (mark_modified_keeps_figures 2 grondwerk_heap 0 _ 7 eq_refl).
Defined.

(** * Escaping text for the HTML report *)

Lemma string_app_cons (x : Ascii.ascii) (a b : string) :
  String x a +:+ b = String x (a +:+ b).
Proof. reflexivity. Qed.

Lemma string_app_assoc (a b c : string) : (a +:+ b) +:+ c = a +:+ (b +:+ c).
Proof.
  induction a as [|x a IH]; [reflexivity |].
  rewrite !string_app_cons, IH. reflexivity.
Qed.

Lemma replace_char_app (c : Ascii.ascii) (new a b : string) :
  replace_char c new (a +:+ b) = replace_char c new a +:+ replace_char c new b.
Proof.
  induction a as [|x a IH]; [reflexivity |].
  rewrite string_app_cons. cbn [replace_char]. rewrite IH. destruct (Ascii.eqb x c); [| reflexivity].
  rewrite string_app_assoc. reflexivity.
Qed.

Lemma replace_char_escape_amp (s : string) :
  replace_char PrintService.dquote "&quot;"
    (replace_char ">" "&gt;" (replace_char "<" "&lt;" (replace_char "&" "&amp;" s)))
  = escape_chars s.
Proof.
  induction s as [|c s IH]; [reflexivity |].
  cbn [replace_char escape_chars]. unfold escape_char.
  destruct (Ascii.eqb c "&") eqn:E1.
  - rewrite !replace_char_app, IH. reflexivity.
  - cbn [replace_char]. destruct (Ascii.eqb c "<") eqn:E2.
    + rewrite !replace_char_app, IH. reflexivity.
    + cbn [replace_char]. destruct (Ascii.eqb c ">") eqn:E3.
      * rewrite !replace_char_app, IH. reflexivity.
      * cbn [replace_char]. rewrite IH.
        destruct (Ascii.eqb c PrintService.dquote); reflexivity.
Qed.

Lemma escape_html_chars (text : string) :
  PrintService._escape_html text = escape_chars text.
Proof.
  unfold PrintService._escape_html.
  destruct text as [|c s]; [reflexivity |].
  cbn [str_truthy String.eqb negb]. apply replace_char_escape_amp.
Qed.

(** X22.  [_escape_html] replaces every character of the text exactly
    once: "&", "<", ">" and the double quote by their entities, any other
    character by itself.  In particular the "&" of an entity that the
    function itself wrote is not escaped again. *)
Theorem escape_html_each_char_once (text : string) :
  PrintService._escape_html text = escape_chars text
  /\ forall a b : string,
       PrintService._escape_html (a +:+ b)
       = PrintService._escape_html a +:+ PrintService._escape_html b.
Proof.
  split; [apply escape_html_chars |].
  intros a b. rewrite !escape_html_chars.
  induction a as [|c a IH]; [reflexivity |].
  rewrite string_app_cons. cbn [escape_chars].
  rewrite IH, string_app_assoc. reflexivity.
Qed.

Lemma chars_app (a b : string) : chars (a +:+ b) = chars a ++ chars b.
Proof.
  unfold chars. induction a as [|c a IH]; [reflexivity |].
  rewrite string_app_cons. cbn [String.list_ascii_of_string app].
  rewrite IH. reflexivity.
Qed.

Lemma escape_char_clean (c x : Ascii.ascii) :
  x = "<"%char \/ x = ">"%char \/ x = PrintService.dquote ->
  ~ In x (chars (escape_char c)).
Proof.
  intros Hx. unfold escape_char.
  destruct (Ascii.eqb c "&") eqn:E1;
    [destruct Hx as [-> | [-> | ->]]; cbn; intros H; intuition discriminate |].
  destruct (Ascii.eqb c "<") eqn:E2;
    [destruct Hx as [-> | [-> | ->]]; cbn; intros H; intuition discriminate |].
  destruct (Ascii.eqb c ">") eqn:E3;
    [destruct Hx as [-> | [-> | ->]]; cbn; intros H; intuition discriminate |].
  destruct (Ascii.eqb c PrintService.dquote) eqn:E4;
    [destruct Hx as [-> | [-> | ->]]; cbn; intros H; intuition discriminate |].
  cbn. intros [H | []]. subst x.
  destruct Hx as [-> | [-> | ->]].
  - rewrite Ascii.eqb_refl in E2. discriminate.
  - rewrite Ascii.eqb_refl in E3. discriminate.
  - rewrite Ascii.eqb_refl in E4. discriminate.
Qed.

(** X23.  The text that [_escape_html] returns contains no "<", no ">" and
    no double quote. *)
Theorem escape_html_no_markup (text : string) (x : Ascii.ascii) :
  x = "<"%char \/ x = ">"%char \/ x = PrintService.dquote ->
  ~ In x (chars (PrintService._escape_html text)).
Proof.
  intros Hx. rewrite escape_html_chars.
  induction text as [|c s IH]; cbn [escape_chars]; [intros [] |].
  rewrite chars_app. intros H. apply in_app_or in H as [H | H].
  - exact (escape_char_clean c x Hx H).
  - exact (IH H).
Qed.

Lemma escape_html_no_markup_witness :
  ("<"%char = "<"%char \/ "<"%char = ">"%char \/ "<"%char = PrintService.dquote)
  /\ ~ In "<"%char (chars (PrintService._escape_html "a<b"%string)).
Proof.
  split; [left; reflexivity |].
  apply (escape_html_no_markup "a<b" "<"). left. reflexivity.
Defined.

Lemma unescape_escape_chars (s : string) : unescape (escape_chars s) = s.
Proof.
  induction s as [|c s IH]; [reflexivity |].
  cbn [escape_chars]. unfold escape_char.
  destruct (Ascii.eqb c "&") eqn:E1.
  { apply Ascii.eqb_eq in E1. subst c.
    cbv beta iota zeta delta [String.append]. cbn [unescape].
    rewrite IH. reflexivity. }
  destruct (Ascii.eqb c "<") eqn:E2.
  { apply Ascii.eqb_eq in E2. subst c.
    cbv beta iota zeta delta [String.append]. cbn [unescape].
    rewrite IH. reflexivity. }
  destruct (Ascii.eqb c ">") eqn:E3.
  { apply Ascii.eqb_eq in E3. subst c.
    cbv beta iota zeta delta [String.append]. cbn [unescape].
    rewrite IH. reflexivity. }
  destruct (Ascii.eqb c PrintService.dquote) eqn:E4.
  { apply Ascii.eqb_eq in E4. subst c.
    cbv beta iota zeta delta [String.append]. cbn [unescape].
    rewrite IH. reflexivity. }
  cbv beta iota zeta delta [String.append]. clear E2 E3 E4.
  destruct c as [[] [] [] [] [] [] [] []];
    try (vm_compute in E1; discriminate E1);
    cbn [unescape]; rewrite IH; reflexivity.
Qed.

(** X24.  [_escape_html] loses nothing: two texts with the same escaped
    form are the same text. *)
Theorem escape_html_injective (s t : string) :
  PrintService._escape_html s = PrintService._escape_html t -> s = t.
Proof.
  rewrite !escape_html_chars. intros H.
  rewrite <- (unescape_escape_chars s), <- (unescape_escape_chars t), H.
  reflexivity.
Qed.

Lemma escape_html_injective_witness :
  PrintService._escape_html "a<b" = PrintService._escape_html "a<b"
  /\ "a<b"%string = "a<b"%string.
Proof.
  split; [reflexivity |].
  apply (escape_html_injective "a<b" "a<b"). reflexivity.
Defined.
